(** * BioFilterLib: FIR, IIR biquad and LMS filter wrappers

    A shallow embedding of the three C++ wrapper classes of BioFilterLib
    ([FIRFilter], [IIRFilter], [LMSFilter]) over an explicit heap of
    [float32_t] arrays, together with the properties the design document
    states about them.

    Arithmetic on [float32_t] is idealised: the sample type is any type
    carrying the operations of a commutative ring, and "equal within
    floating-point tolerance" is read as equality in that ring.  Rounding
    is not modelled. *)

From Stdlib Require Import ZArith Ring.
From stdpp Require Import gmap list.

(** ** Sample arithmetic *)

(** The operations the filters use on [float32_t] values. *)
Class Arith (float32_t : Type) := {
  f0 : float32_t;
  f1 : float32_t;
  fadd : float32_t -> float32_t -> float32_t;
  fmul : float32_t -> float32_t -> float32_t;
  fsub : float32_t -> float32_t -> float32_t;
  fopp : float32_t -> float32_t
}.

Infix "⊕" := fadd (at level 50, left associativity).
Infix "⊖" := fsub (at level 50, left associativity).
Infix "⊗" := fmul (at level 40, left associativity).

(** Integers as samples; used to run the model on concrete inputs. *)
#[global] Instance Z_arith : Arith Z :=
  {| f0 := 0%Z; f1 := 1%Z; fadd := Z.add; fmul := Z.mul; fsub := Z.sub; fopp := Z.opp |}.

(** The ring laws assumed of the idealised arithmetic. *)
Abbreviation ring_laws float32_t :=
  (@ring_theory float32_t f0 f1 fadd fmul fsub fopp eq).

(** ** Machine integers *)

(** The values of [uint8_t] and [uint16_t] parameters and members.  The
    wrappers do no arithmetic in these types: [_numTaps + _blockSize - 1]
    and [4 * _numStages] are computed in [int], where they cannot
    overflow. *)
Definition is_uint8 (z : Z) : Prop := (0 <= z < 2 ^ 8)%Z.
Definition is_uint16 (z : Z) : Prop := (0 <= z < 2 ^ 16)%Z.

(** ** Heap of arrays, pointers, faults *)

Definition loc := positive.

(** A pointer is either [nullptr] ([None]) or the base address of an array. *)
Abbreviation ptr := (option loc).
Abbreviation nullptr := (@None loc).

(** What the C++ code leaves undefined (or aborts on) is a [fault]. *)
Inductive fault :=
| NullPointer
| DanglingPointer
| OutOfBounds
| BadArrayLength.

Inductive result (A : Type) :=
| Ok (a : A)
| Fault (e : fault).
Arguments Ok {A} a.
Arguments Fault {A} e.

(** State-and-fault monad. *)
Definition M (St A : Type) : Type := St -> result (A * St).

Definition ret {St A} (a : A) : M St A := fun s => Ok (a, s).

Definition bind {St A B} (m : M St A) (k : A -> M St B) : M St B :=
  fun s => match m s with
           | Ok (a, s') => k a s'
           | Fault e => Fault e
           end.

Definition raise {St A} (e : fault) : M St A := fun _ => Fault e.

Notation "x <- m ;; k" := (bind m (fun x => k))
  (at level 100, m at next level, right associativity).

(** A C++ object together with the heap it points into. *)
Record world (O H : Type) := World { this : O; mem : H }.
Arguments World {O H} this mem.
Arguments this {O H} w.
Arguments mem {O H} w.

Definition get_this {O H} : M (world O H) O := fun w => Ok (this w, w).

Definition set_this {O H} (o : O) : M (world O H) unit :=
  fun w => Ok (tt, World o (mem w)).

(** Run a heap computation (a call into the DSP kernel) from a method. *)
Definition on_mem {O H A} (m : M H A) : M (world O H) A :=
  fun w => match m (mem w) with
           | Ok (a, h') => Ok (a, World (this w) h')
           | Fault e => Fault e
           end.

(** Call [f] on each element in order, collecting the results. *)
Fixpoint each {St A B} (f : A -> M St B) (l : list A) : M St (list B) :=
  match l with
  | [] => ret []
  | a :: l' => b <- f a ;; bs <- each f l' ;; ret (b :: bs)
  end.

Section Heap.
Context {float32_t : Type} `{Arith float32_t}.

Local Abbreviation heap := (gmap loc (list float32_t)).

(** [p[i]] as an rvalue. *)
Definition heap_load (p : ptr) (i : nat) : M heap float32_t :=
  fun h => match p with
           | None => Fault NullPointer
           | Some l =>
               match h !! l with
               | None => Fault DanglingPointer
               | Some vs =>
                   match vs !! i with
                   | None => Fault OutOfBounds
                   | Some v => Ok (v, h)
                   end
               end
           end.

(** [p[i] = v]. *)
Definition heap_store (p : ptr) (i : nat) (v : float32_t) : M heap unit :=
  fun h => match p with
           | None => Fault NullPointer
           | Some l =>
               match h !! l with
               | None => Fault DanglingPointer
               | Some vs =>
                   if decide (i < length vs)
                   then Ok (tt, <[l := <[i := v]> vs]> h)
                   else Fault OutOfBounds
               end
           end.

(** [new float32_t[n]()] when memory suffices: a fresh, value-initialised
    (all zero) array.  A negative length is refused.  Running out of
    memory, which the source leaves undefined, is not modelled: what is
    stated of a constructor that returns is stated of an allocation that
    was satisfied. *)
Definition heap_new (n : Z) : M heap ptr :=
  fun h => if decide (n < 0)%Z then Fault BadArrayLength
           else let l := fresh (dom h) in
                Ok (Some l, <[l := replicate (Z.to_nat n) f0]> h).

(** The first [n] elements of the array at [p]. *)
Definition heap_read (p : ptr) (n : nat) : M heap (list float32_t) :=
  fun h => match p with
           | None => Fault NullPointer
           | Some l =>
               match h !! l with
               | None => Fault DanglingPointer
               | Some vs =>
                   if decide (n <= length vs) then Ok (take n vs, h)
                   else Fault OutOfBounds
               end
           end.

(** Overwrite the first [length ws] elements of the array at [p]. *)
Definition heap_write (p : ptr) (ws : list float32_t) : M heap unit :=
  fun h => match p with
           | None => Fault NullPointer
           | Some l =>
               match h !! l with
               | None => Fault DanglingPointer
               | Some vs =>
                   if decide (length ws <= length vs)
                   then Ok (tt, <[l := ws ++ drop (length ws) vs]> h)
                   else Fault OutOfBounds
               end
           end.

(** Element [i] of a caller array passed by pointer and length. *)
Definition array_get {St} (a : list float32_t) (i : nat) : M St float32_t :=
  match a !! i with
  | Some v => ret v
  | None => raise OutOfBounds
  end.

(** Accumulating dot product [sum_k w[k] * h[k]]. *)
Definition dot (w h : list float32_t) : float32_t :=
  fold_left (fun acc p => acc ⊕ fst p ⊗ snd p) (zip w h) f0.

(** Shift [x] into a delay line kept most-recent-first; the length of the
    line does not change. *)
Definition shift_in (x : float32_t) (line : list float32_t) : list float32_t :=
  take (length line) (x :: line).

End Heap.

(** ** FIR engine *)

Module FIR.
Section Defs.
Context {float32_t : Type} `{Arith float32_t}.
Local Abbreviation heap := (gmap loc (list float32_t)).

(** The CMSIS-DSP instance structure the wrapper embeds by value. *)
Record arm_fir_instance_f32 := {
  numTaps : Z;
  pState : ptr;
  pCoeffs : ptr
}.

Record FIRFilter := {
  _coeffs : ptr;
  _state : ptr;
  _numTaps : Z;          (* uint16_t *)
  _blockSize : Z;        (* uint16_t *)
  _firInstance : arm_fir_instance_f32;
  _sampleIndex : Z       (* uint32_t *)
}.

(** Modelled from the spec: [arm_fir_init_f32] belongs to CMSIS-DSP and is
    not part of this repository.  It records the tap count and the
    coefficient and state pointers in the instance. *)
Definition arm_fir_init_f32 (numTaps : Z) (pCoeffs pState : ptr) (blockSize : Z)
  : arm_fir_instance_f32 :=
  {| numTaps := numTaps; pState := pState; pCoeffs := pCoeffs |}.

(** [FIRFilter::FIRFilter].  [numTaps] and [blockSize] are [uint16_t]; the
    array length [_numTaps + _blockSize - 1] is computed in [int] and so
    does not wrap. *)
Definition FIRFilter_new (coeffs : ptr) (numTaps blockSize : Z) : M heap FIRFilter :=
  state <- heap_new (numTaps + blockSize - 1) ;;
  ret {| _coeffs := coeffs; _state := state;
         _numTaps := numTaps; _blockSize := blockSize;
         _firInstance := arm_fir_init_f32 numTaps coeffs state blockSize;
         _sampleIndex := 0 |}.

(** Modelled from the spec: the FIR kernel [arm_fir_f32] belongs to
    CMSIS-DSP and is not part of this repository.  Per sample: shift [x]
    into the delay line, then [y = sum_{k<T} coeff[k] * history[n-k]].  The
    delay line is the first [T] elements of the state buffer, most recent
    sample first. *)
Definition fir_sample (inst : arm_fir_instance_f32) (x : float32_t) : M heap float32_t :=
  let T := Z.to_nat (numTaps inst) in
  c <- heap_read (pCoeffs inst) T ;;
  line <- heap_read (pState inst) T ;;
  let line' := shift_in x line in
  _ <- heap_write (pState inst) line' ;;
  ret (dot c line').

(** The samples [pSrc[i .. i+n-1]], in order. *)
Fixpoint fir_block (inst : arm_fir_instance_f32) (pSrc : list float32_t) (i n : nat)
  : M heap (list float32_t) :=
  match n with
  | 0 => ret []
  | S n' =>
      x <- array_get pSrc i ;;
      y <- fir_sample inst x ;;
      ys <- fir_block inst pSrc (S i) n' ;;
      ret (y :: ys)
  end.

(** Modelled from the spec: [arm_fir_f32(S, pSrc, pDst, blockSize)]; the
    block call is [blockSize] consecutive per-sample steps.  The contents
    written to [pDst] are the value returned. *)
Definition arm_fir_f32 (inst : arm_fir_instance_f32) (pSrc : list float32_t)
  (blockSize : nat) : M heap (list float32_t) :=
  fir_block inst pSrc 0 blockSize.

(** [FIRFilter::processSample]. *)
Definition processSample (input : float32_t) : M (world FIRFilter heap) float32_t :=
  self <- get_this ;;
  output <- on_mem (arm_fir_f32 (_firInstance self) [input] 1) ;;
  ret (default f0 (output !! 0)).

(** [FIRFilter::processBuffer]; returns what it wrote to [outputArray]. *)
Definition processBuffer (inputArray : list float32_t) (length : nat)
  : M (world FIRFilter heap) (list float32_t) :=
  self <- get_this ;;
  on_mem (arm_fir_f32 (_firInstance self) inputArray length).

(** The wrapper and the instance it embeds agree on the buffers and the
    tap count. *)
Definition consistent (self : FIRFilter) : Prop :=
  pCoeffs (_firInstance self) = _coeffs self /\
  pState (_firInstance self) = _state self /\
  numTaps (_firInstance self) = _numTaps self.

(** A filter in working order: [T] coefficients or more in the caller's
    array at [c], and a state array at [s] that holds the [T]-sample delay
    line [line] followed by [rest]. *)
Record ready (w : world FIRFilter heap) (c s : loc) (cs line rest : list float32_t)
  : Prop := {
  ready_consistent : consistent (this w);
  ready_coeffs : _coeffs (this w) = Some c;
  ready_state : _state (this w) = Some s;
  ready_distinct : c <> s;
  ready_cs : mem w !! c = Some cs;
  ready_st : mem w !! s = Some (line ++ rest);
  ready_cs_len : Z.to_nat (_numTaps (this w)) <= length cs;
  ready_line_len : length line = Z.to_nat (_numTaps (this w))
}.

End Defs.
End FIR.

(** ** IIR biquad cascade engine *)

Module IIR.
Section Defs.
Context {float32_t : Type} `{Arith float32_t}.
Local Abbreviation heap := (gmap loc (list float32_t)).

Record arm_biquad_casd_df1_inst_f32 := {
  numStages : Z;
  pState : ptr;
  pCoeffs : ptr
}.

Record IIRFilter := {
  _coeffs : ptr;
  _state : ptr;
  _numStages : Z;        (* uint8_t *)
  _blockSize : Z;        (* uint16_t *)
  _iirInstance : arm_biquad_casd_df1_inst_f32
}.

(** Modelled from the spec: [arm_biquad_cascade_df1_init_f32] belongs to
    CMSIS-DSP and is not part of this repository.  It records the section
    count and the coefficient and state pointers in the instance. *)
Definition arm_biquad_cascade_df1_init_f32 (numStages : Z) (pCoeffs pState : ptr)
  : arm_biquad_casd_df1_inst_f32 :=
  {| numStages := numStages; pState := pState; pCoeffs := pCoeffs |}.

(** [IIRFilter::IIRFilter]: [stateBufferSize = 4 * _numStages]. *)
Definition IIRFilter_new (coeffs : ptr) (numStages blockSize : Z) : M heap IIRFilter :=
  let stateBufferSize := (4 * numStages)%Z in
  state <- heap_new stateBufferSize ;;
  ret {| _coeffs := coeffs; _state := state;
         _numStages := numStages; _blockSize := blockSize;
         _iirInstance := arm_biquad_cascade_df1_init_f32 numStages coeffs state |}.

(** Modelled from the spec: one sample through the cascade.  Section [i]
    owns the coefficients [{b0, b1, b2, a1, a2}] at [5i..5i+4] and the state
    slice [{x1, x2, y1, y2}] at [4i..4i+3]; it computes
    [y = b0*x + b1*x1 + b2*x2 - a1*y1 - a2*y2], shifts its state, and hands
    [y] to the next section. *)
Fixpoint biquad_cascade (stages : nat) (c st : list float32_t) (x : float32_t)
  : list float32_t * float32_t :=
  match stages with
  | 0 => (st, x)
  | S n =>
      match c, st with
      | b0 :: b1 :: b2 :: a1 :: a2 :: c', x1 :: x2 :: y1 :: y2 :: st' =>
          let y := b0 ⊗ x ⊕ b1 ⊗ x1 ⊕ b2 ⊗ x2 ⊖ a1 ⊗ y1 ⊖ a2 ⊗ y2 in
          let r := biquad_cascade n c' st' y in
          (x :: x1 :: y :: y1 :: fst r, snd r)
      | _, _ => (st, x)
      end
  end.

Definition iir_sample (inst : arm_biquad_casd_df1_inst_f32) (x : float32_t)
  : M heap float32_t :=
  let stages := Z.to_nat (numStages inst) in
  c <- heap_read (pCoeffs inst) (5 * stages) ;;
  st <- heap_read (pState inst) (4 * stages) ;;
  let r := biquad_cascade stages c st x in
  _ <- heap_write (pState inst) (fst r) ;;
  ret (snd r).

Fixpoint iir_block (inst : arm_biquad_casd_df1_inst_f32) (pSrc : list float32_t)
  (i n : nat) : M heap (list float32_t) :=
  match n with
  | 0 => ret []
  | S n' =>
      x <- array_get pSrc i ;;
      y <- iir_sample inst x ;;
      ys <- iir_block inst pSrc (S i) n' ;;
      ret (y :: ys)
  end.

(** Modelled from the spec: [arm_biquad_cascade_df1_f32(S, pSrc, pDst,
    blockSize)] belongs to CMSIS-DSP and is not part of this repository;
    the block call is [blockSize] consecutive per-sample steps. *)
Definition arm_biquad_cascade_df1_f32 (inst : arm_biquad_casd_df1_inst_f32)
  (pSrc : list float32_t) (blockSize : nat) : M heap (list float32_t) :=
  iir_block inst pSrc 0 blockSize.

(** [IIRFilter::processSample]. *)
Definition processSample (input : float32_t) : M (world IIRFilter heap) float32_t :=
  self <- get_this ;;
  output <- on_mem (arm_biquad_cascade_df1_f32 (_iirInstance self) [input] 1) ;;
  ret (default f0 (output !! 0)).

(** [IIRFilter::processBuffer]; returns what it wrote to [outputArray]. *)
Definition processBuffer (inputArray : list float32_t) (length : nat)
  : M (world IIRFilter heap) (list float32_t) :=
  self <- get_this ;;
  on_mem (arm_biquad_cascade_df1_f32 (_iirInstance self) inputArray length).

(** The wrapper and the instance it embeds agree on the buffers and the
    section count. *)
Definition consistent (self : IIRFilter) : Prop :=
  pCoeffs (_iirInstance self) = _coeffs self /\
  pState (_iirInstance self) = _state self /\
  numStages (_iirInstance self) = _numStages self.

(** A filter in working order: [5 S] coefficients or more in the caller's
    array at [c], and the [4 S] state values [st] in the filter's own array
    at [s]. *)
Record ready (w : world IIRFilter heap) (c s : loc) (cs st : list float32_t)
  : Prop := {
  ready_consistent : consistent (this w);
  ready_coeffs : _coeffs (this w) = Some c;
  ready_state : _state (this w) = Some s;
  ready_distinct : c <> s;
  ready_cs : mem w !! c = Some cs;
  ready_st : mem w !! s = Some st;
  ready_cs_len : 5 * Z.to_nat (_numStages (this w)) <= length cs;
  ready_st_len : length st = 4 * Z.to_nat (_numStages (this w))
}.

End Defs.
End IIR.

(** ** LMS adaptive engine *)

Module LMS.
Section Defs.
Context {float32_t : Type} `{Arith float32_t}.
Local Abbreviation heap := (gmap loc (list float32_t)).

Record arm_lms_instance_f32 := {
  numTaps : Z;
  pState : ptr;
  pCoeffs : ptr;
  mu : float32_t
}.

Record LMSFilter := {
  _coeffs : ptr;
  _state : ptr;
  _numTaps : Z;          (* uint16_t *)
  _mu : float32_t;
  _blockSize : Z;        (* uint16_t *)
  _lmsInstance : arm_lms_instance_f32
}.

(** Modelled from the spec: [arm_lms_init_f32] belongs to CMSIS-DSP and is
    not part of this repository.  It records the tap count, the two
    pointers and the step size in the instance. *)
Definition arm_lms_init_f32 (numTaps : Z) (pCoeffs pState : ptr) (mu : float32_t)
  (blockSize : Z) : arm_lms_instance_f32 :=
  {| numTaps := numTaps; pState := pState; pCoeffs := pCoeffs; mu := mu |}.

(** [LMSFilter::LMSFilter]: [stateBufferSize = _numTaps]. *)
Definition LMSFilter_new (coeffs : ptr) (numTaps : Z) (mu : float32_t) (blockSize : Z)
  : M heap LMSFilter :=
  let stateBufferSize := numTaps in
  state <- heap_new stateBufferSize ;;
  ret {| _coeffs := coeffs; _state := state; _numTaps := numTaps;
         _mu := mu; _blockSize := blockSize;
         _lmsInstance := arm_lms_init_f32 numTaps coeffs state mu blockSize |}.

(** Modelled from the spec: step 3 of the LMS update on one weight,
    [w[k] <- w[k] + mu * e * history[n-k]]. *)
Definition adapt (m e : float32_t) (wk hk : float32_t) : float32_t :=
  wk ⊕ m ⊗ e ⊗ hk.

(** Modelled from the spec: the LMS kernel [arm_lms_f32] belongs to
    CMSIS-DSP and is not part of this repository.  Per sample, in the
    order the design lists the steps: (1) [y] from the current weights and
    the current delay line, (2) [e = d - y], (3) every weight moves by
    [mu * e * history[n-k]], (4) [x] is shifted into the delay line.  The
    delay line is the [T]-element state buffer, most recent sample first. *)
Definition lms_sample (inst : arm_lms_instance_f32) (x d : float32_t)
  : M heap (float32_t * float32_t) :=
  let T := Z.to_nat (numTaps inst) in
  w <- heap_read (pCoeffs inst) T ;;
  line <- heap_read (pState inst) T ;;
  let y := dot w line in
  let e := d ⊖ y in
  _ <- heap_write (pCoeffs inst) (zip_with (adapt (mu inst) e) w line) ;;
  _ <- heap_write (pState inst) (shift_in x line) ;;
  ret (y, e).

Fixpoint lms_block (inst : arm_lms_instance_f32) (pSrc pRef : list float32_t)
  (i n : nat) : M heap (list float32_t * list float32_t) :=
  match n with
  | 0 => ret ([], [])
  | S n' =>
      x <- array_get pSrc i ;;
      d <- array_get pRef i ;;
      ye <- lms_sample inst x d ;;
      r <- lms_block inst pSrc pRef (S i) n' ;;
      ret (fst ye :: fst r, snd ye :: snd r)
  end.

(** Modelled from the spec: [arm_lms_f32(S, pSrc, pRef, pOut, pErr,
    blockSize)]; the block call applies the per-sample update once per
    sample, in order.  The contents written to [pOut] and [pErr] are the
    pair returned. *)
Definition arm_lms_f32 (inst : arm_lms_instance_f32) (pSrc pRef : list float32_t)
  (blockSize : nat) : M heap (list float32_t * list float32_t) :=
  lms_block inst pSrc pRef 0 blockSize.

(** [LMSFilter::processSample]; returns [( *output, *error )]. *)
Definition processSample (input reference : float32_t)
  : M (world LMSFilter heap) (float32_t * float32_t) :=
  self <- get_this ;;
  r <- on_mem (arm_lms_f32 (_lmsInstance self) [input] [reference] 1) ;;
  ret (default f0 (fst r !! 0), default f0 (snd r !! 0)).

(** [LMSFilter::processBuffer]; returns what it wrote to [outputArray] and
    [errorArray]. *)
Definition processBuffer (inputArray referenceArray : list float32_t) (length : nat)
  : M (world LMSFilter heap) (list float32_t * list float32_t) :=
  self <- get_this ;;
  on_mem (arm_lms_f32 (_lmsInstance self) inputArray referenceArray length).

(** [LMSFilter::getMu]. *)
Definition getMu (self : LMSFilter) : float32_t := _mu self.

Definition with_mu (self : LMSFilter) (newMu : float32_t) : LMSFilter :=
  {| _coeffs := _coeffs self; _state := _state self; _numTaps := _numTaps self;
     _mu := newMu; _blockSize := _blockSize self; _lmsInstance := _lmsInstance self |}.

Definition with_instance_mu (self : LMSFilter) (newMu : float32_t) : LMSFilter :=
  {| _coeffs := _coeffs self; _state := _state self; _numTaps := _numTaps self;
     _mu := _mu self; _blockSize := _blockSize self;
     _lmsInstance :=
       {| numTaps := numTaps (_lmsInstance self); pState := pState (_lmsInstance self);
          pCoeffs := pCoeffs (_lmsInstance self); mu := newMu |} |}.

(** [LMSFilter::setMu]: [_mu = newMu; _lmsInstance.mu = newMu;]. *)
Definition setMu (newMu : float32_t) : M (world LMSFilter heap) unit :=
  self <- get_this ;;
  _ <- set_this (with_mu self newMu) ;;
  self <- get_this ;;
  set_this (with_instance_mu self newMu).

(** [for (i = 0; i < n; i++) dst[i] = src[i];] *)
Fixpoint copy_loop (dst src : ptr) (i n : nat) : M heap unit :=
  match n with
  | 0 => ret tt
  | S n' =>
      v <- heap_load src i ;;
      _ <- heap_store dst i v ;;
      copy_loop dst src (S i) n'
  end.

(** [for (i = 0; i < n; i++) dst[i] = 0.0f;] *)
Fixpoint zero_loop (dst : ptr) (i n : nat) : M heap unit :=
  match n with
  | 0 => ret tt
  | S n' =>
      _ <- heap_store dst i f0 ;;
      zero_loop dst (S i) n'
  end.

(** [LMSFilter::resetCoefficients]. *)
Definition resetCoefficients (newCoeffs : ptr) : M (world LMSFilter heap) unit :=
  self <- get_this ;;
  let n := Z.to_nat (_numTaps self) in
  _ <- on_mem (match newCoeffs with
               | Some _ => copy_loop (_coeffs self) newCoeffs 0 n
               | None => zero_loop (_coeffs self) 0 n
               end) ;;
  on_mem (zero_loop (_state self) 0 n).

(** Feed the pairs [(xs[i], ds[i])] through [processSample], one call each. *)
Fixpoint feed (xs ds : list float32_t)
  : M (world LMSFilter heap) (list float32_t * list float32_t) :=
  match xs, ds with
  | x :: xs', d :: ds' =>
      ye <- processSample x d ;;
      r <- feed xs' ds' ;;
      ret (fst ye :: fst r, snd ye :: snd r)
  | _, _ => ret ([], [])
  end.

(** The wrapper and the instance it embeds agree on the buffers, the tap
    count and the step size. *)
Definition consistent (self : LMSFilter) : Prop :=
  pCoeffs (_lmsInstance self) = _coeffs self /\
  pState (_lmsInstance self) = _state self /\
  numTaps (_lmsInstance self) = _numTaps self /\
  mu (_lmsInstance self) = _mu self.

(** A filter in working order: the weights [ws] live in the caller's array
    at [c] (at least [T] of them), the delay line [line] is the filter's
    own [T]-element array at [s]. *)
Record ready (w : world LMSFilter heap) (c s : loc) (ws line : list float32_t)
  : Prop := {
  ready_consistent : consistent (this w);
  ready_coeffs : _coeffs (this w) = Some c;
  ready_state : _state (this w) = Some s;
  ready_distinct : c <> s;
  ready_ws : mem w !! c = Some ws;
  ready_line : mem w !! s = Some line;
  ready_ws_len : Z.to_nat (_numTaps (this w)) <= length ws;
  ready_line_len : length line = Z.to_nat (_numTaps (this w))
}.

End Defs.
Arguments arm_lms_instance_f32 : clear implicits.
Arguments LMSFilter : clear implicits.
End LMS.

(** ** Concrete filters over the integers *)

Module Example.
Local Open Scope Z_scope.

(** A caller's heap: three FIR/LMS coefficients at address 1, two biquad
    sections' coefficients at address 3. *)
Definition caller_heap : gmap loc (list Z) :=
  <[3%positive := [1; 2; 3; 4; 5; 1; 1; 1; 1; 1]]> (<[1%positive := [3; 5; 7]]> ∅).

(** The heap after a filter allocated its state array [st] at address 4,
    the first free one. *)
Definition heap_with (st : list Z) : gmap loc (list Z) :=
  <[4%positive := st]> caller_heap.

Definition fir : FIR.FIRFilter :=
  {| FIR._coeffs := Some 1%positive; FIR._state := Some 4%positive;
     FIR._numTaps := 3; FIR._blockSize := 2;
     FIR._firInstance :=
       {| FIR.numTaps := 3; FIR.pState := Some 4%positive;
          FIR.pCoeffs := Some 1%positive |};
     FIR._sampleIndex := 0 |}.

Definition iir : IIR.IIRFilter :=
  {| IIR._coeffs := Some 3%positive; IIR._state := Some 4%positive;
     IIR._numStages := 2; IIR._blockSize := 1;
     IIR._iirInstance :=
       {| IIR.numStages := 2; IIR.pState := Some 4%positive;
          IIR.pCoeffs := Some 3%positive |} |}.

(** An LMS filter with three taps and step size 2. *)
Definition lms : LMS.LMSFilter Z :=
  {| LMS._coeffs := Some 1%positive; LMS._state := Some 4%positive;
     LMS._numTaps := 3; LMS._mu := 2; LMS._blockSize := 1;
     LMS._lmsInstance :=
       {| LMS.numTaps := 3; LMS.pState := Some 4%positive;
          LMS.pCoeffs := Some 1%positive; LMS.mu := 2 |} |}.

End Example.

(** ** The FIR wrapper, whatever the kernel does *)

Module FIRWrapper.
Section Defs.
Context {float32_t : Type} `{Arith float32_t}.
Local Abbreviation heap := (gmap loc (list float32_t)).

(** [arm_fir_f32(S, pSrc, pDst, blockSize)] as [FIRFilter] sees it: some
    function of the instance, the source samples and their number, acting
    on the heap and yielding what it wrote to [pDst].  Nothing is assumed
    of it. *)
Variable arm_fir_f32 :
  FIR.arm_fir_instance_f32 -> list float32_t -> nat -> M heap (list float32_t).

(** [FIRFilter::processSample], over that kernel. *)
Definition processSample (input : float32_t) : M (world FIR.FIRFilter heap) float32_t :=
  self <- get_this ;;
  output <- on_mem (arm_fir_f32 (FIR._firInstance self) [input] 1) ;;
  ret (default f0 (output !! 0)).

(** [FIRFilter::processBuffer], over that kernel. *)
Definition processBuffer (inputArray : list float32_t) (length : nat)
  : M (world FIR.FIRFilter heap) (list float32_t) :=
  self <- get_this ;;
  on_mem (arm_fir_f32 (FIR._firInstance self) inputArray length).

(** What the design asks of a configuration error: construction fails, or
    the instance is kept from being usable at all, that is, the constructor
    does not return, or no [processSample] call on the object it returns
    does. *)
Definition refused (coeffs : ptr) (numTaps blockSize : Z) (h : heap) : Prop :=
  match FIR.FIRFilter_new coeffs numTaps blockSize h with
  | Fault _ => True
  | Ok (f, h') => forall x, exists e, processSample x (World f h') = Fault e
  end.

End Defs.
End FIRWrapper.

(** ** Destructors *)

Module Lifetime.
Section Defs.
Context {float32_t : Type} `{Arith float32_t}.
Local Abbreviation heap := (gmap loc (list float32_t)).

(** [delete[] p]: nothing for [nullptr], the array is released otherwise;
    releasing what is not allocated (any more) is undefined. *)
Definition heap_delete (p : ptr) : M heap unit :=
  fun h => match p with
           | None => Ok (tt, h)
           | Some l =>
               match h !! l with
               | None => Fault DanglingPointer
               | Some _ => Ok (tt, delete l h)
               end
           end.

(** [FIRFilter::~FIRFilter]: [delete[] _state;]. *)
Definition FIRFilter_delete : M (world FIR.FIRFilter heap) unit :=
  self <- get_this ;;
  on_mem (heap_delete (FIR._state self)).

(** [IIRFilter::~IIRFilter]: [delete[] _state;]. *)
Definition IIRFilter_delete : M (world IIR.IIRFilter heap) unit :=
  self <- get_this ;;
  on_mem (heap_delete (IIR._state self)).

(** [LMSFilter::~LMSFilter]: [delete[] _state;]; the coefficients are the
    caller's and stay. *)
Definition LMSFilter_delete : M (world (LMS.LMSFilter float32_t) heap) unit :=
  self <- get_this ;;
  on_mem (heap_delete (LMS._state self)).

(** The scope of a filter object, [{ FIRFilter f(coeffs, numTaps,
    blockSize); body }]: the constructor runs, then [body] on the object,
    then the destructor.  The heap before and after is the caller's. *)
Definition with_FIRFilter {A} (coeffs : ptr) (numTaps blockSize : Z)
  (body : M (world FIR.FIRFilter heap) A) : M heap A :=
  fun h => match FIR.FIRFilter_new coeffs numTaps blockSize h with
           | Fault e => Fault e
           | Ok (f, h1) =>
               match (a <- body ;; _ <- FIRFilter_delete ;; ret a) (World f h1) with
               | Fault e => Fault e
               | Ok (a, w) => Ok (a, mem w)
               end
           end.

Definition with_IIRFilter {A} (coeffs : ptr) (numStages blockSize : Z)
  (body : M (world IIR.IIRFilter heap) A) : M heap A :=
  fun h => match IIR.IIRFilter_new coeffs numStages blockSize h with
           | Fault e => Fault e
           | Ok (f, h1) =>
               match (a <- body ;; _ <- IIRFilter_delete ;; ret a) (World f h1) with
               | Fault e => Fault e
               | Ok (a, w) => Ok (a, mem w)
               end
           end.

Definition with_LMSFilter {A} (coeffs : ptr) (numTaps : Z) (mu : float32_t)
  (blockSize : Z) (body : M (world (LMS.LMSFilter float32_t) heap) A) : M heap A :=
  fun h => match LMS.LMSFilter_new coeffs numTaps mu blockSize h with
           | Fault e => Fault e
           | Ok (f, h1) =>
               match (a <- body ;; _ <- LMSFilter_delete ;; ret a) (World f h1) with
               | Fault e => Fault e
               | Ok (a, w) => Ok (a, mem w)
               end
           end.

End Defs.
End Lifetime.

(** ** Sequences of calls on one LMS filter *)

Module Session.
Section Defs.
Context {float32_t : Type} `{Arith float32_t}.
Local Abbreviation heap := (gmap loc (list float32_t)).

(** The non-const methods of [LMSFilter], with their arguments. *)
Inductive call :=
| ProcessSample (input reference : float32_t)
| ProcessBuffer (inputArray referenceArray : list float32_t) (length : nat)
| SetMu (newMu : float32_t)
| ResetCoefficients (newCoeffs : ptr).

Definition do_call (c : call) : M (world (LMS.LMSFilter float32_t) heap) unit :=
  match c with
  | ProcessSample x d => _ <- LMS.processSample x d ;; ret tt
  | ProcessBuffer xs ds n => _ <- LMS.processBuffer xs ds n ;; ret tt
  | SetMu v => LMS.setMu v
  | ResetCoefficients p => LMS.resetCoefficients p
  end.

(** The argument of the last [setMu] among [cs], [m] if there is none. *)
Fixpoint last_mu (m : float32_t) (cs : list call) : float32_t :=
  match cs with
  | [] => m
  | SetMu v :: cs' => last_mu v cs'
  | _ :: cs' => last_mu m cs'
  end.

End Defs.
End Session.

(** ** The example sketches *)

Module Sketch.
Section Defs.
Context {float32_t : Type} `{Arith float32_t}.
Local Abbreviation heap := (gmap loc (list float32_t)).

(** FIR_Example.cpp, [setup()]: the loop that filters [inputSignal] block
    by block,
    [while (samplesProcessed < maxSamplesNum) {
       currentBlockSize = min(BLOCK_SIZE, maxSamplesNum - samplesProcessed);
       ecgFilter->processBuffer(&inputSignal[samplesProcessed],
                                &filteredSignal[samplesProcessed],
                                currentBlockSize);
       samplesProcessed += currentBlockSize; }].
    [BLOCK_SIZE] and [maxSamplesNum] are parameters; the [uint32_t]
    arithmetic does not wrap, the difference being taken under the loop
    condition.  The blocks written to [filteredSignal] are returned in
    order; [None] when [fuel] iterations did not end the loop. *)
Fixpoint process_in_blocks (fuel BLOCK_SIZE maxSamplesNum : nat)
  (inputSignal : list float32_t) (samplesProcessed : nat)
  : M (world FIR.FIRFilter heap) (option (list (list float32_t))) :=
  if decide (samplesProcessed < maxSamplesNum) then
    match fuel with
    | 0 => ret None
    | S fuel' =>
        let currentBlockSize := min BLOCK_SIZE (maxSamplesNum - samplesProcessed) in
        out <- FIR.processBuffer (drop samplesProcessed inputSignal) currentBlockSize ;;
        r <- process_in_blocks fuel' BLOCK_SIZE maxSamplesNum inputSignal
               (samplesProcessed + currentBlockSize) ;;
        ret (cons out <$> r)
    end
  else ret (Some []).

(** FIR_Example.ino, [setup()]: the same loop with a [uint16_t] counter,
    [for (uint16_t i = 0; i < testSignalLength; i += BLOCK_SIZE) {
       uint16_t currentBlock = min(BLOCK_SIZE, testSignalLength - i);
       myFilter->processBuffer(&inputBuffer[i], &outputSignal[i],
                               currentBlock); }].
    The comparison, the difference and [min] are computed in [int]; what is
    stored in [i] and in [currentBlock] wraps at [2^16]. *)
Fixpoint process_in_blocks_u16 (fuel : nat) (BLOCK_SIZE testSignalLength : Z)
  (inputBuffer : list float32_t) (i : Z)
  : M (world FIR.FIRFilter heap) (option (list (list float32_t))) :=
  if decide (i < testSignalLength)%Z then
    match fuel with
    | 0 => ret None
    | S fuel' =>
        let currentBlock := (Z.min BLOCK_SIZE (testSignalLength - i) mod 2 ^ 16)%Z in
        out <- FIR.processBuffer (drop (Z.to_nat i) inputBuffer)
                 (Z.to_nat currentBlock) ;;
        r <- process_in_blocks_u16 fuel' BLOCK_SIZE testSignalLength inputBuffer
               ((i + BLOCK_SIZE) mod 2 ^ 16)%Z ;;
        ret (cons out <$> r)
    end
  else ret (Some []).

(** [a[i]] for an [int] index. *)
Definition array_at {St} (a : list float32_t) (i : Z) : M St float32_t :=
  if decide (i < 0)%Z then raise OutOfBounds else array_get a (Z.to_nat i).

(** FIR_Example.cpp, [loop()].  [elapsed] is the outcome of
    [millis() - lastTime > 1]; [sampleIndex] is the [static int] the
    function keeps, incremented only below [maxSamplesNum], where it does
    not overflow.  Returns the new [sampleIndex] and the filtered sample, if
    one was computed. *)
Definition fir_loop (maxSamplesNum : Z) (inputSignal : list float32_t)
  (elapsed : bool) (sampleIndex : Z)
  : M (world FIR.FIRFilter heap) (Z * option float32_t) :=
  if elapsed then
    if decide (sampleIndex < maxSamplesNum)%Z then
      currentSample <- array_at inputSignal sampleIndex ;;
      filteredSample <- FIR.processSample currentSample ;;
      let sampleIndex' := (sampleIndex + 1)%Z in
      ret (if decide (sampleIndex' >= maxSamplesNum)%Z then 0%Z else sampleIndex',
           Some filteredSample)
    else ret (sampleIndex, None)
  else ret (sampleIndex, None).

(** One call of [loop()] for each element of [elapsed]; the filtered
    samples are collected in order. *)
Fixpoint fir_loops (maxSamplesNum : Z) (inputSignal : list float32_t)
  (elapsed : list bool) (sampleIndex : Z)
  : M (world FIR.FIRFilter heap) (Z * list float32_t) :=
  match elapsed with
  | [] => ret (sampleIndex, [])
  | e :: es =>
      r <- fir_loop maxSamplesNum inputSignal e sampleIndex ;;
      rs <- fir_loops maxSamplesNum inputSignal es (fst r) ;;
      ret (fst rs, option_list (snd r) ++ snd rs)
  end.

(** The globals of LMS_Example.cpp that [loop()] carries from one
    iteration to the next (both [uint32_t]). *)
Record globals := {
  sampleCounter : Z;
  ecgSampleIndex : Z
}.

(** What LMS_Example.cpp computes in floating point from the time
    [sampleCounter / SAMPLING_FREQ] is taken as given: the interference
    added to the clean sample, the reference, the test [currentMu > 0.01f]
    and the two step sizes [0.005f] and [0.03f].  [maxSamplesNum] is the
    table length of Waveforms.h, [ecgCleanSignal] the table the sketch
    fills in [setup()]. *)
Variable maxSamplesNum : Z.
Variable ecgCleanSignal : list float32_t.
Variables powerlineInterference interferenceReference : Z -> float32_t.
Variable above_threshold : float32_t -> bool.
Variables mu_slow mu_fast : float32_t.

(** LMS_Example.cpp, [loop()], without its serial output and its delay:
    one table sample, contaminated, through the filter; the counters
    advanced; and every [5 * (int)SAMPLING_FREQ = 5000] samples the step
    size switched. *)
Definition loop (g : globals) : M (world (LMS.LMSFilter float32_t) heap) globals :=
  cleanECG <- array_get ecgCleanSignal (Z.to_nat (ecgSampleIndex g)) ;;
  let contaminatedECG := cleanECG ⊕ powerlineInterference (sampleCounter g) in
  _ <- LMS.processSample contaminatedECG (interferenceReference (sampleCounter g)) ;;
  let sampleCounter' := ((sampleCounter g + 1) mod 2 ^ 32)%Z in
  let ecgSampleIndex' := ((ecgSampleIndex g + 1) mod 2 ^ 32 mod maxSamplesNum)%Z in
  _ <- (if ((sampleCounter' mod 5000 =? 0) && (0 <? sampleCounter'))%Z
        then self <- get_this ;;
             let currentMu := LMS.getMu self in
             let newMu := if above_threshold currentMu then mu_slow else mu_fast in
             LMS.setMu newMu
        else ret tt) ;;
  ret {| sampleCounter := sampleCounter'; ecgSampleIndex := ecgSampleIndex' |}.

(** [n] iterations of [loop()]. *)
Fixpoint loops (n : nat) (g : globals) : M (world (LMS.LMSFilter float32_t) heap) globals :=
  match n with
  | 0 => ret g
  | S n' => g' <- loop g ;; loops n' g'
  end.

End Defs.
End Sketch.

(** ** Vocabulary of the statements *)

(** A relation between the state before and after a computation that
    returns. *)
Definition preserves {St A} (P : St -> St -> Prop) (m : M St A) : Prop :=
  forall s a s', m s = Ok (a, s') -> P s s'.

Section Vocabulary.
Context {float32_t : Type} `{Arith float32_t}.
Local Abbreviation heap := (gmap loc (list float32_t)).

(** Left-to-right sum [f 0 + f 1 + ... + f (n-1)], starting from zero. *)
Fixpoint sum_upto (n : nat) (f : nat -> float32_t) : float32_t :=
  match n with
  | 0 => f0
  | S n' => sum_upto n' f ⊕ f n'
  end.

(** The outputs of an FIR filter with coefficients [cs] whose delay line
    holds [line], fed the samples [xs]. *)
Fixpoint fir_outputs (cs line xs : list float32_t) : list float32_t :=
  match xs with
  | [] => []
  | x :: xs' => dot cs (shift_in x line) :: fir_outputs cs (shift_in x line) xs'
  end.

(** The delay line after the samples [xs] went through it. *)
Definition fir_line (line xs : list float32_t) : list float32_t :=
  fold_left (fun l x => shift_in x l) xs line.

(** The first [k] samples of the signal [xs] played over and over. *)
Definition replay (xs : list float32_t) (k : nat) : list float32_t :=
  (fun j => default f0 (xs !! (j mod length xs))) <$> seq 0 k.

(** What section [j] of a cascade computes from its input [u], read off the
    coefficient array [cs] and the state array [st] by index. *)
Definition section_output (cs st : list float32_t) (j : nat) (u : float32_t)
  : float32_t :=
  nth (5 * j) cs f0 ⊗ u
  ⊕ nth (5 * j + 1) cs f0 ⊗ nth (4 * j) st f0
  ⊕ nth (5 * j + 2) cs f0 ⊗ nth (4 * j + 1) st f0
  ⊖ nth (5 * j + 3) cs f0 ⊗ nth (4 * j + 2) st f0
  ⊖ nth (5 * j + 4) cs f0 ⊗ nth (4 * j + 3) st f0.

(** The input of section [i]: section 0 is given the sample [x], section
    [i + 1] the output of section [i]. *)
Fixpoint section_input (cs st : list float32_t) (x : float32_t) (i : nat)
  : float32_t :=
  match i with
  | 0 => x
  | S j => section_output cs st j (section_input cs st x j)
  end.

(** Every array keeps its length, and no array appears or disappears. *)
Definition same_shape (h h' : heap) : Prop :=
  forall l, length <$> (h' !! l) = length <$> (h !! l).

(** Only the first [T] elements of the arrays at [c] and [s] may differ
    between [h] and [h']. *)
Definition touches_only (c s : ptr) (T : nat) (h h' : heap) : Prop :=
  forall l,
    match h !! l with
    | None => h' !! l = None
    | Some vs =>
        exists vs', h' !! l = Some vs' /\ length vs' = length vs /\
                    drop T vs' = drop T vs /\
                    (Some l <> c -> Some l <> s -> vs' = vs)
    end.

(** A method leaves the object's members alone and changes the heap within
    [P]. *)
Definition members_kept {O} (P : heap -> heap -> Prop) (w w' : world O heap) : Prop :=
  this w' = this w /\ P (mem w) (mem w').

End Vocabulary.

(** * Properties *)

(** ** The monad and the heap primitives *)

Section MonadFacts.
Context {St : Type}.

Lemma bind_Ok {A B} (m : M St A) (k : A -> M St B) s a s' :
  m s = Ok (a, s') -> bind m k s = k a s'.
Proof. unfold bind. intros ->. reflexivity. Qed.

Lemma bind_inv {A B} (m : M St A) (k : A -> M St B) s b s2 :
  bind m k s = Ok (b, s2) ->
  exists a s1, m s = Ok (a, s1) /\ k a s1 = Ok (b, s2).
Proof.
  unfold bind. destruct (m s) as [[a s1]|e]; [|discriminate].
  intros Hk. exists a, s1. split; [reflexivity|exact Hk].
Qed.

Lemma preserves_ret {A} (P : St -> St -> Prop) (a : A) :
  (forall s, P s s) -> preserves P (ret a).
Proof. intros Hrefl s a' s' Heq. inversion Heq; subst. apply Hrefl. Qed.

Lemma preserves_raise {A} (P : St -> St -> Prop) e :
  preserves P (@raise St A e).
Proof. intros s a s' Heq. discriminate. Qed.

Lemma preserves_bind {A B} (P : St -> St -> Prop) (m : M St A) (k : A -> M St B) :
  (forall s1 s2 s3, P s1 s2 -> P s2 s3 -> P s1 s3) ->
  preserves P m -> (forall a, preserves P (k a)) -> preserves P (bind m k).
Proof.
  intros Htrans Hm Hk s b s2 Heq.
  apply bind_inv in Heq as (a & s1 & Hm1 & Hk1).
  eapply Htrans; [eapply Hm, Hm1 | eapply Hk, Hk1].
Qed.

End MonadFacts.

Section HeapFacts.
Context {float32_t : Type} `{Arith float32_t}.
Local Abbreviation heap := (gmap loc (list float32_t)).
Implicit Types (h : heap) (l : loc) (vs ws : list float32_t).

Lemma heap_load_Ok h l vs i v :
  h !! l = Some vs -> vs !! i = Some v -> heap_load (Some l) i h = Ok (v, h).
Proof. unfold heap_load. intros -> ->. reflexivity. Qed.

Lemma heap_store_Ok h l vs i v :
  h !! l = Some vs -> i < length vs ->
  heap_store (Some l) i v h = Ok (tt, <[l := <[i := v]> vs]> h).
Proof. unfold heap_store. intros -> Hi. rewrite decide_True by exact Hi. reflexivity. Qed.

Lemma heap_read_Ok h l vs n :
  h !! l = Some vs -> n <= length vs -> heap_read (Some l) n h = Ok (take n vs, h).
Proof. unfold heap_read. intros -> Hn. rewrite decide_True by exact Hn. reflexivity. Qed.

Lemma heap_write_Ok h l vs ws :
  h !! l = Some vs -> length ws <= length vs ->
  heap_write (Some l) ws h = Ok (tt, <[l := ws ++ drop (length ws) vs]> h).
Proof. unfold heap_write. intros -> Hn. rewrite decide_True by exact Hn. reflexivity. Qed.

Lemma heap_new_Ok h n :
  (0 <= n)%Z ->
  heap_new n h = Ok (Some (fresh (dom h)), <[fresh (dom h) := replicate (Z.to_nat n) f0]> h).
Proof. unfold heap_new. intros Hn. rewrite decide_False by lia. reflexivity. Qed.

Lemma heap_new_fresh h : h !! fresh (dom h) = None.
Proof. apply not_elem_of_dom, is_fresh. Qed.

Lemma length_shift_in x vs : length (shift_in x vs) = length vs.
Proof. unfold shift_in. rewrite length_take. simpl. lia. Qed.

Lemma shift_in_lookup_0 x vs : 0 < length vs -> shift_in x vs !! 0 = Some x.
Proof. unfold shift_in. destruct vs; simpl; [lia | reflexivity]. Qed.

Lemma shift_in_lookup_S x vs k :
  S k < length vs -> shift_in x vs !! S k = vs !! k.
Proof.
  unfold shift_in. intros Hk. rewrite lookup_take_lt by exact Hk. reflexivity.
Qed.

Lemma fold_dot_snoc acc (ps : list (float32_t * float32_t)) p :
  fold_left (fun a q => a ⊕ fst q ⊗ snd q) (ps ++ [p]) acc
  = fold_left (fun a q => a ⊕ fst q ⊗ snd q) ps acc ⊕ fst p ⊗ snd p.
Proof. rewrite fold_left_app. reflexivity. Qed.

(** The accumulation loop computes the sum of the products, term by term
    in index order. *)
Lemma dot_sum_upto ws vs n :
  length ws = n -> length vs = n ->
  dot ws vs = sum_upto n (fun k => nth k ws f0 ⊗ nth k vs f0).
Proof.
  revert ws vs. induction n as [|n IH]; intros ws vs Hw Hv.
  - destruct ws; [|discriminate]. reflexivity.
  - destruct (decide (ws = [])) as [->|Hne]; [discriminate|].
    destruct (decide (vs = [])) as [->|Hne']; [discriminate|].
    destruct (exists_last Hne) as (ws' & a & ->).
    destruct (exists_last Hne') as (vs' & b & ->).
    rewrite length_app in Hw, Hv. simpl in Hw, Hv.
    assert (length ws' = n) as Hw' by lia.
    assert (length vs' = n) as Hv' by lia.
    unfold dot. rewrite zip_with_app by congruence.
    simpl zip_with. rewrite fold_dot_snoc. simpl.
    fold (dot ws' vs'). rewrite (IH ws' vs' Hw' Hv').
    rewrite !app_nth2 by lia. rewrite Hw', Hv', Nat.sub_diag. simpl.
    f_equal. clear IH.
    assert (forall m, m <= n ->
      sum_upto m (fun k => nth k ws' f0 ⊗ nth k vs' f0)
      = sum_upto m (fun k => nth k (ws' ++ [a]) f0 ⊗ nth k (vs' ++ [b]) f0)) as Hext.
    { induction m as [|m IHm]; intros Hm; [reflexivity|].
      simpl. rewrite IHm by lia. rewrite !app_nth1 by lia. reflexivity. }
    apply Hext. lia.
Qed.

End HeapFacts.

(** ** One call per sample against one call per block *)

Section FIRFacts.
Context {float32_t : Type} `{Arith float32_t}.
Local Abbreviation heap := (gmap loc (list float32_t)).
Implicit Types (h : heap) (w : world FIR.FIRFilter heap).

Lemma fir_block_tail inst x xs n : forall i h,
  FIR.fir_block inst (x :: xs) (S i) n h = FIR.fir_block inst xs i n h.
Proof.
  induction n as [|n IH]; intros i h; [reflexivity|].
  simpl. unfold bind, array_get. simpl.
  destruct (xs !! i) as [v|]; [|reflexivity].
  simpl. destruct (FIR.fir_sample inst v h) as [[y h1]|e]; [|reflexivity].
  rewrite IH. reflexivity.
Qed.

Lemma fir_processSample_unfold x w :
  FIR.processSample x w =
  match FIR.fir_sample (FIR._firInstance (this w)) x (mem w) with
  | Ok (y, h') => Ok (y, World (this w) h')
  | Fault e => Fault e
  end.
Proof.
  unfold FIR.processSample, FIR.arm_fir_f32, bind, get_this, on_mem. simpl.
  unfold bind, array_get. simpl.
  destruct (FIR.fir_sample _ x (mem w)) as [[y h1]|e]; reflexivity.
Qed.

Lemma fir_processBuffer_unfold xs n w :
  FIR.processBuffer xs n w =
  match FIR.fir_block (FIR._firInstance (this w)) xs 0 n (mem w) with
  | Ok (ys, h') => Ok (ys, World (this w) h')
  | Fault e => Fault e
  end.
Proof. reflexivity. Qed.

Lemma fir_each_block xs : forall w,
  each FIR.processSample xs w = FIR.processBuffer xs (length xs) w.
Proof.
  induction xs as [|x xs IH]; intros w; [destruct w; reflexivity|].
  rewrite fir_processBuffer_unfold. simpl.
  unfold bind at 1. rewrite fir_processSample_unfold.
  unfold bind at 2. unfold array_get. simpl. unfold bind at 2.
  destruct (FIR.fir_sample _ x (mem w)) as [[y h1]|e]; [|reflexivity].
  unfold bind. rewrite IH, fir_processBuffer_unfold, fir_block_tail. simpl.
  destruct (FIR.fir_block _ xs 0 (length xs) h1) as [[ys h2]|e]; reflexivity.
Qed.

End FIRFacts.

Section IIRFacts.
Context {float32_t : Type} `{Arith float32_t}.
Local Abbreviation heap := (gmap loc (list float32_t)).
Implicit Types (h : heap) (w : world IIR.IIRFilter heap).

Lemma iir_block_tail inst x xs n : forall i h,
  IIR.iir_block inst (x :: xs) (S i) n h = IIR.iir_block inst xs i n h.
Proof.
  induction n as [|n IH]; intros i h; [reflexivity|].
  simpl. unfold bind, array_get. simpl.
  destruct (xs !! i) as [v|]; [|reflexivity].
  simpl. destruct (IIR.iir_sample inst v h) as [[y h1]|e]; [|reflexivity].
  rewrite IH. reflexivity.
Qed.

Lemma iir_processSample_unfold x w :
  IIR.processSample x w =
  match IIR.iir_sample (IIR._iirInstance (this w)) x (mem w) with
  | Ok (y, h') => Ok (y, World (this w) h')
  | Fault e => Fault e
  end.
Proof.
  unfold IIR.processSample, IIR.arm_biquad_cascade_df1_f32, bind, get_this, on_mem.
  simpl. unfold bind, array_get. simpl.
  destruct (IIR.iir_sample _ x (mem w)) as [[y h1]|e]; reflexivity.
Qed.

Lemma iir_processBuffer_unfold xs n w :
  IIR.processBuffer xs n w =
  match IIR.iir_block (IIR._iirInstance (this w)) xs 0 n (mem w) with
  | Ok (ys, h') => Ok (ys, World (this w) h')
  | Fault e => Fault e
  end.
Proof. reflexivity. Qed.

Lemma iir_each_block xs : forall w,
  each IIR.processSample xs w = IIR.processBuffer xs (length xs) w.
Proof.
  induction xs as [|x xs IH]; intros w; [destruct w; reflexivity|].
  rewrite iir_processBuffer_unfold. simpl.
  unfold bind at 1. rewrite iir_processSample_unfold.
  unfold bind at 2. unfold array_get. simpl. unfold bind at 2.
  destruct (IIR.iir_sample _ x (mem w)) as [[y h1]|e]; [|reflexivity].
  unfold bind. rewrite IH, iir_processBuffer_unfold, iir_block_tail. simpl.
  destruct (IIR.iir_block _ xs 0 (length xs) h1) as [[ys h2]|e]; reflexivity.
Qed.

End IIRFacts.

Section LMSFacts.
Context {float32_t : Type} `{Arith float32_t}.
Local Abbreviation heap := (gmap loc (list float32_t)).
Implicit Types (h : heap) (w : world (LMS.LMSFilter float32_t) heap).

Lemma lms_block_tail inst x xs d ds n : forall i h,
  LMS.lms_block inst (x :: xs) (d :: ds) (S i) n h = LMS.lms_block inst xs ds i n h.
Proof.
  induction n as [|n IH]; intros i h; [reflexivity|].
  simpl. unfold bind, array_get. simpl.
  destruct (xs !! i) as [v|]; [|reflexivity]. simpl.
  destruct (ds !! i) as [r|]; [|reflexivity]. simpl.
  destruct (LMS.lms_sample inst v r h) as [[ye h1]|e]; [|reflexivity].
  rewrite IH. reflexivity.
Qed.

Lemma lms_processSample_unfold x d w :
  LMS.processSample x d w =
  match LMS.lms_sample (LMS._lmsInstance (this w)) x d (mem w) with
  | Ok (ye, h') => Ok (ye, World (this w) h')
  | Fault e => Fault e
  end.
Proof.
  unfold LMS.processSample, LMS.arm_lms_f32, bind, get_this, on_mem. simpl.
  unfold bind, array_get. simpl.
  destruct (LMS.lms_sample _ x d (mem w)) as [[[y e] h1]|e]; reflexivity.
Qed.

Lemma lms_processBuffer_unfold xs ds n w :
  LMS.processBuffer xs ds n w =
  match LMS.lms_block (LMS._lmsInstance (this w)) xs ds 0 n (mem w) with
  | Ok (r, h') => Ok (r, World (this w) h')
  | Fault e => Fault e
  end.
Proof. reflexivity. Qed.

(** The block call on [x :: xs], [d :: ds] is the single-sample call on
    [(x, d)] followed by the block call on the rest, run on the weights and
    delay line the first call left behind. *)
Lemma lms_processBuffer_cons x xs d ds n w :
  LMS.processBuffer (x :: xs) (d :: ds) (S n) w =
  (ye <- LMS.processSample x d ;;
   r <- LMS.processBuffer xs ds n ;;
   ret (fst ye :: fst r, snd ye :: snd r)) w.
Proof.
  rewrite lms_processBuffer_unfold.
  change (LMS.lms_block ?i (x :: xs) (d :: ds) 0 (S n))
    with (x0 <- array_get (x :: xs) 0 ;;
          d0 <- array_get (d :: ds) 0 ;;
          ye <- LMS.lms_sample i x0 d0 ;;
          r <- LMS.lms_block i (x :: xs) (d :: ds) 1 n ;;
          ret (fst ye :: fst r, snd ye :: snd r)).
  unfold bind, array_get.
  change ((x :: xs) !! 0) with (Some x). change ((d :: ds) !! 0) with (Some d).
  unfold ret at 1 2. rewrite lms_processSample_unfold.
  destruct (LMS.lms_sample _ x d (mem w)) as [[ye h1]|e]; [|reflexivity].
  rewrite lms_processBuffer_unfold, lms_block_tail. simpl.
  destruct (LMS.lms_block _ xs ds 0 n h1) as [[r h2]|e]; reflexivity.
Qed.

Lemma lms_feed_block xs : forall ds w,
  length xs <= length ds ->
  LMS.feed xs ds w = LMS.processBuffer xs ds (length xs) w.
Proof.
  induction xs as [|x xs IH]; intros ds w Hlen.
  - destruct ds, w; reflexivity.
  - destruct ds as [|d ds]; [simpl in Hlen; lia|].
    simpl length. rewrite lms_processBuffer_cons.
    simpl. unfold bind at 1 3.
    destruct (LMS.processSample x d w) as [[ye w1]|e]; [|reflexivity].
    unfold bind. rewrite IH by (simpl in Hlen; lia). reflexivity.
Qed.

End LMSFacts.

(** ** The LMS update *)

Section LMSStep.
Context {float32_t : Type} `{Arith float32_t}.
Local Abbreviation heap := (gmap loc (list float32_t)).
Implicit Types (h : heap) (w : world (LMS.LMSFilter float32_t) heap).
Implicit Types (ws line : list float32_t).

Lemma lms_sample_spec inst c s ws line x d h :
  LMS.pCoeffs inst = Some c -> LMS.pState inst = Some s -> c <> s ->
  h !! c = Some ws -> h !! s = Some line ->
  Z.to_nat (LMS.numTaps inst) <= length ws ->
  length line = Z.to_nat (LMS.numTaps inst) ->
  let T := Z.to_nat (LMS.numTaps inst) in
  let y := dot (take T ws) line in
  let e := d ⊖ y in
  LMS.lms_sample inst x d h =
  Ok ((y, e),
      <[s := shift_in x line]>
        (<[c := zip_with (LMS.adapt (LMS.mu inst) e) (take T ws) line ++ drop T ws]> h)).
Proof.
  unfold LMS.lms_sample.
  generalize (Z.to_nat (LMS.numTaps inst)). intros T Hc Hs Hcs Hws Hline Hlw Hll.
  cbv zeta. rewrite Hc, Hs.
  set (y := dot (take T ws) line). set (e := d ⊖ y).
  rewrite (bind_Ok _ _ _ _ _ (heap_read_Ok h c ws T Hws Hlw)).
  rewrite (bind_Ok _ _ _ _ _ (heap_read_Ok h s line T Hline ltac:(lia))).
  rewrite (firstn_all2 line) by lia. fold y e.
  assert (length (zip_with (LMS.adapt (LMS.mu inst) e) (take T ws) line) = T) as Hzl.
  { rewrite length_zip_with, length_take. lia. }
  erewrite bind_Ok; [|apply (heap_write_Ok h c ws); [exact Hws | lia]].
  rewrite Hzl.
  erewrite bind_Ok; [|eapply heap_write_Ok;
    [rewrite lookup_insert_ne by exact Hcs; exact Hline | rewrite length_shift_in; lia]].
  rewrite length_shift_in, drop_all, app_nil_r. reflexivity.
Qed.

(** What one [processSample] call does to a filter in working order. *)
Lemma lms_processSample_ready w c s ws line x d :
  LMS.ready w c s ws line ->
  let f := this w in
  let T := Z.to_nat (LMS._numTaps f) in
  let y := dot (take T ws) line in
  let e := d ⊖ y in
  let ws' := zip_with (LMS.adapt (LMS._mu f) e) (take T ws) line ++ drop T ws in
  let w' := World f (<[s := shift_in x line]> (<[c := ws']> (mem w))) in
  LMS.processSample x d w = Ok ((y, e), w') /\ LMS.ready w' c s ws' (shift_in x line).
Proof.
  intros [(Hpc & Hps & Hnt & Hmu) Hc Hs Hcs Hws Hline Hlw Hll] f T y e ws' w'.
  split.
  - rewrite lms_processSample_unfold.
    rewrite <- Hpc in Hc. rewrite <- Hps in Hs.
    pose proof (lms_sample_spec _ c s ws line x d (mem w) Hc Hs Hcs Hws Hline) as Hk.
    rewrite Hnt, Hmu in Hk. rewrite (Hk Hlw Hll). reflexivity.
  - subst w'. constructor; simpl; try assumption.
    + repeat split; assumption.
    + rewrite lookup_insert_ne by congruence. apply lookup_insert_eq.
    + apply lookup_insert_eq.
    + subst ws' T f. rewrite length_app, length_zip_with, length_take, length_drop.
      lia.
    + rewrite length_shift_in. exact Hll.
Qed.

(** Construction leaves a filter in working order, with a zeroed delay
    line. *)
Lemma lms_new_ready h c ws T m B :
  h !! c = Some ws -> (0 <= T)%Z -> Z.to_nat T <= length ws ->
  exists f s,
    LMS.LMSFilter_new (Some c) T m B h
      = Ok (f, <[s := replicate (Z.to_nat T) f0]> h) /\
    h !! s = None /\
    LMS._numTaps f = T /\ LMS._mu f = m /\ LMS._blockSize f = B /\
    LMS.ready (World f (<[s := replicate (Z.to_nat T) f0]> h)) c s ws
      (replicate (Z.to_nat T) f0).
Proof.
  intros Hws HT Hlen. unfold LMS.LMSFilter_new.
  eexists _, (fresh (dom h)).
  rewrite (bind_Ok _ _ _ _ _ (heap_new_Ok h T HT)).
  split; [reflexivity|]. split; [apply heap_new_fresh|].
  assert (c <> fresh (dom h)) as Hne.
  { intros ->. rewrite heap_new_fresh in Hws. discriminate. }
  repeat split; simpl; try assumption.
  - rewrite lookup_insert_ne by congruence. exact Hws.
  - apply lookup_insert_eq.
  - rewrite length_replicate. reflexivity.
Qed.

End LMSStep.

(** ** The loops of [resetCoefficients] *)

Section Loops.
Context {float32_t : Type} `{Arith float32_t}.
Local Abbreviation heap := (gmap loc (list float32_t)).
Implicit Types (h : heap) (l : loc) (vs us : list float32_t).

Lemma zero_loop_spec n : forall i l vs h,
  h !! l = Some vs -> i + n <= length vs ->
  LMS.zero_loop (Some l) i n h
  = Ok (tt, <[l := take i vs ++ replicate n f0 ++ drop (i + n) vs]> h).
Proof.
  induction n as [|n IH]; intros i l vs h Hl Hlen; simpl.
  - rewrite Nat.add_0_r, take_drop, insert_id by exact Hl. reflexivity.
  - rewrite (bind_Ok _ _ _ _ _ (heap_store_Ok h l vs i f0 Hl ltac:(lia))).
    rewrite (IH (S i) l (<[i := f0]> vs)).
    + rewrite insert_insert_eq. do 3 f_equal.
      rewrite (take_S_r _ i f0) by (apply list_lookup_insert_eq; lia).
      rewrite take_insert_ge by lia. rewrite <- app_assoc. simpl.
      rewrite drop_insert_lt by lia.
      replace (i + S n) with (S (i + n)) by lia. reflexivity.
    + apply lookup_insert_eq.
    + rewrite length_insert. lia.
Qed.

(** A zeroing loop that returns stayed within the array. *)
Lemma zero_loop_bound n : forall i l vs h u h',
  LMS.zero_loop (Some l) i n h = Ok (u, h') -> h !! l = Some vs ->
  0 < n -> i + n <= length vs.
Proof.
  induction n as [|n IH]; intros i l vs h u h' Hrun Hl Hn; [lia|].
  simpl in Hrun. apply bind_inv in Hrun as ([] & h1 & Hstore & Hrest).
  unfold heap_store in Hstore. rewrite Hl in Hstore.
  case_decide; [|discriminate]. inversion Hstore; subst.
  destruct n as [|n]; [lia|].
  pose proof (IH (S i) l (<[i := f0]> vs) _ _ _ Hrest
                (lookup_insert_eq _ _ _) ltac:(lia)) as Hb.
  rewrite length_insert in Hb. lia.
Qed.

(** A zeroing loop that returns has done exactly that. *)
Lemma zero_loop_inv n i l vs h u h' :
  LMS.zero_loop (Some l) i n h = Ok (u, h') -> h !! l = Some vs ->
  h' = <[l := take i vs ++ replicate n f0 ++ drop (i + n) vs]> h.
Proof.
  intros Hrun Hl. destruct n as [|n].
  - inversion Hrun; subst. simpl.
    rewrite Nat.add_0_r, take_drop, insert_id by exact Hl. reflexivity.
  - pose proof (zero_loop_bound _ _ _ _ _ _ _ Hrun Hl ltac:(lia)) as Hb.
    rewrite (zero_loop_spec (S n) i l vs h Hl Hb) in Hrun.
    inversion Hrun; subst. reflexivity.
Qed.

Lemma copy_loop_spec n : forall i dst src vs us h,
  dst <> src -> h !! dst = Some vs -> h !! src = Some us ->
  i + n <= length vs -> i + n <= length us ->
  LMS.copy_loop (Some dst) (Some src) i n h
  = Ok (tt, <[dst := take i vs ++ take n (drop i us) ++ drop (i + n) vs]> h).
Proof.
  induction n as [|n IH]; intros i dst src vs us h Hne Hd Hs Hlv Hlu; simpl.
  - rewrite Nat.add_0_r, take_drop, insert_id by exact Hd. reflexivity.
  - destruct (lookup_lt_is_Some_2 us i ltac:(lia)) as [v Hv].
    rewrite (bind_Ok _ _ _ _ _ (heap_load_Ok h src us i v Hs Hv)).
    rewrite (bind_Ok _ _ _ _ _ (heap_store_Ok h dst vs i v Hd ltac:(lia))).
    rewrite (IH (S i) dst src (<[i := v]> vs) us).
    + rewrite insert_insert_eq. do 3 f_equal.
      rewrite (take_S_r _ i v) by (apply list_lookup_insert_eq; lia).
      rewrite take_insert_ge by lia. rewrite <- app_assoc. simpl.
      rewrite drop_insert_lt by lia.
      rewrite (drop_S us v i Hv). simpl.
      replace (i + S n) with (S (i + n)) by lia. reflexivity.
    + exact Hne.
    + apply lookup_insert_eq.
    + rewrite lookup_insert_ne by exact Hne. exact Hs.
    + rewrite length_insert. lia.
    + lia.
Qed.

(** Copying an array onto itself changes nothing. *)
Lemma copy_loop_self n : forall i l vs h,
  h !! l = Some vs -> i + n <= length vs ->
  LMS.copy_loop (Some l) (Some l) i n h = Ok (tt, h).
Proof.
  induction n as [|n IH]; intros i l vs h Hl Hlen; simpl; [reflexivity|].
  destruct (lookup_lt_is_Some_2 vs i ltac:(lia)) as [v Hv].
  rewrite (bind_Ok _ _ _ _ _ (heap_load_Ok h l vs i v Hl Hv)).
  rewrite (bind_Ok _ _ _ _ _ (heap_store_Ok h l vs i v Hl ltac:(lia))).
  rewrite list_insert_id by exact Hv. rewrite insert_id by exact Hl.
  apply (IH (S i) l vs); [exact Hl | lia].
Qed.

Lemma resetCoefficients_unfold (newCoeffs : ptr) (w : world (LMS.LMSFilter float32_t) heap) :
  LMS.resetCoefficients newCoeffs w =
  let n := Z.to_nat (LMS._numTaps (this w)) in
  match (_ <- match newCoeffs with
              | Some _ => LMS.copy_loop (LMS._coeffs (this w)) newCoeffs 0 n
              | None => LMS.zero_loop (LMS._coeffs (this w)) 0 n
              end ;;
         LMS.zero_loop (LMS._state (this w)) 0 n) (mem w) with
  | Ok (u, h') => Ok (u, World (this w) h')
  | Fault e => Fault e
  end.
Proof.
  unfold LMS.resetCoefficients, bind, get_this, on_mem. simpl.
  destruct newCoeffs as [p|].
  - destruct (LMS.copy_loop _ _ 0 _ (mem w)) as [[u h1]|e]; reflexivity.
  - destruct (LMS.zero_loop _ 0 _ (mem w)) as [[u h1]|e]; reflexivity.
Qed.

End Loops.

(** ** What the operations leave alone *)

Section Frames.
Context {float32_t : Type} `{Arith float32_t}.
Local Abbreviation heap := (gmap loc (list float32_t)).
Implicit Types (h : heap) (l : loc) (vs ws : list float32_t) (p c s : ptr).
Implicit Types (v : float32_t).

Lemma same_shape_refl h : same_shape h h.
Proof. intros l. reflexivity. Qed.

Lemma same_shape_trans h1 h2 h3 :
  same_shape h1 h2 -> same_shape h2 h3 -> same_shape h1 h3.
Proof. intros H12 H23 l. rewrite H23. apply H12. Qed.

Lemma touches_only_refl c s T h : touches_only c s T h h.
Proof.
  intros l. destruct (h !! l) as [vs|] eqn:E; [|reflexivity].
  exists vs. repeat split; reflexivity.
Qed.

Lemma touches_only_trans c s T h1 h2 h3 :
  touches_only c s T h1 h2 -> touches_only c s T h2 h3 -> touches_only c s T h1 h3.
Proof.
  intros H12 H23 l. specialize (H12 l). specialize (H23 l).
  destruct (h1 !! l) as [vs|].
  - destruct H12 as (vs2 & E2 & Hl2 & Hd2 & Hf2). rewrite E2 in H23.
    destruct H23 as (vs3 & E3 & Hl3 & Hd3 & Hf3).
    exists vs3. repeat split; [exact E3 | congruence | congruence |].
    intros Hc Hs. rewrite Hf3, Hf2 by assumption. reflexivity.
  - rewrite H12 in H23. exact H23.
Qed.

Lemma touches_only_same_shape c s T h h' : touches_only c s T h h' -> same_shape h h'.
Proof.
  intros Ht l. specialize (Ht l). destruct (h !! l) as [vs|].
  - destruct Ht as (vs' & -> & Hlen & _). simpl. congruence.
  - rewrite Ht. reflexivity.
Qed.

Lemma members_kept_refl {O} (P : heap -> heap -> Prop) (w : world O heap) :
  (forall h, P h h) -> members_kept P w w.
Proof. intros Hrefl. split; [reflexivity | apply Hrefl]. Qed.

Lemma members_kept_trans {O} (P : heap -> heap -> Prop) (w1 w2 w3 : world O heap) :
  (forall h1 h2 h3, P h1 h2 -> P h2 h3 -> P h1 h3) ->
  members_kept P w1 w2 -> members_kept P w2 w3 -> members_kept P w1 w3.
Proof.
  intros Htrans [Ht12 Hp12] [Ht23 Hp23]. split; [congruence | eauto].
Qed.

Lemma preserves_on_mem {O A} (P : heap -> heap -> Prop) (m : M heap A) :
  preserves P m -> preserves (members_kept (O := O) P) (on_mem m).
Proof.
  intros Hm w a w'. unfold on_mem.
  destruct (m (mem w)) as [[b h1]|e] eqn:E; [|discriminate].
  intros Heq. inversion Heq; subst. split; [reflexivity | eapply Hm, E].
Qed.

Lemma preserves_get_this {O} (P : heap -> heap -> Prop) :
  (forall h, P h h) -> preserves (members_kept (O := O) P) get_this.
Proof.
  intros Hrefl w a w' Heq. inversion Heq; subst. apply members_kept_refl, Hrefl.
Qed.

Lemma preserves_heap_load (P : heap -> heap -> Prop) p i :
  (forall h, P h h) -> preserves P (heap_load p i).
Proof.
  intros Hrefl h a h'. unfold heap_load.
  destruct p as [l|]; [|discriminate].
  destruct (h !! l) as [vs|]; [|discriminate].
  destruct (vs !! i); [|discriminate].
  intros Heq. inversion Heq; subst. apply Hrefl.
Qed.

Lemma preserves_heap_read (P : heap -> heap -> Prop) p n :
  (forall h, P h h) -> preserves P (heap_read p n).
Proof.
  intros Hrefl h a h'. unfold heap_read.
  destruct p as [l|]; [|discriminate].
  destruct (h !! l) as [vs|]; [|discriminate].
  case_decide; [|discriminate].
  intros Heq. inversion Heq; subst. apply Hrefl.
Qed.

Lemma preserves_array_get {St} (P : St -> St -> Prop) (a : list float32_t) (i : nat) :
  (forall st : St, P st st) -> preserves P (array_get a i).
Proof.
  intros Hrefl. unfold array_get. destruct (a !! i).
  - apply preserves_ret, Hrefl.
  - apply preserves_raise.
Qed.

(** Replacing the first [T] elements (or fewer) of the array at [l], where
    [l] is one of the two arrays named. *)
Lemma touches_only_insert c s T h l vs vs' :
  h !! l = Some vs -> (Some l = c \/ Some l = s) ->
  length vs' = length vs -> drop T vs' = drop T vs ->
  touches_only c s T h (<[l := vs']> h).
Proof.
  intros Hl Hcs Hlen Hdrop l'. destruct (decide (l = l')) as [<-|Hne].
  - rewrite Hl, lookup_insert_eq. exists vs'. repeat split; try assumption.
    intros Hc Hs. destruct Hcs; congruence.
  - rewrite lookup_insert_ne by exact Hne.
    destruct (h !! l') as [us|]; [|reflexivity].
    exists us. repeat split; reflexivity.
Qed.

Lemma preserves_heap_store_touch c s T p i v :
  p = c \/ p = s -> i < T -> preserves (touches_only c s T) (heap_store p i v).
Proof.
  intros Hp Hi h a h'. unfold heap_store.
  destruct p as [l|]; [|discriminate].
  destruct (h !! l) as [vs|] eqn:El; [|discriminate].
  case_decide; [|discriminate].
  intros Heq. inversion Heq; subst.
  apply (touches_only_insert c s T h l vs); [exact El | | apply length_insert |].
  - destruct Hp; [left | right]; congruence.
  - apply drop_insert_lt. exact Hi.
Qed.

Lemma same_shape_insert h l vs vs' :
  h !! l = Some vs -> length vs' = length vs -> same_shape h (<[l := vs']> h).
Proof.
  intros Hl Hlen l'. destruct (decide (l = l')) as [<-|Hne].
  - rewrite Hl, lookup_insert_eq. simpl. congruence.
  - rewrite lookup_insert_ne by exact Hne. reflexivity.
Qed.

Lemma preserves_heap_store_shape p i v : preserves same_shape (heap_store p i v).
Proof.
  intros h a h'. unfold heap_store.
  destruct p as [l|]; [|discriminate].
  destruct (h !! l) as [vs|] eqn:El; [|discriminate].
  case_decide; [|discriminate].
  intros Heq. inversion Heq; subst.
  apply (same_shape_insert h l vs); [exact El | apply length_insert].
Qed.

Lemma preserves_heap_write_shape p ws : preserves same_shape (heap_write p ws).
Proof.
  intros h a h'. unfold heap_write.
  destruct p as [l|]; [|discriminate].
  destruct (h !! l) as [vs|] eqn:El; [|discriminate].
  case_decide; [|discriminate].
  intros Heq. inversion Heq; subst.
  apply (same_shape_insert h l vs); [exact El|].
  rewrite length_app, length_drop. lia.
Qed.

End Frames.

Section Shapes.
Context {float32_t : Type} `{Arith float32_t}.
Local Abbreviation heap := (gmap loc (list float32_t)).

(** Peel one layer off a computation built from the primitives. *)
Ltac shape_step :=
  first
    [ apply (preserves_bind (St := heap) same_shape);
        [exact same_shape_trans | | intros ?]
    | apply preserves_ret; exact same_shape_refl
    | apply preserves_heap_read; exact same_shape_refl
    | apply preserves_heap_load; exact same_shape_refl
    | apply preserves_array_get; exact same_shape_refl
    | apply preserves_heap_write_shape
    | apply preserves_heap_store_shape ].

Ltac method_step :=
  first
    [ apply (preserves_bind (members_kept same_shape));
        [intros ? ? ?; apply members_kept_trans; exact same_shape_trans | | intros ?]
    | apply preserves_ret; intros ?; apply members_kept_refl; exact same_shape_refl
    | apply preserves_get_this; exact same_shape_refl
    | apply preserves_on_mem ].

Lemma fir_block_shape inst xs n : forall i, preserves same_shape (FIR.fir_block inst xs i n).
Proof.
  induction n as [|n IH]; intros i; simpl; repeat shape_step.
  apply IH.
Qed.

Lemma fir_processSample_shape x :
  preserves (members_kept same_shape) (FIR.processSample x).
Proof.
  unfold FIR.processSample. repeat method_step.
  apply fir_block_shape.
Qed.

Lemma fir_processBuffer_shape xs n :
  preserves (members_kept same_shape) (FIR.processBuffer xs n).
Proof.
  unfold FIR.processBuffer. repeat method_step.
  apply fir_block_shape.
Qed.

Lemma iir_block_shape inst xs n : forall i, preserves same_shape (IIR.iir_block inst xs i n).
Proof.
  induction n as [|n IH]; intros i; simpl; repeat shape_step.
  apply IH.
Qed.

Lemma iir_processSample_shape x :
  preserves (members_kept same_shape) (IIR.processSample x).
Proof.
  unfold IIR.processSample. repeat method_step.
  apply iir_block_shape.
Qed.

Lemma iir_processBuffer_shape xs n :
  preserves (members_kept same_shape) (IIR.processBuffer xs n).
Proof.
  unfold IIR.processBuffer. repeat method_step.
  apply iir_block_shape.
Qed.

Lemma lms_block_shape inst xs ds n :
  forall i, preserves same_shape (LMS.lms_block inst xs ds i n).
Proof.
  induction n as [|n IH]; intros i; simpl; repeat shape_step.
  apply IH.
Qed.

Lemma lms_processSample_shape x d :
  preserves (members_kept same_shape) (LMS.processSample x d).
Proof.
  unfold LMS.processSample. repeat method_step.
  apply lms_block_shape.
Qed.

Lemma lms_processBuffer_shape xs ds n :
  preserves (members_kept same_shape) (LMS.processBuffer xs ds n).
Proof.
  unfold LMS.processBuffer. repeat method_step.
  apply lms_block_shape.
Qed.

Lemma zero_loop_touch c s T p n : forall i,
  p = c \/ p = s -> i + n <= T ->
  preserves (touches_only c s T) (LMS.zero_loop p i n).
Proof.
  induction n as [|n IH]; intros i Hp Hi; simpl.
  - apply preserves_ret, touches_only_refl.
  - apply preserves_bind; [apply touches_only_trans | | intros _].
    + apply preserves_heap_store_touch; [exact Hp | lia].
    + apply IH; [exact Hp | lia].
Qed.

Lemma copy_loop_touch c s T p q n : forall i,
  p = c \/ p = s -> i + n <= T ->
  preserves (touches_only (float32_t := float32_t) c s T) (LMS.copy_loop p q i n).
Proof.
  induction n as [|n IH]; intros i Hp Hi; simpl.
  - apply preserves_ret, touches_only_refl.
  - apply preserves_bind; [apply touches_only_trans | | intros v].
    + apply preserves_heap_load, touches_only_refl.
    + apply preserves_bind; [apply touches_only_trans | | intros _].
      * apply preserves_heap_store_touch; [exact Hp | lia].
      * apply IH; [exact Hp | lia].
Qed.

(** [resetCoefficients] assigns no member, and in the heap writes only the
    first [_numTaps] elements of the arrays behind [_coeffs] and [_state]. *)
Lemma resetCoefficients_touch (newCoeffs : ptr)
  (w w' : world (LMS.LMSFilter float32_t) heap) u :
  LMS.resetCoefficients newCoeffs w = Ok (u, w') ->
  members_kept (touches_only (LMS._coeffs (this w)) (LMS._state (this w))
                  (Z.to_nat (LMS._numTaps (this w)))) w w'.
Proof.
  rewrite resetCoefficients_unfold. cbv zeta.
  set (c := LMS._coeffs (this w)). set (s := LMS._state (this w)).
  set (T := Z.to_nat (LMS._numTaps (this w))).
  match goal with |- context [match ?m (mem w) with _ => _ end] =>
    destruct (m (mem w)) as [[u1 h1]|e] eqn:E; [|discriminate] end.
  intros Heq. inversion Heq; subst. split; [reflexivity|]. simpl.
  revert E. apply preserves_bind; [apply touches_only_trans | | intros _].
  - destruct newCoeffs.
    + apply copy_loop_touch; [left; reflexivity | lia].
    + apply zero_loop_touch; [left; reflexivity | lia].
  - apply zero_loop_touch; [right; reflexivity | lia].
Qed.

(** A [resetCoefficients] call that returns has zeroed the first
    [_numTaps] elements of the state array. *)
Lemma resetCoefficients_state_zero (newCoeffs : ptr)
  (w w' : world (LMS.LMSFilter float32_t) heap) u s line :
  LMS.resetCoefficients newCoeffs w = Ok (u, w') ->
  LMS._state (this w) = Some s -> mem w !! s = Some line ->
  let T := Z.to_nat (LMS._numTaps (this w)) in
  mem w' !! s = Some (replicate T f0 ++ drop T line).
Proof.
  rewrite resetCoefficients_unfold. cbv zeta.
  set (T := Z.to_nat (LMS._numTaps (this w))).
  match goal with |- context [match ?m (mem w) with _ => _ end] =>
    destruct (m (mem w)) as [[u1 h2]|e] eqn:E; [|discriminate] end.
  intros Heq Hs Hline. inversion Heq; subst. simpl.
  apply bind_inv in E as (u0 & h1 & Hfirst & Hzero).
  assert (touches_only (LMS._coeffs (this w)) (LMS._state (this w)) T (mem w) h1)
    as Htouch.
  { revert Hfirst. destruct newCoeffs.
    - apply copy_loop_touch; [left; reflexivity | lia].
    - apply zero_loop_touch; [left; reflexivity | lia]. }
  specialize (Htouch s). rewrite Hline in Htouch.
  destruct Htouch as (line1 & Hline1 & Hlen & Hdrop & _).
  rewrite Hs in Hzero.
  rewrite (zero_loop_inv _ _ _ _ _ _ _ Hzero Hline1), lookup_insert_eq.
  simpl. rewrite Hdrop. reflexivity.
Qed.

End Shapes.

(** ** The FIR engine on a filter in working order *)

Section FIRReady.
Context {float32_t : Type} `{Arith float32_t}.
Local Abbreviation heap := (gmap loc (list float32_t)).
Implicit Types (h : heap) (w : world FIR.FIRFilter heap).
Implicit Types (cs line rest xs : list float32_t).

Lemma fir_sample_spec inst c s cs line rest x h :
  FIR.pCoeffs inst = Some c -> FIR.pState inst = Some s ->
  h !! c = Some cs -> h !! s = Some (line ++ rest) ->
  Z.to_nat (FIR.numTaps inst) <= length cs ->
  length line = Z.to_nat (FIR.numTaps inst) ->
  FIR.fir_sample inst x h =
  Ok (dot (take (Z.to_nat (FIR.numTaps inst)) cs) (shift_in x line),
      <[s := shift_in x line ++ rest]> h).
Proof.
  unfold FIR.fir_sample.
  generalize (Z.to_nat (FIR.numTaps inst)). intros T Hc Hs Hcs Hst Hlc Hll.
  cbv zeta. rewrite Hc, Hs.
  rewrite (bind_Ok _ _ _ _ _ (heap_read_Ok h c cs T Hcs Hlc)).
  erewrite bind_Ok; [|apply (heap_read_Ok h s (line ++ rest)); [exact Hst|]].
  2: { rewrite length_app. lia. }
  rewrite take_app_length' by congruence.
  erewrite bind_Ok; [|apply (heap_write_Ok h s (line ++ rest)); [exact Hst|]].
  2: { rewrite length_shift_in, length_app. lia. }
  rewrite length_shift_in, drop_app_length. reflexivity.
Qed.

Lemma fir_processSample_ready w c s cs line rest x :
  FIR.ready w c s cs line rest ->
  let T := Z.to_nat (FIR._numTaps (this w)) in
  let w' := World (this w) (<[s := shift_in x line ++ rest]> (mem w)) in
  FIR.processSample x w = Ok (dot (take T cs) (shift_in x line), w') /\
  FIR.ready w' c s cs (shift_in x line) rest.
Proof.
  intros [(Hpc & Hps & Hnt) Hc Hs Hcs Hmc Hms Hlc Hll]. cbv zeta. split.
  - rewrite fir_processSample_unfold.
    rewrite <- Hpc in Hc. rewrite <- Hps in Hs. rewrite <- Hnt in *.
    rewrite (fir_sample_spec _ c s cs line rest x (mem w) Hc Hs Hmc Hms Hlc Hll).
    reflexivity.
  - constructor; simpl; try assumption.
    + repeat split; assumption.
    + rewrite lookup_insert_ne by congruence. exact Hmc.
    + apply lookup_insert_eq.
    + rewrite length_shift_in. exact Hll.
Qed.

(** Feeding [xs] one sample per call. *)
Lemma fir_each_ready xs : forall w c s cs line rest,
  FIR.ready w c s cs line rest ->
  let T := Z.to_nat (FIR._numTaps (this w)) in
  let w' := World (this w) (<[s := fir_line line xs ++ rest]> (mem w)) in
  each FIR.processSample xs w = Ok (fir_outputs (take T cs) line xs, w') /\
  FIR.ready w' c s cs (fir_line line xs) rest.
Proof.
  induction xs as [|x xs IH]; intros w c s cs line rest Hr; cbv zeta.
  - simpl. unfold ret. unfold fir_line. simpl.
    rewrite insert_id by apply Hr. destruct w. split; [reflexivity | exact Hr].
  - destruct (fir_processSample_ready w c s cs line rest x Hr) as [Hstep Hr1].
    destruct (IH _ c s cs _ rest Hr1) as [Hrest Hr2]. simpl in Hrest, Hr2.
    rewrite insert_insert_eq in Hrest, Hr2.
    split; [|exact Hr2].
    simpl. rewrite (bind_Ok _ _ _ _ _ Hstep). rewrite (bind_Ok _ _ _ _ _ Hrest).
    reflexivity.
Qed.

(** Construction leaves a filter in working order, its state all zero. *)
Lemma fir_new_ready h c cs T B :
  h !! c = Some cs -> (0 <= T)%Z -> (1 <= B)%Z -> Z.to_nat T <= length cs ->
  exists f s,
    FIR.FIRFilter_new (Some c) T B h
      = Ok (f, <[s := replicate (Z.to_nat (T + B - 1)) f0]> h) /\
    h !! s = None /\ FIR._numTaps f = T /\ FIR._blockSize f = B /\
    FIR.ready (World f (<[s := replicate (Z.to_nat (T + B - 1)) f0]> h)) c s cs
      (replicate (Z.to_nat T) f0) (replicate (Z.to_nat (B - 1)) f0).
Proof.
  intros Hcs HT HB Hlen. unfold FIR.FIRFilter_new.
  eexists _, (fresh (dom h)).
  rewrite (bind_Ok _ _ _ _ _ (heap_new_Ok h (T + B - 1) ltac:(lia))).
  split; [reflexivity|]. split; [apply heap_new_fresh|].
  assert (c <> fresh (dom h)) as Hne.
  { intros ->. rewrite heap_new_fresh in Hcs. discriminate. }
  repeat split; simpl; try assumption.
  - rewrite lookup_insert_ne by congruence. exact Hcs.
  - rewrite lookup_insert_eq, <- replicate_add. do 2 f_equal. lia.
  - rewrite length_replicate. reflexivity.
Qed.

End FIRReady.

(** ** The biquad cascade, section by section *)

Section Cascade.
Context {float32_t : Type} `{Arith float32_t}.
Local Abbreviation heap := (gmap loc (list float32_t)).
Implicit Types (h : heap) (w : world IIR.IIRFilter heap).
Implicit Types (cs st xs : list float32_t) (x y u : float32_t).

Lemma section_output_shift b0 b1 b2 a1 a2 cs x1 x2 y1 y2 st j u :
  section_output (b0 :: b1 :: b2 :: a1 :: a2 :: cs) (x1 :: x2 :: y1 :: y2 :: st) (S j) u
  = section_output cs st j u.
Proof.
  unfold section_output.
  replace (5 * S j) with (5 + 5 * j) by lia.
  replace (4 * S j) with (4 + 4 * j) by lia.
  rewrite <- !Nat.add_assoc. reflexivity.
Qed.

Lemma section_input_shift b0 b1 b2 a1 a2 cs x1 x2 y1 y2 st x j :
  section_input (b0 :: b1 :: b2 :: a1 :: a2 :: cs) (x1 :: x2 :: y1 :: y2 :: st) x (S j)
  = section_input cs st
      (b0 ⊗ x ⊕ b1 ⊗ x1 ⊕ b2 ⊗ x2 ⊖ a1 ⊗ y1 ⊖ a2 ⊗ y2) j.
Proof.
  induction j as [|j IH]; [reflexivity|].
  change (section_input ?c ?s x (S (S j)))
    with (section_output c s (S j) (section_input c s x (S j))).
  rewrite IH, section_output_shift. reflexivity.
Qed.

Lemma biquad_cascade_length n : forall cs st x,
  length (fst (IIR.biquad_cascade n cs st x)) = length st.
Proof.
  induction n as [|n IH]; intros cs st x; [reflexivity|]. simpl.
  destruct cs as [|b0 [|b1 [|b2 [|a1 [|a2 cs]]]]]; try reflexivity.
  destruct st as [|x1 [|x2 [|y1 [|y2 st]]]]; try reflexivity.
  simpl. rewrite IH. reflexivity.
Qed.

(** The recursion over the sections computes, for every section, the
    difference equation on that section's coefficients and state slice, and
    leaves the shifted slice behind. *)
Lemma biquad_cascade_spec n : forall cs st x,
  5 * n <= length cs -> 4 * n <= length st ->
  let r := IIR.biquad_cascade n cs st x in
  snd r = section_input cs st x n /\
  forall i, i < n ->
    nth (4 * i) (fst r) f0 = section_input cs st x i /\
    nth (4 * i + 1) (fst r) f0 = nth (4 * i) st f0 /\
    nth (4 * i + 2) (fst r) f0 = section_input cs st x (S i) /\
    nth (4 * i + 3) (fst r) f0 = nth (4 * i + 2) st f0.
Proof.
  induction n as [|n IH]; intros cs st x Hc Hs; cbv zeta.
  - split; [reflexivity | intros i Hi; lia].
  - destruct cs as [|b0 [|b1 [|b2 [|a1 [|a2 cs]]]]]; simpl in Hc; try lia.
    destruct st as [|x1 [|x2 [|y1 [|y2 st]]]]; simpl in Hs; try lia.
    set (y := b0 ⊗ x ⊕ b1 ⊗ x1 ⊕ b2 ⊗ x2 ⊖ a1 ⊗ y1 ⊖ a2 ⊗ y2).
    destruct (IH cs st y ltac:(lia) ltac:(lia)) as [Hout Hst].
    change (IIR.biquad_cascade (S n) ?c ?s x)
      with (x :: x1 :: y :: y1 :: fst (IIR.biquad_cascade n cs st y),
            snd (IIR.biquad_cascade n cs st y)).
    cbn [fst snd]. split.
    + rewrite section_input_shift. exact Hout.
    + intros [|i] Hi.
      * repeat split; reflexivity.
      * destruct (Hst i ltac:(lia)) as (E0 & E1 & E2 & E3).
        replace (4 * S i) with (4 + 4 * i) by lia.
        rewrite <- !Nat.add_assoc. cbn [Nat.add nth].
        rewrite !section_input_shift. fold y.
        rewrite E0, E1, E2, E3. repeat split; reflexivity.
Qed.

Lemma iir_sample_spec inst c s cs st x h :
  IIR.pCoeffs inst = Some c -> IIR.pState inst = Some s ->
  h !! c = Some cs -> h !! s = Some st ->
  5 * Z.to_nat (IIR.numStages inst) <= length cs ->
  length st = 4 * Z.to_nat (IIR.numStages inst) ->
  let n := Z.to_nat (IIR.numStages inst) in
  let r := IIR.biquad_cascade n (take (5 * n) cs) st x in
  IIR.iir_sample inst x h = Ok (snd r, <[s := fst r]> h).
Proof.
  unfold IIR.iir_sample.
  generalize (Z.to_nat (IIR.numStages inst)). intros n Hc Hs Hcs Hst Hlc Hls.
  cbv zeta. rewrite Hc, Hs.
  rewrite (bind_Ok _ _ _ _ _ (heap_read_Ok h c cs (5 * n) Hcs Hlc)).
  rewrite (bind_Ok _ _ _ _ _ (heap_read_Ok h s st (4 * n) Hst ltac:(lia))).
  rewrite (firstn_all2 st) by lia.
  erewrite bind_Ok; [|apply (heap_write_Ok h s st); [exact Hst|]].
  2: { rewrite biquad_cascade_length. lia. }
  rewrite biquad_cascade_length, drop_all, app_nil_r. reflexivity.
Qed.

Lemma iir_processSample_ready w c s cs st x :
  IIR.ready w c s cs st ->
  let n := Z.to_nat (IIR._numStages (this w)) in
  let r := IIR.biquad_cascade n (take (5 * n) cs) st x in
  let w' := World (this w) (<[s := fst r]> (mem w)) in
  IIR.processSample x w = Ok (snd r, w') /\ IIR.ready w' c s cs (fst r).
Proof.
  intros [(Hpc & Hps & Hnt) Hc Hs Hcs Hmc Hms Hlc Hls]. cbv zeta. split.
  - rewrite iir_processSample_unfold.
    rewrite <- Hpc in Hc. rewrite <- Hps in Hs. rewrite <- Hnt in *.
    rewrite (iir_sample_spec _ c s cs st x (mem w) Hc Hs Hmc Hms Hlc Hls).
    reflexivity.
  - constructor; simpl; try assumption.
    + repeat split; assumption.
    + rewrite lookup_insert_ne by congruence. exact Hmc.
    + apply lookup_insert_eq.
    + rewrite biquad_cascade_length. exact Hls.
Qed.

(** Construction leaves a filter in working order, its state all zero. *)
Lemma iir_new_ready h c cs stages B :
  h !! c = Some cs -> (0 <= stages)%Z -> 5 * Z.to_nat stages <= length cs ->
  exists f s,
    IIR.IIRFilter_new (Some c) stages B h
      = Ok (f, <[s := replicate (Z.to_nat (4 * stages)) f0]> h) /\
    h !! s = None /\ IIR._numStages f = stages /\ IIR._blockSize f = B /\
    IIR.ready (World f (<[s := replicate (Z.to_nat (4 * stages)) f0]> h)) c s cs
      (replicate (Z.to_nat (4 * stages)) f0).
Proof.
  intros Hcs HS Hlen. unfold IIR.IIRFilter_new. cbv zeta.
  eexists _, (fresh (dom h)).
  rewrite (bind_Ok _ _ _ _ _ (heap_new_Ok h (4 * stages) ltac:(lia))).
  split; [reflexivity|]. split; [apply heap_new_fresh|].
  assert (c <> fresh (dom h)) as Hne.
  { intros ->. rewrite heap_new_fresh in Hcs. discriminate. }
  repeat split; simpl; try assumption.
  - rewrite lookup_insert_ne by congruence. exact Hcs.
  - apply lookup_insert_eq.
  - rewrite length_replicate. lia.
Qed.

End Cascade.

(** ** Facts that need the laws of arithmetic *)

Section Arithmetic.
Context {float32_t : Type} `{Arith float32_t}.
Hypothesis Fth : ring_laws float32_t.
Add Ring float32_ring : Fth.
Implicit Types (cs ws vs line xs : list float32_t) (x y acc : float32_t).

Lemma dot_from acc ws : forall vs,
  fold_left (fun a q => a ⊕ fst q ⊗ snd q) (zip ws vs) acc = acc ⊕ dot ws vs.
Proof.
  unfold dot. revert acc.
  induction ws as [|w ws IH]; intros acc vs.
  - simpl. ring.
  - destruct vs as [|v vs]; simpl; [ring|].
    rewrite (IH (acc ⊕ w ⊗ v)), (IH (f0 ⊕ w ⊗ v)). ring.
Qed.

Lemma dot_cons w ws v vs : dot (w :: ws) (v :: vs) = w ⊗ v ⊕ dot ws vs.
Proof. unfold dot at 1. simpl. rewrite dot_from. ring. Qed.

Lemma dot_zero_r ws : forall n, dot ws (replicate n f0) = f0.
Proof.
  induction ws as [|w ws IH]; intros n; [reflexivity|].
  destruct n as [|n]; [reflexivity|].
  simpl replicate. rewrite dot_cons, IH. ring.
Qed.

(** Against a delay line holding a single one, the dot product picks one
    coefficient. *)
Lemma dot_unit cs : forall k m,
  dot cs (replicate k f0 ++ f1 :: replicate m f0) = nth k cs f0.
Proof.
  induction cs as [|c cs IH]; intros k m.
  - destruct k; reflexivity.
  - destruct k as [|k]; simpl.
    + rewrite dot_cons, dot_zero_r. ring.
    + rewrite dot_cons, IH. ring.
Qed.

Lemma shift_in_zero n : shift_in f0 (replicate n f0) = replicate n f0.
Proof.
  unfold shift_in. rewrite length_replicate.
  change (f0 :: replicate n f0) with (replicate (S n) f0).
  rewrite take_replicate. f_equal. lia.
Qed.

Lemma fir_outputs_zero cs n N :
  fir_outputs cs (replicate n f0) (replicate N f0) = replicate N f0.
Proof.
  induction N as [|N IH]; [reflexivity|].
  simpl. rewrite shift_in_zero, dot_zero_r, IH. reflexivity.
Qed.

Lemma fir_line_zero n N : fir_line (replicate n f0) (replicate N f0) = replicate n f0.
Proof.
  unfold fir_line. induction N as [|N IH]; [reflexivity|].
  simpl. rewrite shift_in_zero. exact IH.
Qed.

(** With the one [k] places down the delay line, the zeros that follow
    bring out the remaining coefficients in order. *)
Lemma fir_outputs_after_impulse cs m : forall k,
  length cs = k + 1 + m ->
  fir_outputs cs (replicate k f0 ++ f1 :: replicate m f0) (replicate m f0)
  = drop (S k) cs.
Proof.
  induction m as [|m IH]; intros k Hlen.
  - simpl. rewrite drop_ge by lia. reflexivity.
  - change (replicate (S m) f0) with (f0 :: replicate m f0) at 2.
    cbn [fir_outputs].
    change (f0 :: replicate m f0) with (replicate (S m) f0).
    assert (shift_in f0 (replicate k f0 ++ f1 :: replicate (S m) f0)
            = replicate (S k) f0 ++ f1 :: replicate m f0) as ->.
    { unfold shift_in. rewrite length_app, length_replicate. simpl length.
      rewrite length_replicate.
      change (f0 :: replicate k f0 ++ f1 :: replicate (S m) f0)
        with (replicate (S k) f0 ++ f1 :: replicate (S m) f0).
      replace (f1 :: replicate (S m) f0) with ((f1 :: replicate m f0) ++ [f0]).
      2: { simpl. f_equal. change (replicate m f0 ++ [f0] = replicate (S m) f0).
           rewrite replicate_S_end. reflexivity. }
      rewrite app_assoc. apply take_app_length'.
      rewrite length_app, length_replicate. simpl. rewrite length_replicate. lia. }
    rewrite dot_unit, (IH (S k)) by lia.
    destruct (lookup_lt_is_Some_2 cs (S k) ltac:(lia)) as [c Hc].
    rewrite (nth_lookup_Some _ _ _ _ Hc). symmetry. apply drop_S. exact Hc.
Qed.

(** A unit impulse through a cleared filter reads out the coefficients. *)
Lemma fir_outputs_impulse cs T :
  length cs = T -> 1 <= T ->
  fir_outputs cs (replicate T f0) (f1 :: replicate (T - 1) f0) = cs.
Proof.
  intros Hlen HT. destruct T as [|m]; [lia|].
  replace (S m - 1) with m by lia. cbn [fir_outputs].
  assert (shift_in f1 (replicate (S m) f0) = replicate 0 f0 ++ f1 :: replicate m f0) as ->.
  { unfold shift_in. rewrite length_replicate.
    change (take (S m) (f1 :: replicate (S m) f0))
      with (f1 :: take m (replicate (S m) f0)).
    rewrite take_replicate. simpl app. do 2 f_equal. lia. }
  rewrite dot_unit, (fir_outputs_after_impulse cs m 0) by (simpl; lia).
  destruct cs; [discriminate | reflexivity].
Qed.

Lemma biquad_cascade_zero n : forall cs,
  IIR.biquad_cascade n cs (replicate (4 * n) f0) f0 = (replicate (4 * n) f0, f0).
Proof.
  induction n as [|n IH]; intros cs; [reflexivity|].
  replace (4 * S n) with (S (S (S (S (4 * n))))) by lia.
  simpl. destruct cs as [|b0 [|b1 [|b2 [|a1 [|a2 cs]]]]]; try reflexivity.
  assert (b0 ⊗ f0 ⊕ b1 ⊗ f0 ⊕ b2 ⊗ f0 ⊖ a1 ⊗ f0 ⊖ a2 ⊗ f0 = f0) as -> by ring.
  rewrite IH. reflexivity.
Qed.

End Arithmetic.

(** ** Reset and step size on a filter in working order *)

Section LMSReady.
Context {float32_t : Type} `{Arith float32_t}.
Local Abbreviation heap := (gmap loc (list float32_t)).
Implicit Types (h : heap) (w : world (LMS.LMSFilter float32_t) heap).
Implicit Types (ws line vs : list float32_t).

Lemma sum_upto_ext n (f g : nat -> float32_t) :
  (forall k, k < n -> f k = g k) -> sum_upto n f = sum_upto n g.
Proof.
  induction n as [|n IH]; intros Hfg; [reflexivity|].
  simpl. rewrite IH by (intros k Hk; apply Hfg; lia).
  rewrite (Hfg n) by lia. reflexivity.
Qed.

Lemma nth_take_lt ws k n : k < n -> nth k (take n ws) f0 = nth k ws f0.
Proof. intros Hk. rewrite !nth_lookup, lookup_take_lt by exact Hk. reflexivity. Qed.

Lemma nth_zip_with_adapt m e ws line k :
  k < length ws -> k < length line ->
  nth k (zip_with (LMS.adapt m e) ws line) f0
  = LMS.adapt m e (nth k ws f0) (nth k line f0).
Proof.
  intros Hw Hl.
  destruct (lookup_lt_is_Some_2 ws k Hw) as [a Ha].
  destruct (lookup_lt_is_Some_2 line k Hl) as [b Hb].
  rewrite !nth_lookup, lookup_zip_with, Ha, Hb. reflexivity.
Qed.

Lemma lms_reset_null_ready w c s ws line :
  LMS.ready w c s ws line ->
  let T := Z.to_nat (LMS._numTaps (this w)) in
  let w1 := World (this w)
              (<[s := replicate T f0]> (<[c := replicate T f0 ++ drop T ws]> (mem w))) in
  LMS.resetCoefficients nullptr w = Ok (tt, w1) /\
  LMS.ready w1 c s (replicate T f0 ++ drop T ws) (replicate T f0).
Proof.
  intros [Hcons Hc Hs Hcs Hws Hline Hlw Hll]. cbv zeta.
  set (T := Z.to_nat (LMS._numTaps (this w))) in *. split.
  - rewrite resetCoefficients_unfold. cbv zeta. fold T. rewrite Hc, Hs.
    rewrite (bind_Ok _ _ _ _ _ (zero_loop_spec T 0 c ws (mem w) Hws ltac:(lia))).
    erewrite zero_loop_spec;
      [|rewrite lookup_insert_ne by exact Hcs; exact Hline | lia].
    simpl. rewrite (drop_ge line) by lia. rewrite app_nil_r. reflexivity.
  - constructor; simpl; try assumption.
    + rewrite lookup_insert_ne by congruence. apply lookup_insert_eq.
    + apply lookup_insert_eq.
    + fold T. rewrite length_app, length_replicate. lia.
    + apply length_replicate.
Qed.

Lemma lms_reset_ptr_ready w c s ws line p vs :
  LMS.ready w c s ws line ->
  p <> s -> mem w !! p = Some vs -> Z.to_nat (LMS._numTaps (this w)) <= length vs ->
  let T := Z.to_nat (LMS._numTaps (this w)) in
  let w1 := World (this w)
              (<[s := replicate T f0]> (<[c := take T vs ++ drop T ws]> (mem w))) in
  LMS.resetCoefficients (Some p) w = Ok (tt, w1) /\
  LMS.ready w1 c s (take T vs ++ drop T ws) (replicate T f0).
Proof.
  intros [Hcons Hc Hs Hcs Hws Hline Hlw Hll] Hps Hp Hlv. cbv zeta.
  set (T := Z.to_nat (LMS._numTaps (this w))) in *. split.
  - rewrite resetCoefficients_unfold. cbv zeta. fold T. rewrite Hc, Hs.
    assert (LMS.copy_loop (Some c) (Some p) 0 T (mem w)
            = Ok (tt, <[c := take T vs ++ drop T ws]> (mem w))) as Hcopy.
    { destruct (decide (c = p)) as [<-|Hne].
      - assert (vs = ws) as -> by congruence.
        rewrite take_drop, insert_id by exact Hws.
        apply (copy_loop_self T 0 c ws); [exact Hws | lia].
      - rewrite (copy_loop_spec T 0 c p ws vs) by (assumption || lia).
        reflexivity. }
    rewrite (bind_Ok _ _ _ _ _ Hcopy).
    erewrite zero_loop_spec;
      [|rewrite lookup_insert_ne by exact Hcs; exact Hline | lia].
    simpl. rewrite (drop_ge line) by lia. rewrite app_nil_r. reflexivity.
  - constructor; simpl; try assumption.
    + rewrite lookup_insert_ne by congruence. apply lookup_insert_eq.
    + apply lookup_insert_eq.
    + fold T. rewrite length_app, length_take, length_drop. lia.
    + apply length_replicate.
Qed.

Lemma setMu_unfold (newMu : float32_t) w :
  LMS.setMu newMu w
  = Ok (tt, World (LMS.with_instance_mu (LMS.with_mu (this w) newMu) newMu) (mem w)).
Proof. reflexivity. Qed.

Lemma setMu_ready (newMu : float32_t) w c s ws line :
  LMS.ready w c s ws line ->
  LMS.ready (World (LMS.with_instance_mu (LMS.with_mu (this w) newMu) newMu) (mem w))
    c s ws line.
Proof.
  intros [(Hpc & Hps & Hnt & Hmu) Hc Hs Hcs Hws Hline Hlw Hll].
  constructor; simpl; try assumption. repeat split; simpl; assumption.
Qed.

End LMSReady.

(** * The LMS engine *)

Section LMSProperties.
Context {float32_t : Type} `{Arith float32_t}.
Local Abbreviation heap := (gmap loc (list float32_t)).
Implicit Types (w : world (LMS.LMSFilter float32_t) heap).
Implicit Types (ws line vs : list float32_t) (x d : float32_t).

(** C2.  On an LMS filter in working order with [T] taps, one
    [processSample x d] call returns [y], the sum over [k < T] of
    [w[k] * line[k]] taken on the weights and the delay line as they stand
    at the call, and [e = d - y]; it replaces every weight [w[k]], [k < T],
    by [w[k] + mu * e * line[k]] and leaves the coefficient array beyond [T]
    as it was; only then is [x] shifted into the delay line ([x] in front,
    the old entries one place down).  A [processBuffer] call is this step on
    the first sample followed by the block call on the remaining samples,
    run on the weights and the delay line the first step left behind. *)
Theorem lms_update_four_steps w c s ws line x d :
  LMS.ready w c s ws line ->
  let T := Z.to_nat (LMS._numTaps (this w)) in
  let y := sum_upto T (fun k => nth k ws f0 ⊗ nth k line f0) in
  let e := d ⊖ y in
  exists w' ws' line',
    LMS.processSample x d w = Ok ((y, e), w') /\
    this w' = this w /\
    LMS.ready w' c s ws' line' /\
    length ws' = length ws /\
    (forall k, k < T ->
       nth k ws' f0 = nth k ws f0 ⊕ LMS.getMu (this w) ⊗ e ⊗ nth k line f0) /\
    (forall k, T <= k -> nth k ws' f0 = nth k ws f0) /\
    length line' = T /\
    (0 < T -> nth 0 line' f0 = x) /\
    (forall k, S k < T -> nth (S k) line' f0 = nth k line f0) /\
    forall xs ds n,
      LMS.processBuffer (x :: xs) (d :: ds) (S n) w =
      match LMS.processBuffer xs ds n w' with
      | Ok (r, w'') => Ok ((y :: fst r, e :: snd r), w'')
      | Fault err => Fault err
      end.
Proof.
  intros Hr. cbv zeta.
  destruct (lms_processSample_ready w c s ws line x d Hr) as [Hstep Hr'].
  cbv zeta in Hstep, Hr'.
  destruct Hr as [Hcons Hc Hs Hcs Hws Hline Hlw Hll].
  set (T := Z.to_nat (LMS._numTaps (this w))) in *.
  assert (dot (take T ws) line
          = sum_upto T (fun k => nth k ws f0 ⊗ nth k line f0)) as Hy.
  { rewrite (dot_sum_upto (take T ws) line T) by (rewrite ?length_take; lia).
    apply sum_upto_ext. intros k Hk. rewrite nth_take_lt by exact Hk. reflexivity. }
  rewrite Hy in Hstep, Hr'.
  set (y := sum_upto T (fun k => nth k ws f0 ⊗ nth k line f0)) in *.
  set (e := d ⊖ y) in *.
  set (ws' := zip_with (LMS.adapt (LMS._mu (this w)) e) (take T ws) line ++ drop T ws) in *.
  assert (length (zip_with (LMS.adapt (LMS._mu (this w)) e) (take T ws) line) = T) as Hzl.
  { rewrite length_zip_with, length_take. lia. }
  eexists _, ws', (shift_in x line).
  split; [exact Hstep|]. split; [reflexivity|]. split; [exact Hr'|].
  split; [|split; [|split; [|split; [|split; [|split]]]]].
  - subst ws'. rewrite length_app, Hzl, length_drop. lia.
  - intros k Hk. subst ws'. rewrite app_nth1 by lia.
    rewrite nth_zip_with_adapt by (rewrite ?length_take; lia).
    rewrite nth_take_lt by exact Hk. reflexivity.
  - intros k Hk. subst ws'. rewrite app_nth2 by lia.
    rewrite Hzl, !nth_lookup, lookup_drop. do 2 f_equal. lia.
  - rewrite length_shift_in. exact Hll.
  - intros HT. rewrite nth_lookup, shift_in_lookup_0 by lia. reflexivity.
  - intros k Hk. rewrite !nth_lookup, shift_in_lookup_S by lia. reflexivity.
  - intros xs ds n. rewrite lms_processBuffer_cons.
    rewrite (bind_Ok _ _ _ _ _ Hstep). unfold bind, ret. simpl.
    destruct (LMS.processBuffer xs ds n _) as [[r w'']|err]; reflexivity.
Qed.

(** C8.  [setMu v] returns, after it [getMu] is [v], the heap (every weight
    and every delay-line element) and every other member are as before, and
    on a filter in working order the next sample is processed with step
    size [v]: each weight moves by [v * e * line[k]]. *)
Theorem lms_setMu_effect w (v : float32_t) :
  exists w',
    LMS.setMu v w = Ok (tt, w') /\
    LMS.getMu (this w') = v /\
    mem w' = mem w /\
    LMS._coeffs (this w') = LMS._coeffs (this w) /\
    LMS._state (this w') = LMS._state (this w) /\
    LMS._numTaps (this w') = LMS._numTaps (this w) /\
    LMS._blockSize (this w') = LMS._blockSize (this w) /\
    forall c s ws line x d,
      LMS.ready w c s ws line ->
      let T := Z.to_nat (LMS._numTaps (this w)) in
      let y := dot (take T ws) line in
      let e := d ⊖ y in
      LMS.processSample x d w' =
      Ok ((y, e),
          World (this w')
            (<[s := shift_in x line]>
               (<[c := zip_with (LMS.adapt v e) (take T ws) line ++ drop T ws]>
                  (mem w)))).
Proof.
  eexists. split; [apply setMu_unfold|].
  repeat (split; [reflexivity|]).
  intros c s ws line x d Hr. cbv zeta.
  apply (lms_processSample_ready _ c s ws line x d (setMu_ready v w c s ws line Hr)).
Qed.

(** C10.  A [resetCoefficients] call that returns has assigned no member
    of the object (step size, tap count, block size, the two pointers and
    the embedded instance are as before); in the heap no array appeared,
    disappeared or changed length, every array other than the coefficient
    and state arrays is unchanged, those two are unchanged from index [T]
    on, and the first [T] elements of the state array are zero.  On a
    filter in working order the next sample is therefore
    adapted with the step size in force before the reset. *)
Theorem lms_reset_frame w (newCoeffs : ptr) w' :
  LMS.resetCoefficients newCoeffs w = Ok (tt, w') ->
  this w' = this w /\
  LMS.getMu (this w') = LMS.getMu (this w) /\
  LMS.mu (LMS._lmsInstance (this w')) = LMS.mu (LMS._lmsInstance (this w)) /\
  touches_only (LMS._coeffs (this w)) (LMS._state (this w))
    (Z.to_nat (LMS._numTaps (this w))) (mem w) (mem w') /\
  (forall s line,
     LMS._state (this w) = Some s -> mem w !! s = Some line ->
     let T := Z.to_nat (LMS._numTaps (this w)) in
     mem w' !! s = Some (replicate T f0 ++ drop T line)) /\
  forall c s ws line x d,
    LMS.ready w' c s ws line ->
    let T := Z.to_nat (LMS._numTaps (this w)) in
    let e := d ⊖ dot (take T ws) line in
    exists w'',
      LMS.processSample x d w' = Ok ((dot (take T ws) line, e), w'') /\
      mem w'' !! c
      = Some (zip_with (LMS.adapt (LMS.getMu (this w)) e) (take T ws) line ++ drop T ws).
Proof.
  intros Hreset. destruct (resetCoefficients_touch _ _ _ _ Hreset) as [Hthis Htouch].
  split; [exact Hthis|]. rewrite Hthis.
  split; [reflexivity|]. split; [reflexivity|]. split; [exact Htouch|].
  split; [intros s line Hs Hline; exact (resetCoefficients_state_zero _ _ _ _ _ _ Hreset Hs Hline)|].
  intros c s ws line x d Hr. cbv zeta.
  destruct (lms_processSample_ready w' c s ws line x d Hr) as [Hstep Hr'].
  cbv zeta in Hstep, Hr'. rewrite Hthis in Hstep, Hr'.
  eexists. split; [exact Hstep|]. apply Hr'.
Qed.

End LMSProperties.

Section LMSReset.
Context {float32_t : Type} `{Arith float32_t}.
Hypothesis Fth : ring_laws float32_t.
Local Abbreviation heap := (gmap loc (list float32_t)).
Implicit Types (w : world (LMS.LMSFilter float32_t) heap).
Implicit Types (ws line vs : list float32_t) (x d : float32_t).

(** C6.  On an LMS filter in working order, whatever its weights [ws] and
    delay line [line] have become, [resetCoefficients(nullptr)] returns and
    leaves the [T] weights zero and the whole [T]-element delay line zero,
    and the next [processSample] call, for any input and reference, returns
    [y = 0]; [resetCoefficients(p)] with [p] pointing to [T] values or more
    returns and leaves the [T] weights equal to the first [T] values at [p]
    and the whole delay line zero. *)
Theorem lms_reset_coefficients w c s ws line :
  LMS.ready w c s ws line ->
  let T := Z.to_nat (LMS._numTaps (this w)) in
  (exists w1,
     LMS.resetCoefficients nullptr w = Ok (tt, w1) /\
     mem w1 !! c = Some (replicate T f0 ++ drop T ws) /\
     mem w1 !! s = Some (replicate T f0) /\
     forall x d, exists e w2, LMS.processSample x d w1 = Ok ((f0, e), w2)) /\
  (forall p vs,
     p <> s -> mem w !! p = Some vs -> T <= length vs ->
     exists w1,
       LMS.resetCoefficients (Some p) w = Ok (tt, w1) /\
       mem w1 !! c = Some (take T vs ++ drop T ws) /\
       mem w1 !! s = Some (replicate T f0)).
Proof.
  intros Hr. cbv zeta. split.
  - destruct (lms_reset_null_ready w c s ws line Hr) as [Hreset Hr1].
    cbv zeta in Hreset, Hr1. eexists. split; [exact Hreset|].
    split; [apply Hr1|]. split; [apply Hr1|].
    intros x d.
    destruct (lms_processSample_ready _ c s _ _ x d Hr1) as [Hstep _].
    cbv zeta in Hstep. simpl this in Hstep.
    rewrite (dot_zero_r Fth) in Hstep. eexists _, _. exact Hstep.
  - intros p vs Hps Hp Hlv.
    destruct (lms_reset_ptr_ready w c s ws line p vs Hr Hps Hp Hlv) as [Hreset Hr1].
    cbv zeta in Hreset, Hr1. eexists. split; [exact Hreset|].
    split; apply Hr1.
Qed.

End LMSReset.

(** * The IIR engine *)

Section IIRProperties.
Context {float32_t : Type} `{Arith float32_t}.
Local Abbreviation heap := (gmap loc (list float32_t)).
Implicit Types (h : heap) (w : world IIR.IIRFilter heap).
Implicit Types (cs st xs : list float32_t) (x u : float32_t).

Lemma section_output_take cs st n j u :
  j < n -> section_output (take (5 * n) cs) st j u = section_output cs st j u.
Proof.
  intros Hj. unfold section_output.
  rewrite !nth_lookup, !lookup_take_lt by lia. reflexivity.
Qed.

Lemma section_input_take cs st x n i :
  i <= n -> section_input (take (5 * n) cs) st x i = section_input cs st x i.
Proof.
  induction i as [|i IH]; intros Hi; [reflexivity|].
  cbn [section_input]. rewrite IH by lia. apply section_output_take. lia.
Qed.

Lemma iir_processBuffer_cons x xs n w :
  IIR.processBuffer (x :: xs) (S n) w =
  (y <- IIR.processSample x ;; ys <- IIR.processBuffer xs n ;; ret (y :: ys)) w.
Proof.
  rewrite iir_processBuffer_unfold.
  change (IIR.iir_block ?i (x :: xs) 0 (S n))
    with (x0 <- array_get (x :: xs) 0 ;;
          y <- IIR.iir_sample i x0 ;;
          ys <- IIR.iir_block i (x :: xs) 1 n ;;
          ret (y :: ys)).
  unfold bind, array_get.
  change ((x :: xs) !! 0) with (Some x).
  unfold ret at 1. rewrite iir_processSample_unfold.
  destruct (IIR.iir_sample _ x (mem w)) as [[y h1]|e]; [|reflexivity].
  rewrite iir_processBuffer_unfold, iir_block_tail. simpl.
  destruct (IIR.iir_block _ xs 0 n h1) as [[ys h2]|e]; reflexivity.
Qed.

(** C5.  On an IIR filter in working order with [S] sections, one
    [processSample x] call feeds [x] to section 0 and the output of section
    [i] to section [i + 1], and returns the output of the last section.
    Section [i] computes [y = b0*x + b1*x1 + b2*x2 - a1*y1 - a2*y2] from its
    input [x], its coefficients [cs[5i .. 5i+4]] and its state slice
    [st[4i .. 4i+3] = {x1, x2, y1, y2}], and leaves the slice
    [{x, x1, y, y1}] behind.  A [processBuffer] call is this step on the
    first sample followed by the block call on the rest. *)
Theorem iir_section_recursion w c s cs st x :
  IIR.ready w c s cs st ->
  let stages := Z.to_nat (IIR._numStages (this w)) in
  let input := section_input cs st x in
  exists w' st',
    IIR.processSample x w = Ok (input stages, w') /\
    this w' = this w /\
    IIR.ready w' c s cs st' /\
    (forall i, i < stages ->
       input (i + 1) =
         nth (5 * i) cs f0 ⊗ input i
         ⊕ nth (5 * i + 1) cs f0 ⊗ nth (4 * i) st f0
         ⊕ nth (5 * i + 2) cs f0 ⊗ nth (4 * i + 1) st f0
         ⊖ nth (5 * i + 3) cs f0 ⊗ nth (4 * i + 2) st f0
         ⊖ nth (5 * i + 4) cs f0 ⊗ nth (4 * i + 3) st f0 /\
       nth (4 * i) st' f0 = input i /\
       nth (4 * i + 1) st' f0 = nth (4 * i) st f0 /\
       nth (4 * i + 2) st' f0 = input (i + 1) /\
       nth (4 * i + 3) st' f0 = nth (4 * i + 2) st f0) /\
    forall xs n,
      IIR.processBuffer (x :: xs) (S n) w =
      match IIR.processBuffer xs n w' with
      | Ok (ys, w'') => Ok (input stages :: ys, w'')
      | Fault err => Fault err
      end.
Proof.
  intros Hr. cbv zeta.
  destruct (iir_processSample_ready w c s cs st x Hr) as [Hstep Hr'].
  cbv zeta in Hstep, Hr'.
  destruct Hr as [Hcons Hc Hs Hcs Hmc Hms Hlc Hls].
  set (n := Z.to_nat (IIR._numStages (this w))) in *.
  destruct (biquad_cascade_spec n (take (5 * n) cs) st x) as [Hout Hslices].
  { rewrite length_take. lia. }
  { lia. }
  rewrite section_input_take in Hout by lia. rewrite Hout in Hstep.
  eexists _, _. split; [exact Hstep|]. split; [reflexivity|]. split; [exact Hr'|].
  split.
  - intros i Hi. replace (i + 1) with (S i) by lia.
    destruct (Hslices i Hi) as (E0 & E1 & E2 & E3).
    rewrite !section_input_take in E0, E2 by lia.
    repeat split; assumption || reflexivity.
  - intros xs m. rewrite iir_processBuffer_cons.
    rewrite (bind_Ok _ _ _ _ _ Hstep). unfold bind, ret.
    destruct (IIR.processBuffer xs m _) as [[ys w'']|err]; reflexivity.
Qed.

End IIRProperties.

(** * The FIR engine, zero input, block calls, state arrays *)

Section FIRProperties.
Context {float32_t : Type} `{Arith float32_t}.
Hypothesis Fth : ring_laws float32_t.
Local Abbreviation heap := (gmap loc (list float32_t)).
Implicit Types (h : heap) (cs : list float32_t).

(** C3.  For a coefficient array [cs] of [T >= 1] values and a block size
    [B >= 1], construction returns a filter, and feeding it the unit impulse
    (one followed by [T - 1] zeros) through successive [processSample] calls
    returns exactly [cs]: output [k] is [cs[k]]. *)
Theorem fir_impulse_response h c cs T B :
  h !! c = Some cs -> Z.of_nat (length cs) = T -> (1 <= T)%Z -> (1 <= B)%Z ->
  exists f h' w',
    FIR.FIRFilter_new (Some c) T B h = Ok (f, h') /\
    each FIR.processSample (f1 :: replicate (length cs - 1) f0) (World f h')
    = Ok (cs, w').
Proof.
  intros Hcs Hlen HT HB.
  destruct (fir_new_ready h c cs T B Hcs ltac:(lia) HB ltac:(lia))
    as (f & s & Hnew & Hfresh & HfT & HfB & Hr).
  destruct (fir_each_ready (f1 :: replicate (length cs - 1) f0) _ c s cs _ _ Hr)
    as [Hrun _].
  cbv zeta in Hrun. simpl this in Hrun. rewrite HfT in Hrun.
  rewrite take_ge in Hrun by lia.
  replace (Z.to_nat T) with (length cs) in Hrun by lia.
  rewrite (fir_outputs_impulse Fth cs (length cs)) in Hrun by lia.
  eexists _, _, _. split; [exact Hnew | exact Hrun].
Qed.

Lemma iir_zero_sample (w : world IIR.IIRFilter heap) c s cs :
  IIR.ready w c s cs (replicate (4 * Z.to_nat (IIR._numStages (this w))) f0) ->
  IIR.processSample f0 w = Ok (f0, w).
Proof.
  intros Hr.
  destruct (iir_processSample_ready w c s cs _ f0 Hr) as [Hstep _].
  cbv zeta in Hstep. rewrite (biquad_cascade_zero Fth) in Hstep. simpl in Hstep.
  rewrite insert_id in Hstep by apply Hr. destruct w. exact Hstep.
Qed.

Lemma iir_zero_each (w : world IIR.IIRFilter heap) c s cs N :
  IIR.ready w c s cs (replicate (4 * Z.to_nat (IIR._numStages (this w))) f0) ->
  each IIR.processSample (replicate N f0) w = Ok (replicate N f0, w).
Proof.
  intros Hr. induction N as [|N IH]; [reflexivity|].
  simpl. rewrite (bind_Ok _ _ _ _ _ (iir_zero_sample w c s cs Hr)).
  rewrite (bind_Ok _ _ _ _ _ IH). reflexivity.
Qed.

(** C9.  A freshly constructed FIR filter ([T >= 0] taps, block size
    [B >= 1]) or IIR filter ([S >= 0] sections), fed [N] zeros through
    [processSample] calls or through one [processBuffer] call, returns [N]
    zeros and is left exactly as constructed, its state array all zero. *)
Theorem zero_input_zero_output :
  (forall h c cs T B N,
     h !! c = Some cs -> (0 <= T)%Z -> (1 <= B)%Z -> Z.to_nat T <= length cs ->
     exists f s,
       let w0 := World f (<[s := replicate (Z.to_nat (T + B - 1)) f0]> h) in
       FIR.FIRFilter_new (Some c) T B h = Ok (f, mem w0) /\
       FIR._state f = Some s /\
       each FIR.processSample (replicate N f0) w0 = Ok (replicate N f0, w0) /\
       FIR.processBuffer (replicate N f0) N w0 = Ok (replicate N f0, w0)) /\
  (forall h c cs stages B N,
     h !! c = Some cs -> (0 <= stages)%Z -> 5 * Z.to_nat stages <= length cs ->
     exists f s,
       let w0 := World f (<[s := replicate (Z.to_nat (4 * stages)) f0]> h) in
       IIR.IIRFilter_new (Some c) stages B h = Ok (f, mem w0) /\
       IIR._state f = Some s /\
       each IIR.processSample (replicate N f0) w0 = Ok (replicate N f0, w0) /\
       IIR.processBuffer (replicate N f0) N w0 = Ok (replicate N f0, w0)).
Proof.
  split.
  - intros h c cs T B N Hcs HT HB Hlen.
    destruct (fir_new_ready h c cs T B Hcs HT HB Hlen)
      as (f & s & Hnew & Hfresh & HfT & HfB & Hr).
    exists f, s. cbv zeta. split; [exact Hnew|]. split; [apply Hr|].
    destruct (fir_each_ready (replicate N f0) _ c s cs _ _ Hr) as [Hrun _].
    cbv zeta in Hrun. simpl this in Hrun. simpl mem in Hrun.
    rewrite (fir_outputs_zero Fth), fir_line_zero in Hrun.
    rewrite insert_insert_eq, <- replicate_add in Hrun.
    replace (Z.to_nat T + Z.to_nat (B - 1)) with (Z.to_nat (T + B - 1)) in Hrun by lia.
    split; [exact Hrun|].
    rewrite <- (length_replicate N f0) at 2.
    rewrite <- fir_each_block. exact Hrun.
  - intros h c cs stages B N Hcs HS Hlen.
    destruct (iir_new_ready h c cs stages B Hcs HS Hlen)
      as (f & s & Hnew & Hfresh & HfS & HfB & Hr).
    exists f, s. cbv zeta. split; [exact Hnew|]. split; [apply Hr|].
    assert (each IIR.processSample (replicate N f0)
              (World f (<[s := replicate (Z.to_nat (4 * stages)) f0]> h))
            = Ok (replicate N f0,
                  World f (<[s := replicate (Z.to_nat (4 * stages)) f0]> h))) as Hrun.
    { apply (iir_zero_each _ c s cs). simpl this. rewrite HfS.
      replace (4 * Z.to_nat stages) with (Z.to_nat (4 * stages)) by lia. exact Hr. }
    split; [exact Hrun|].
    rewrite <- (length_replicate N f0) at 2.
    rewrite <- iir_each_block. exact Hrun.
Qed.

End FIRProperties.

Section Returns.
Context {float32_t : Type} `{Arith float32_t}.
Local Abbreviation heap := (gmap loc (list float32_t)).
Implicit Types (cs line rest st ws xs ds : list float32_t).

Lemma fir_outputs_length cs xs : forall line,
  length (fir_outputs cs line xs) = length xs.
Proof.
  induction xs as [|x xs IH]; intros line; [reflexivity|].
  simpl. rewrite IH. reflexivity.
Qed.

Lemma fir_each_returns xs (w : world FIR.FIRFilter heap) c s cs line rest :
  FIR.ready w c s cs line rest ->
  exists ys w', each FIR.processSample xs w = Ok (ys, w') /\ length ys = length xs.
Proof.
  intros Hr. destruct (fir_each_ready xs w c s cs line rest Hr) as [Hrun _].
  eexists _, _. split; [exact Hrun | apply fir_outputs_length].
Qed.

Lemma iir_each_returns xs : forall (w : world IIR.IIRFilter heap) c s cs st,
  IIR.ready w c s cs st ->
  exists ys w', each IIR.processSample xs w = Ok (ys, w') /\ length ys = length xs.
Proof.
  induction xs as [|x xs IH]; intros w c s cs st Hr.
  - exists [], w. split; reflexivity.
  - destruct (iir_processSample_ready w c s cs st x Hr) as [Hstep Hr1].
    destruct (IH _ c s cs _ Hr1) as (ys & w' & Hrun & Hlen).
    eexists (_ :: ys), w'. simpl.
    rewrite (bind_Ok _ _ _ _ _ Hstep), (bind_Ok _ _ _ _ _ Hrun).
    split; [reflexivity | simpl; congruence].
Qed.

Lemma lms_feed_returns xs :
  forall ds (w : world (LMS.LMSFilter float32_t) heap) c s ws line,
  length xs <= length ds -> LMS.ready w c s ws line ->
  exists ys es w',
    LMS.feed xs ds w = Ok ((ys, es), w') /\
    length ys = length xs /\ length es = length xs.
Proof.
  induction xs as [|x xs IH]; intros ds w c s ws line Hlen Hr.
  - exists [], [], w. destruct ds; repeat split; reflexivity.
  - destruct ds as [|d ds]; [simpl in Hlen; lia|].
    destruct (lms_processSample_ready w c s ws line x d Hr) as [Hstep Hr1].
    destruct (IH ds _ c s _ _ ltac:(simpl in Hlen; lia) Hr1)
      as (ys & es & w' & Hrun & Hly & Hle).
    eexists (_ :: ys), (_ :: es), w'. simpl.
    rewrite (bind_Ok _ _ _ _ _ Hstep), (bind_Ok _ _ _ _ _ Hrun).
    repeat split; simpl; congruence.
Qed.

End Returns.

Section Construction.
Context {float32_t : Type} `{Arith float32_t}.
Local Abbreviation heap := (gmap loc (list float32_t)).
Implicit Types (h : heap) (coeffs : ptr).

Lemma heap_new_inv h n p h' :
  heap_new n h = Ok (p, h') ->
  exists s, p = Some s /\ h !! s = None /\
            h' = <[s := replicate (Z.to_nat n) f0]> h /\ (0 <= n)%Z.
Proof.
  unfold heap_new. case_decide; [discriminate|].
  intros Heq. inversion Heq; subst.
  exists (fresh (dom h)). repeat split; [apply heap_new_fresh | lia].
Qed.

(** The wrapper of the embedding is the wrapper over the modelled kernel. *)
Lemma fir_wrapper_modelled_kernel x xs n (w : world FIR.FIRFilter heap) :
  FIR.processSample x w = FIRWrapper.processSample FIR.arm_fir_f32 x w /\
  FIR.processBuffer xs n w = FIRWrapper.processBuffer FIR.arm_fir_f32 xs n w.
Proof. split; reflexivity. Qed.

(** C4, as amended.  The FIR constructor checks none of its arguments and
    reports nothing: for any coefficient pointer, null included, and any
    [uint16_t] values [T] and [B] with [T + B >= 1], [T = 0] and [B = 0]
    included, whenever the allocation of the [T + B - 1] state elements is
    satisfied it returns a filter that records the arguments as given, in
    itself and in the instance it embeds, and owns that fresh all-zero
    array.  (With [T + B >= 1] the two versions of the constructor in the
    repository ask for the same length.)  Nor does the wrapper keep such a
    filter from being used: whatever the kernel, [processSample] and
    [processBuffer] hand it the call and return what it returns.
    [T >= 1], [B >= 1] and a non-null pointer are left to the caller. *)
Theorem fir_construction_unchecked h coeffs T B p h1 :
  is_uint16 T -> is_uint16 B -> (1 <= T + B)%Z ->
  heap_new (T + B - 1) h = Ok (p, h1) ->
  exists f s,
    FIR.FIRFilter_new coeffs T B h = Ok (f, h1) /\
    p = Some s /\ h !! s = None /\
    h1 = <[s := replicate (Z.to_nat (T + B - 1)) f0]> h /\
    FIR._coeffs f = coeffs /\ FIR._state f = Some s /\
    FIR._numTaps f = T /\ FIR._blockSize f = B /\
    FIR.consistent f /\
    forall arm_fir_f32,
      (forall x ys h2,
         arm_fir_f32 (FIR._firInstance f) [x] 1 h1 = Ok (ys, h2) ->
         FIRWrapper.processSample arm_fir_f32 x (World f h1)
         = Ok (default f0 (ys !! 0), World f h2)) /\
      (forall xs n ys h2,
         arm_fir_f32 (FIR._firInstance f) xs n h1 = Ok (ys, h2) ->
         FIRWrapper.processBuffer arm_fir_f32 xs n (World f h1)
         = Ok (ys, World f h2)).
Proof.
  intros _ _ _ Hnew. pose proof Hnew as Hinv.
  apply heap_new_inv in Hinv as (s & -> & Hfresh & Hh1 & _).
  unfold FIR.FIRFilter_new. rewrite (bind_Ok _ _ _ _ _ Hnew).
  eexists _, s. split; [reflexivity|].
  do 3 (split; [first [reflexivity | assumption]|]).
  do 4 (split; [reflexivity|]).
  split; [repeat split|].
  intros kernel. split.
  - intros x ys h2 Hk.
    unfold FIRWrapper.processSample, bind, get_this, on_mem.
    cbn [this mem]. rewrite Hk. reflexivity.
  - intros xs n ys h2 Hk.
    unfold FIRWrapper.processBuffer, bind, get_this, on_mem.
    cbn [this mem]. rewrite Hk. reflexivity.
Qed.

(** C7.  The state array is sized by the construction parameters alone and
    starts all zero: a constructor that returns (on [uint16_t] tap counts
    and block sizes, [uint8_t] section counts) has allocated a fresh array
    of exactly [T + B - 1] (FIR), [4 * S] (IIR) or [T] (LMS) zeros.  No
    operation resizes it: a [processSample], [processBuffer] or
    [resetCoefficients] call that returns has assigned no member and left
    every array in the heap at its length, and [setMu] leaves the state
    pointer and the whole heap as they were. *)
Theorem state_buffer_length :
  (forall h coeffs T B f h',
     is_uint16 T -> is_uint16 B ->
     FIR.FIRFilter_new coeffs T B h = Ok (f, h') ->
     exists s st, FIR._state f = Some s /\ h !! s = None /\ h' !! s = Some st /\
                  Z.of_nat (length st) = (T + B - 1)%Z /\
                  st = replicate (length st) f0) /\
  (forall h coeffs stages B f h',
     is_uint8 stages -> is_uint16 B ->
     IIR.IIRFilter_new coeffs stages B h = Ok (f, h') ->
     exists s st, IIR._state f = Some s /\ h !! s = None /\ h' !! s = Some st /\
                  Z.of_nat (length st) = (4 * stages)%Z /\
                  st = replicate (length st) f0) /\
  (forall h coeffs T (m : float32_t) B f h',
     is_uint16 T -> is_uint16 B ->
     LMS.LMSFilter_new coeffs T m B h = Ok (f, h') ->
     exists s st, LMS._state f = Some s /\ h !! s = None /\ h' !! s = Some st /\
                  Z.of_nat (length st) = T /\
                  st = replicate (length st) f0) /\
  (forall x, preserves (members_kept same_shape) (FIR.processSample x)) /\
  (forall xs n, preserves (members_kept same_shape) (FIR.processBuffer xs n)) /\
  (forall x, preserves (members_kept same_shape) (IIR.processSample x)) /\
  (forall xs n, preserves (members_kept same_shape) (IIR.processBuffer xs n)) /\
  (forall x d, preserves (members_kept same_shape) (LMS.processSample x d)) /\
  (forall xs ds n, preserves (members_kept same_shape) (LMS.processBuffer xs ds n)) /\
  (forall p, preserves (members_kept same_shape) (LMS.resetCoefficients p)) /\
  (forall v : float32_t,
     preserves (fun w w' => LMS._state (this w') = LMS._state (this w) /\
                            mem w' = mem w)
       (LMS.setMu v)).
Proof.
  repeat apply conj.
  - intros h coeffs T B f h' _ _. unfold FIR.FIRFilter_new. intros Heq.
    apply bind_inv in Heq as (p & h1 & Hnew & Hret).
    apply heap_new_inv in Hnew as (s & -> & Hfresh & -> & Hn).
    inversion Hret; subst. eexists s, _. simpl.
    rewrite lookup_insert_eq, length_replicate.
    repeat split; [exact Hfresh | lia].
  - intros h coeffs stages B f h' _ _. unfold IIR.IIRFilter_new. intros Heq.
    apply bind_inv in Heq as (p & h1 & Hnew & Hret).
    apply heap_new_inv in Hnew as (s & -> & Hfresh & -> & Hn).
    inversion Hret; subst. eexists s, _. simpl.
    rewrite lookup_insert_eq, length_replicate.
    repeat split; [exact Hfresh | lia].
  - intros h coeffs T m B f h' _ _. unfold LMS.LMSFilter_new. intros Heq.
    apply bind_inv in Heq as (p & h1 & Hnew & Hret).
    apply heap_new_inv in Hnew as (s & -> & Hfresh & -> & Hn).
    inversion Hret; subst. eexists s, _. simpl.
    rewrite lookup_insert_eq, length_replicate.
    repeat split; [exact Hfresh | lia].
  - apply fir_processSample_shape.
  - apply fir_processBuffer_shape.
  - apply iir_processSample_shape.
  - apply iir_processBuffer_shape.
  - apply lms_processSample_shape.
  - apply lms_processBuffer_shape.
  - intros p w [] w' Hreset.
    destruct (resetCoefficients_touch _ _ _ _ Hreset) as [Hthis Htouch].
    split; [exact Hthis | eapply touches_only_same_shape, Htouch].
  - intros v w u w' Hset. rewrite setMu_unfold in Hset.
    inversion Hset; subst. split; reflexivity.
Qed.

(** C1.  For each of the three engines, feeding a sequence through
    [processSample], one call per sample, and passing it to one
    [processBuffer] call of the same length are the same computation: from
    any filter and heap they return, or fail to return, alike, with the same
    output sequence (and error sequence for LMS), the same object and the
    same heap, hence the same weights and state.  On a filter in working
    order both do return, with one output (and one error) per sample. *)
Theorem sample_block_equivalence :
  (forall xs w, each FIR.processSample xs w = FIR.processBuffer xs (length xs) w) /\
  (forall xs w, each IIR.processSample xs w = IIR.processBuffer xs (length xs) w) /\
  (forall xs ds (w : world (LMS.LMSFilter float32_t) heap),
     length xs <= length ds ->
     LMS.feed xs ds w = LMS.processBuffer xs ds (length xs) w) /\
  (forall xs w c s cs line rest,
     FIR.ready w c s cs line rest ->
     exists ys w',
       FIR.processBuffer xs (length xs) w = Ok (ys, w') /\ length ys = length xs) /\
  (forall xs w c s cs st,
     IIR.ready w c s cs st ->
     exists ys w',
       IIR.processBuffer xs (length xs) w = Ok (ys, w') /\ length ys = length xs) /\
  (forall xs ds (w : world (LMS.LMSFilter float32_t) heap) c s ws line,
     length xs <= length ds -> LMS.ready w c s ws line ->
     exists ys es w',
       LMS.processBuffer xs ds (length xs) w = Ok ((ys, es), w') /\
       length ys = length xs /\ length es = length xs).
Proof.
  repeat apply conj.
  - intros xs w. apply fir_each_block.
  - intros xs w. apply iir_each_block.
  - intros xs ds w Hlen. apply lms_feed_block. exact Hlen.
  - intros xs w c s cs line rest Hr. rewrite <- fir_each_block.
    apply (fir_each_returns xs w c s cs line rest Hr).
  - intros xs w c s cs st Hr. rewrite <- iir_each_block.
    apply (iir_each_returns xs w c s cs st Hr).
  - intros xs ds w c s ws line Hlen Hr. rewrite <- lms_feed_block by exact Hlen.
    apply (lms_feed_returns xs ds w c s ws line Hlen Hr).
Qed.

End Construction.

(** C4, as the design states it, fails for each of the three defects it
    names.  With no taps, with a block size of zero and with a null
    coefficient pointer alike, the constructor returns, and the filter it
    returns takes a sample as soon as the kernel does: nothing in the
    wrapper stands in between.  The kernel here is one that writes zeros. *)
Lemma fir_construction_checked_cex :
  ~ (forall arm_fir_f32 (coeffs : ptr) (T B : Z) (h : gmap loc (list Z)),
       is_uint16 T -> is_uint16 B -> T = 0%Z ->
       FIRWrapper.refused arm_fir_f32 coeffs T B h) /\
  ~ (forall arm_fir_f32 (coeffs : ptr) (T B : Z) (h : gmap loc (list Z)),
       is_uint16 T -> is_uint16 B -> B = 0%Z ->
       FIRWrapper.refused arm_fir_f32 coeffs T B h) /\
  ~ (forall arm_fir_f32 (coeffs : ptr) (T B : Z) (h : gmap loc (list Z)),
       is_uint16 T -> is_uint16 B -> coeffs = nullptr ->
       FIRWrapper.refused arm_fir_f32 coeffs T B h).
Proof.
  split; [|split]; intros Hall.
  - specialize (Hall (fun _ _ n => ret (replicate n 0%Z))
                  (Some 1%positive) 0%Z 1%Z Example.caller_heap
                  ltac:(unfold is_uint16; lia) ltac:(unfold is_uint16; lia)
                  eq_refl).
    vm_compute in Hall. destruct (Hall 5%Z) as [e He]. discriminate He.
  - specialize (Hall (fun _ _ n => ret (replicate n 0%Z))
                  (Some 1%positive) 3%Z 0%Z Example.caller_heap
                  ltac:(unfold is_uint16; lia) ltac:(unfold is_uint16; lia)
                  eq_refl).
    vm_compute in Hall. destruct (Hall 5%Z) as [e He]. discriminate He.
  - specialize (Hall (fun _ _ n => ret (replicate n 0%Z))
                  nullptr 3%Z 2%Z Example.caller_heap
                  ltac:(unfold is_uint16; lia) ltac:(unfold is_uint16; lia)
                  eq_refl).
    vm_compute in Hall. destruct (Hall 5%Z) as [e He]. discriminate He.
Qed.

(** * The statements on concrete filters *)

Section Witnesses.
Local Open Scope Z_scope.

(** The integers satisfy the laws assumed of the arithmetic. *)
Lemma Z_ring_laws : ring_laws Z.
Proof. exact Zth. Qed.

(** The example filters are what the constructors return on the caller's
    heap. *)
Lemma example_fir_constructed :
  FIR.FIRFilter_new (Some 1%positive) 3 2 Example.caller_heap
  = Ok (Example.fir, Example.heap_with [0; 0; 0; 0]).
Proof. vm_compute. reflexivity. Qed.

Lemma example_iir_constructed :
  IIR.IIRFilter_new (Some 3%positive) 2 1 Example.caller_heap
  = Ok (Example.iir, Example.heap_with [0; 0; 0; 0; 0; 0; 0; 0]).
Proof. vm_compute. reflexivity. Qed.

Lemma example_lms_constructed :
  LMS.LMSFilter_new (Some 1%positive) 3 2 1 Example.caller_heap
  = Ok (Example.lms, Example.heap_with [0; 0; 0]).
Proof. vm_compute. reflexivity. Qed.

(** Discharge a side condition on a concrete filter by evaluation. *)
Ltac evaluate :=
  first [ reflexivity | discriminate | (cbn; lia)
        | (unfold is_uint8, is_uint16; lia) | (vm_compute; reflexivity) ].

Ltac ready_by_evaluation :=
  constructor; [repeat split; reflexivity | evaluate ..].

(** Three samples through the example LMS filter, one at a time and as one
    block. *)
Lemma sample_block_equivalence_witness :
  LMS.feed [1; 1; 1] [5; 5; 5] (World Example.lms (Example.heap_with [0; 0; 0]))
  = LMS.processBuffer [1; 1; 1] [5; 5; 5] 3
      (World Example.lms (Example.heap_with [0; 0; 0])).
Proof.
  apply (proj1 (proj2 (proj2 (@sample_block_equivalence Z Z_arith)))). cbn. lia.
Defined.

(** Weights [3; 5; 7] against the delay line [1; 0; 2] give [y = 17]; with
    [d = 5] the error is [-12]. *)
Lemma lms_update_four_steps_witness :
  exists w',
    LMS.processSample 1 5 (World Example.lms (Example.heap_with [1; 0; 2]))
    = Ok ((17, -12), w').
Proof.
  destruct (lms_update_four_steps
              (World Example.lms (Example.heap_with [1; 0; 2]))
              1%positive 4%positive [3; 5; 7] [1; 0; 2] 1 5)
    as (w' & ws' & line' & Hstep & _).
  - ready_by_evaluation.
  - exists w'. exact Hstep.
Defined.

(** The impulse [1; 0; 0] through a fresh three-tap filter reads out
    [3; 5; 7]. *)
Lemma fir_impulse_response_witness :
  exists f h' w',
    FIR.FIRFilter_new (Some 1%positive) 3 2 Example.caller_heap = Ok (f, h') /\
    each FIR.processSample [1; 0; 0] (World f h') = Ok ([3; 5; 7], w').
Proof.
  apply (fir_impulse_response Z_ring_laws Example.caller_heap 1%positive [3; 5; 7] 3 2);
    evaluate.
Defined.

(** Construction with no taps and a null coefficient pointer returns a
    filter, and a kernel that writes zeros is handed the sample. *)
Lemma fir_construction_unchecked_witness :
  exists f,
    FIR.FIRFilter_new nullptr 0 1 Example.caller_heap
    = Ok (f, <[4%positive := []]> Example.caller_heap) /\
    FIR._coeffs f = nullptr /\ FIR._numTaps f = 0 /\
    FIRWrapper.processSample (fun _ _ n => ret (replicate n 0)) 5
      (World f (<[4%positive := []]> Example.caller_heap))
    = Ok (0, World f (<[4%positive := []]> Example.caller_heap)).
Proof.
  destruct (fir_construction_unchecked Example.caller_heap nullptr 0 1
              (Some 4%positive) (<[4%positive := []]> Example.caller_heap))
    as (f & s & Hnew & _ & _ & _ & Hc & _ & HT & _ & _ & Hkernel); try evaluate.
  exists f. split; [exact Hnew|]. split; [exact Hc|]. split; [exact HT|].
  exact (proj1 (Hkernel (fun _ _ n => ret (replicate n 0))) 5 [0] _ eq_refl).
Defined.

(** One sample through the two-section example cascade. *)
Lemma iir_section_recursion_witness :
  exists w',
    IIR.processSample 1
      (World Example.iir (Example.heap_with [1; 2; 3; 4; 5; 6; 7; 8]))
    = Ok (-27, w').
Proof.
  destruct (iir_section_recursion
              (World Example.iir (Example.heap_with [1; 2; 3; 4; 5; 6; 7; 8]))
              3%positive 4%positive [1; 2; 3; 4; 5; 1; 1; 1; 1; 1]
              [1; 2; 3; 4; 5; 6; 7; 8] 1)
    as (w' & st' & Hstep & _).
  - ready_by_evaluation.
  - exists w'. exact Hstep.
Defined.

(** After a reset to zero the example LMS filter answers [y = 0]. *)
Lemma lms_reset_coefficients_witness :
  exists w1,
    LMS.resetCoefficients nullptr (World Example.lms (Example.heap_with [1; 0; 2]))
    = Ok (tt, w1) /\
    forall x d, exists e w2, LMS.processSample x d w1 = Ok ((0, e), w2).
Proof.
  destruct (lms_reset_coefficients Z_ring_laws
              (World Example.lms (Example.heap_with [1; 0; 2]))
              1%positive 4%positive [3; 5; 7] [1; 0; 2])
    as [(w1 & Hreset & _ & _ & Hnext) _].
  - ready_by_evaluation.
  - exists w1. split; [exact Hreset | exact Hnext].
Defined.

(** The example FIR filter, three taps and block size two, owns four
    zeros. *)
Lemma state_buffer_length_witness :
  exists s st,
    FIR._state Example.fir = Some s /\
    Example.heap_with [0; 0; 0; 0] !! s = Some st /\
    Z.of_nat (length st) = 3 + 2 - 1.
Proof.
  destruct (proj1 (@state_buffer_length Z Z_arith)
              Example.caller_heap (Some 1%positive) 3 2
              Example.fir (Example.heap_with [0; 0; 0; 0]))
    as (s & st & Hs & _ & Hst & Hlen & _); try evaluate.
  exists s, st. repeat split; assumption.
Defined.

(** After [setMu 7] the example LMS filter adapts with step size 7. *)
Lemma lms_setMu_effect_witness :
  exists w' w'',
    LMS.setMu 7 (World Example.lms (Example.heap_with [1; 0; 2])) = Ok (tt, w') /\
    LMS.getMu (this w') = 7 /\
    LMS.processSample 1 5 w' = Ok ((17, -12), w'') /\
    mem w'' !! 1%positive = Some [3 + 7 * -12 * 1; 5 + 7 * -12 * 0; 7 + 7 * -12 * 2].
Proof.
  destruct (lms_setMu_effect (World Example.lms (Example.heap_with [1; 0; 2])) 7)
    as (w' & Hset & Hget & _ & _ & _ & _ & _ & Hnext).
  specialize (Hnext 1%positive 4%positive [3; 5; 7] [1; 0; 2] 1 5).
  eexists w', _. split; [exact Hset|]. split; [exact Hget|].
  split.
  - apply Hnext. ready_by_evaluation.
  - vm_compute. reflexivity.
Defined.

(** Five zeros through a fresh example FIR filter. *)
Lemma zero_input_zero_output_witness :
  exists f s,
    FIR.FIRFilter_new (Some 1%positive) 3 2 Example.caller_heap
    = Ok (f, <[s := [0; 0; 0; 0]]> Example.caller_heap) /\
    FIR.processBuffer [0; 0; 0; 0; 0] 5
      (World f (<[s := [0; 0; 0; 0]]> Example.caller_heap))
    = Ok ([0; 0; 0; 0; 0], World f (<[s := [0; 0; 0; 0]]> Example.caller_heap)).
Proof.
  destruct (proj1 (zero_input_zero_output Z_ring_laws)
              Example.caller_heap 1%positive [3; 5; 7] 3 2 5%nat)
    as (f & s & Hnew & _ & _ & Hblock); try evaluate.
  exists f, s. split; [exact Hnew | exact Hblock].
Defined.

(** A reset of the example LMS filter keeps the object and its step
    size. *)
Lemma lms_reset_frame_witness :
  LMS.getMu
    (this (World Example.lms
             (<[4%positive := [0; 0; 0]]> (<[1%positive := [0; 0; 0]]>
                (Example.heap_with [1; 0; 2])))))
  = LMS.getMu Example.lms.
Proof.
  apply (lms_reset_frame (World Example.lms (Example.heap_with [1; 0; 2])) nullptr).
  vm_compute. reflexivity.
Defined.

End Witnesses.

(** * Further properties of the wrappers *)

(** ** Construction and destruction *)

Section Lifetimes.
Context {float32_t : Type} `{Arith float32_t}.
Local Abbreviation heap := (gmap loc (list float32_t)).
Implicit Types (h : heap) (coeffs : ptr) (cs xs : list float32_t).

Lemma heap_delete_insert h s (st : list float32_t) :
  h !! s = None ->
  Lifetime.heap_delete (Some s) (<[s := st]> h) = Ok (tt, h).
Proof.
  intros Hfresh. unfold Lifetime.heap_delete.
  rewrite lookup_insert_eq, delete_insert_eq, delete_id by exact Hfresh.
  reflexivity.
Qed.

Lemma iir_each_ready xs : forall (w : world IIR.IIRFilter heap) c s cs st,
  IIR.ready w c s cs st ->
  exists ys st',
    each IIR.processSample xs w = Ok (ys, World (this w) (<[s := st']> (mem w))) /\
    length ys = length xs.
Proof.
  induction xs as [|x xs IH]; intros w c s cs st Hr.
  - exists [], st. simpl. unfold ret. rewrite insert_id by apply Hr.
    destruct w. split; reflexivity.
  - destruct (iir_processSample_ready w c s cs st x Hr) as [Hstep Hr1].
    destruct (IH _ c s cs _ Hr1) as (ys & st' & Hrun & Hlen).
    simpl in Hrun. rewrite insert_insert_eq in Hrun.
    eexists (_ :: ys), st'. simpl.
    rewrite (bind_Ok _ _ _ _ _ Hstep), (bind_Ok _ _ _ _ _ Hrun).
    split; [reflexivity | simpl; congruence].
Qed.

Lemma lms_feed_ready xs :
  forall ds (w : world (LMS.LMSFilter float32_t) heap) c s ws line,
  length xs <= length ds -> LMS.ready w c s ws line ->
  exists ys es ws' line',
    LMS.feed xs ds w
      = Ok ((ys, es), World (this w) (<[s := line']> (<[c := ws']> (mem w)))) /\
    length ys = length xs /\ length es = length xs /\
    length ws' = length ws /\
    drop (Z.to_nat (LMS._numTaps (this w))) ws'
      = drop (Z.to_nat (LMS._numTaps (this w))) ws /\
    LMS.ready (World (this w) (<[s := line']> (<[c := ws']> (mem w)))) c s ws' line'.
Proof.
  induction xs as [|x xs IH]; intros ds w c s ws line Hlen Hr.
  - exists [], [], ws, line.
    assert (<[s := line]> (<[c := ws]> (mem w)) = mem w) as Hid.
    { rewrite (insert_id (mem w) c) by apply Hr. apply insert_id, Hr. }
    rewrite Hid. destruct w as [f m]. simpl.
    split; [destruct ds; reflexivity|].
    split; [reflexivity|]. split; [reflexivity|]. split; [reflexivity|].
    split; [reflexivity | exact Hr].
  - destruct ds as [|d ds]; [simpl in Hlen; lia|].
    destruct (lms_processSample_ready w c s ws line x d Hr) as [Hstep Hr1].
    cbv zeta in Hstep, Hr1.
    pose proof (LMS.ready_ws_len _ _ _ _ _ Hr) as Hlw.
    pose proof (LMS.ready_line_len _ _ _ _ _ Hr) as Hll.
    pose proof (LMS.ready_distinct _ _ _ _ _ Hr) as Hcs.
    set (T := Z.to_nat (LMS._numTaps (this w))) in *.
    set (e := d ⊖ dot (take T ws) line) in *.
    assert (length (zip_with (LMS.adapt (LMS._mu (this w)) e) (take T ws) line) = T)
      as Hz.
    { rewrite length_zip_with, length_take. lia. }
    set (ws1 := zip_with (LMS.adapt (LMS._mu (this w)) e) (take T ws) line
                ++ drop T ws) in *.
    assert (length ws1 = length ws) as Hl1.
    { subst ws1. rewrite length_app, Hz, length_drop. lia. }
    assert (drop T ws1 = drop T ws) as Hd1.
    { subst ws1. apply drop_app_length'. symmetry. exact Hz. }
    destruct (IH ds _ c s _ _ ltac:(simpl in Hlen; lia) Hr1)
      as (ys & es & ws' & line' & Hrun & Hly & Hle & Hlw' & Hdw & Hr2).
    simpl this in *. simpl mem in *. fold T in Hdw.
    assert (<[s := line']> (<[c := ws']> (<[s := shift_in x line]> (<[c := ws1]> (mem w))))
            = <[s := line']> (<[c := ws']> (mem w))) as Hheap.
    { rewrite (insert_insert_ne _ c s) by exact Hcs.
      rewrite !insert_insert_eq. reflexivity. }
    rewrite Hheap in Hrun, Hr2.
    eexists (_ :: ys), (_ :: es), ws', line'. simpl.
    rewrite (bind_Ok _ _ _ _ _ Hstep), (bind_Ok _ _ _ _ _ Hrun).
    split; [reflexivity|].
    split; [simpl; congruence|]. split; [simpl; congruence|].
    split; [congruence|]. split; [congruence | exact Hr2].
Qed.

End Lifetimes.

Section ScopedFilters.
Context {float32_t : Type} `{Arith float32_t}.
Local Abbreviation heap := (gmap loc (list float32_t)).
Implicit Types (h : heap) (cs xs ds ws : list float32_t).

Lemma FIRFilter_delete_fresh (f : FIR.FIRFilter) h s (st : list float32_t) :
  FIR._state f = Some s -> h !! s = None ->
  Lifetime.FIRFilter_delete (World f (<[s := st]> h)) = Ok (tt, World f h).
Proof.
  intros Hs Hfresh. unfold Lifetime.FIRFilter_delete, bind, get_this, on_mem.
  simpl. rewrite Hs, (heap_delete_insert h s st Hfresh). reflexivity.
Qed.

Lemma IIRFilter_delete_fresh (f : IIR.IIRFilter) h s (st : list float32_t) :
  IIR._state f = Some s -> h !! s = None ->
  Lifetime.IIRFilter_delete (World f (<[s := st]> h)) = Ok (tt, World f h).
Proof.
  intros Hs Hfresh. unfold Lifetime.IIRFilter_delete, bind, get_this, on_mem.
  simpl. rewrite Hs, (heap_delete_insert h s st Hfresh). reflexivity.
Qed.

Lemma LMSFilter_delete_fresh (f : LMS.LMSFilter float32_t) h s (st : list float32_t) :
  LMS._state f = Some s -> h !! s = None ->
  Lifetime.LMSFilter_delete (World f (<[s := st]> h)) = Ok (tt, World f h).
Proof.
  intros Hs Hfresh. unfold Lifetime.LMSFilter_delete, bind, get_this, on_mem.
  simpl. rewrite Hs, (heap_delete_insert h s st Hfresh). reflexivity.
Qed.

(** X3.  A FIR or IIR filter constructed over [T] (or [5 S])
    coefficients, used to filter any sequence, by [processSample] calls or
    by one [processBuffer] call, and destroyed, returns one output per
    sample and leaves the heap exactly as it found it: the coefficients are
    only read, and the state array is released.  For FIR the outputs are
    those of the coefficients against a delay line that starts at zero. *)
Theorem scoped_filter_restores_heap :
  (forall h c cs T B xs,
     h !! c = Some cs -> (0 <= T)%Z -> (1 <= B)%Z -> Z.to_nat T <= length cs ->
     let ys := fir_outputs (take (Z.to_nat T) cs) (replicate (Z.to_nat T) f0) xs in
     Lifetime.with_FIRFilter (Some c) T B (each FIR.processSample xs) h = Ok (ys, h) /\
     Lifetime.with_FIRFilter (Some c) T B (FIR.processBuffer xs (length xs)) h
     = Ok (ys, h)) /\
  (forall h c cs stages B xs,
     h !! c = Some cs -> (0 <= stages)%Z -> 5 * Z.to_nat stages <= length cs ->
     exists ys,
       length ys = length xs /\
       Lifetime.with_IIRFilter (Some c) stages B (each IIR.processSample xs) h
       = Ok (ys, h) /\
       Lifetime.with_IIRFilter (Some c) stages B (IIR.processBuffer xs (length xs)) h
       = Ok (ys, h)).
Proof.
  split.
  - intros h c cs T B xs Hcs HT HB Hlen. cbv zeta.
    destruct (fir_new_ready h c cs T B Hcs HT HB Hlen)
      as (f & s & Hnew & Hfresh & HfT & HfB & Hr).
    destruct (fir_each_ready xs _ c s cs _ _ Hr) as [Hrun Hr'].
    cbv zeta in Hrun. simpl this in Hrun. simpl mem in Hrun.
    rewrite insert_insert_eq, HfT in Hrun.
    assert (forall body,
      body (World f (<[s := replicate (Z.to_nat (T + B - 1)) f0]> h)) =
      each FIR.processSample xs (World f (<[s := replicate (Z.to_nat (T + B - 1)) f0]> h)) ->
      Lifetime.with_FIRFilter (Some c) T B body h
      = Ok (fir_outputs (take (Z.to_nat T) cs) (replicate (Z.to_nat T) f0) xs, h)) as Hany.
    { intros body Hbody. unfold Lifetime.with_FIRFilter. rewrite Hnew.
      unfold bind at 1. rewrite Hbody, Hrun.
      unfold bind. rewrite (FIRFilter_delete_fresh f h s _ (FIR.ready_state _ _ _ _ _ _ Hr) Hfresh).
      reflexivity. }
    split; apply Hany; [reflexivity | symmetry; apply fir_each_block].
  - intros h c cs stages B xs Hcs HS Hlen.
    destruct (iir_new_ready h c cs stages B Hcs HS Hlen)
      as (f & s & Hnew & Hfresh & HfS & HfB & Hr).
    destruct (iir_each_ready xs _ c s cs _ Hr) as (ys & st' & Hrun & Hly).
    simpl this in Hrun. simpl mem in Hrun. rewrite insert_insert_eq in Hrun.
    exists ys. split; [exact Hly|].
    assert (forall body,
      body (World f (<[s := replicate (Z.to_nat (4 * stages)) f0]> h)) =
      each IIR.processSample xs (World f (<[s := replicate (Z.to_nat (4 * stages)) f0]> h)) ->
      Lifetime.with_IIRFilter (Some c) stages B body h = Ok (ys, h)) as Hany.
    { intros body Hbody. unfold Lifetime.with_IIRFilter. rewrite Hnew.
      unfold bind at 1. rewrite Hbody, Hrun.
      unfold bind. rewrite (IIRFilter_delete_fresh f h s _ (IIR.ready_state _ _ _ _ _ Hr) Hfresh).
      reflexivity. }
    split; apply Hany; [reflexivity | symmetry; apply iir_each_block].
Qed.

(** X4.  An LMS filter constructed over the caller's [T] weights, fed any
    sequence of input and reference samples and destroyed, returns one
    output and one error per sample and leaves behind the caller's heap with
    only the first [T] elements of the coefficient array changed: the
    adapted weights outlive the filter, the state array is released. *)
Theorem scoped_lms_keeps_weights h c ws T (m : float32_t) B xs ds :
  h !! c = Some ws -> (0 <= T)%Z -> Z.to_nat T <= length ws ->
  length xs <= length ds ->
  exists ys es ws',
    Lifetime.with_LMSFilter (Some c) T m B (LMS.feed xs ds) h
    = Ok ((ys, es), <[c := ws']> h) /\
    Lifetime.with_LMSFilter (Some c) T m B (LMS.processBuffer xs ds (length xs)) h
    = Ok ((ys, es), <[c := ws']> h) /\
    length ys = length xs /\ length es = length xs /\
    length ws' = length ws /\ drop (Z.to_nat T) ws' = drop (Z.to_nat T) ws.
Proof.
  intros Hws HT Hlen Hxd.
  destruct (lms_new_ready h c ws T m B Hws HT Hlen)
    as (f & s & Hnew & Hfresh & HfT & Hfm & HfB & Hr).
  destruct (lms_feed_ready xs ds _ c s _ _ Hxd Hr)
    as (ys & es & ws' & line' & Hrun & Hly & Hle & Hlw & Hdw & Hr').
  simpl this in *. simpl mem in *. rewrite HfT in Hdw.
  pose proof (LMS.ready_distinct _ _ _ _ _ Hr) as Hcs.
  assert (<[s := line']> (<[c := ws']> (<[s := replicate (Z.to_nat T) f0]> h))
          = <[s := line']> (<[c := ws']> h)) as Hheap.
  { rewrite (insert_insert_ne _ c s) by exact Hcs.
    rewrite insert_insert_eq. reflexivity. }
  rewrite Hheap in Hrun.
  assert ((<[c := ws']> h) !! s = None) as Hfresh'.
  { rewrite lookup_insert_ne by exact Hcs. exact Hfresh. }
  exists ys, es, ws'.
  assert (forall body,
    body (World f (<[s := replicate (Z.to_nat T) f0]> h)) =
    LMS.feed xs ds (World f (<[s := replicate (Z.to_nat T) f0]> h)) ->
    Lifetime.with_LMSFilter (Some c) T m B body h = Ok ((ys, es), <[c := ws']> h))
    as Hany.
  { intros body Hbody. unfold Lifetime.with_LMSFilter. rewrite Hnew.
    unfold bind at 1. rewrite Hbody, Hrun. unfold bind.
    rewrite (LMSFilter_delete_fresh f _ s _ (LMS.ready_state _ _ _ _ _ Hr) Hfresh').
    reflexivity. }
  split; [apply Hany; reflexivity|].
  split; [apply Hany; symmetry; apply lms_feed_block; exact Hxd|].
  repeat split; assumption.
Qed.

End ScopedFilters.

(** ** Step size and reset *)

Section StepSizeAndReset.
Context {float32_t : Type} `{Arith float32_t}.
Local Abbreviation heap := (gmap loc (list float32_t)).
Implicit Types (h : heap) (w : world (LMS.LMSFilter float32_t) heap).
Implicit Types (ws line vs : list float32_t) (v : float32_t) (p : ptr).

(** X5.  [setMu] and [resetCoefficients] do not interfere: in either order
    they return, or fail to return, alike and leave the same object and the
    same heap. *)
Theorem setMu_reset_commute v p w :
  (_ <- LMS.setMu v ;; LMS.resetCoefficients p) w
  = (_ <- LMS.resetCoefficients p ;; LMS.setMu v) w.
Proof.
  unfold bind. rewrite setMu_unfold, !resetCoefficients_unfold. cbv zeta. simpl.
  match goal with |- context [match ?m (mem w) with _ => _ end] =>
    destruct (m (mem w)) as [[u h1]|e] end; [|reflexivity].
  destruct u. rewrite setMu_unfold. reflexivity.
Qed.

Lemma do_call_members (c : Session.call) w u w' :
  Session.do_call c w = Ok (u, w') ->
  LMS.consistent (this w) ->
  LMS.consistent (this w') /\
  LMS.getMu (this w') = Session.last_mu (LMS.getMu (this w)) [c] /\
  LMS._coeffs (this w') = LMS._coeffs (this w) /\
  LMS._state (this w') = LMS._state (this w) /\
  LMS._numTaps (this w') = LMS._numTaps (this w) /\
  LMS._blockSize (this w') = LMS._blockSize (this w) /\
  same_shape (mem w) (mem w').
Proof.
  intros Hcall Hcons.
  assert (members_kept same_shape w w' ->
          LMS.consistent (this w') /\
          LMS.getMu (this w') = LMS.getMu (this w) /\
          LMS._coeffs (this w') = LMS._coeffs (this w) /\
          LMS._state (this w') = LMS._state (this w) /\
          LMS._numTaps (this w') = LMS._numTaps (this w) /\
          LMS._blockSize (this w') = LMS._blockSize (this w) /\
          same_shape (mem w) (mem w')) as Hkept.
  { intros [-> Hshape]. repeat split; try reflexivity; try apply Hcons. exact Hshape. }
  destruct c as [x d|xs ds n|m|q]; simpl in Hcall |- *.
  - apply bind_inv in Hcall as (ye & w1 & Hstep & Hret).
    inversion Hret; subst. apply Hkept. eapply lms_processSample_shape, Hstep.
  - apply bind_inv in Hcall as (r & w1 & Hstep & Hret).
    inversion Hret; subst. apply Hkept. eapply lms_processBuffer_shape, Hstep.
  - rewrite setMu_unfold in Hcall. inversion Hcall; subst. simpl.
    destruct Hcons as (Hpc & Hps & Hnt & Hmu).
    repeat split; try assumption; try reflexivity.
  - apply Hkept. destruct u.
    destruct (resetCoefficients_touch _ _ _ _ Hcall) as [Hthis Htouch].
    split; [exact Hthis | eapply touches_only_same_shape, Htouch].
Qed.

(** X6.  Whatever sequence of [processSample], [processBuffer], [setMu]
    and [resetCoefficients] calls a constructed LMS filter has been through,
    [getMu] returns the argument of the last [setMu] (the constructor's step
    size if there was none) and the embedded instance holds the same value;
    the coefficient pointer, state pointer, tap count and block size are
    those of construction, and no array has changed its length. *)
Theorem session_step_size coeffs T (m : float32_t) B h f h1 cs us w' :
  LMS.LMSFilter_new coeffs T m B h = Ok (f, h1) ->
  each Session.do_call cs (World f h1) = Ok (us, w') ->
  LMS.getMu (this w') = Session.last_mu m cs /\
  LMS.mu (LMS._lmsInstance (this w')) = Session.last_mu m cs /\
  LMS._coeffs (this w') = coeffs /\
  LMS._state (this w') = LMS._state f /\
  LMS.pCoeffs (LMS._lmsInstance (this w')) = coeffs /\
  LMS.pState (LMS._lmsInstance (this w')) = LMS._state f /\
  LMS._numTaps (this w') = T /\
  LMS._blockSize (this w') = B /\
  same_shape h1 (mem w').
Proof.
  intros Hnew Hrun.
  assert (LMS.consistent f /\ LMS._coeffs f = coeffs /\ LMS._numTaps f = T /\
          LMS._blockSize f = B /\ LMS.getMu f = m) as (Hcons & Hfc & HfT & HfB & Hfm).
  { unfold LMS.LMSFilter_new in Hnew. cbv zeta in Hnew.
    apply bind_inv in Hnew as (q & h2 & _ & Hret). inversion Hret; subst.
    repeat split. }
  assert (forall cs w us w',
    each Session.do_call cs w = Ok (us, w') -> LMS.consistent (this w) ->
    LMS.consistent (this w') /\
    LMS.getMu (this w') = Session.last_mu (LMS.getMu (this w)) cs /\
    LMS._coeffs (this w') = LMS._coeffs (this w) /\
    LMS._state (this w') = LMS._state (this w) /\
    LMS._numTaps (this w') = LMS._numTaps (this w) /\
    LMS._blockSize (this w') = LMS._blockSize (this w) /\
    same_shape (mem w) (mem w')) as Hall.
  { clear. induction cs as [|c cs IH]; intros w us w' Hrun Hcons.
    - inversion Hrun; subst. repeat split; try reflexivity; apply Hcons.
    - simpl in Hrun. apply bind_inv in Hrun as (u & w1 & Hcall & Hrest).
      apply bind_inv in Hrest as (us' & w2 & Hrest & Hret). inversion Hret; subst.
      destruct (do_call_members c w u w1 Hcall Hcons)
        as (Hc1 & Hm1 & Hp1 & Hs1 & Ht1 & Hb1 & Hsh1).
      destruct (IH w1 us' w' Hrest Hc1) as (Hc2 & Hm2 & Hp2 & Hs2 & Ht2 & Hb2 & Hsh2).
      split; [exact Hc2|]. split.
      + rewrite Hm2, Hm1. destruct c; reflexivity.
      + split; [congruence|]. split; [congruence|]. split; [congruence|].
        split; [congruence|]. eapply same_shape_trans; eassumption. }
  destruct (Hall cs _ us w' Hrun Hcons) as (Hc & Hm & Hp & Hs & Ht & Hb & Hsh).
  simpl this in *. simpl mem in *.
  destruct Hc as (Hpc & Hps & Hnt & Hmu). unfold LMS.getMu in *.
  repeat split; congruence || assumption.
Qed.

End StepSizeAndReset.

Section ResetEdges.
Context {float32_t : Type} `{Arith float32_t}.
Local Abbreviation heap := (gmap loc (list float32_t)).
Implicit Types (h : heap) (w : world (LMS.LMSFilter float32_t) heap).
Implicit Types (ws line vs us : list float32_t) (p : ptr).

(** X7.  On an LMS filter in working order a second [resetCoefficients]
    with the same argument changes nothing more: after a reset to zero, or
    to a vector held in an array of the caller's other than the coefficient
    array, the same call again returns and leaves object and heap as the
    first left them. *)
Theorem lms_reset_idempotent w c s ws line :
  LMS.ready w c s ws line ->
  (exists w1,
     LMS.resetCoefficients nullptr w = Ok (tt, w1) /\
     LMS.resetCoefficients nullptr w1 = Ok (tt, w1)) /\
  (forall q vs,
     q <> c -> q <> s -> mem w !! q = Some vs ->
     Z.to_nat (LMS._numTaps (this w)) <= length vs ->
     exists w1,
       LMS.resetCoefficients (Some q) w = Ok (tt, w1) /\
       LMS.resetCoefficients (Some q) w1 = Ok (tt, w1)).
Proof.
  intros Hr. pose proof (LMS.ready_ws_len _ _ _ _ _ Hr) as Hlw.
  set (T := Z.to_nat (LMS._numTaps (this w))) in *. split.
  - destruct (lms_reset_null_ready w c s ws line Hr) as [Hreset Hr1].
    cbv zeta in Hreset, Hr1. fold T in Hreset, Hr1.
    eexists. split; [exact Hreset|].
    destruct (lms_reset_null_ready _ c s _ _ Hr1) as [Hagain _].
    cbv zeta in Hagain. simpl this in Hagain. simpl mem in Hagain. fold T in Hagain.
    rewrite Hagain.
    rewrite drop_app_length' by (rewrite length_replicate; reflexivity).
    rewrite (insert_insert_ne _ c s) by apply Hr.
    rewrite !insert_insert_eq. reflexivity.
  - intros q vs Hqc Hqs Hq Hlv.
    destruct (lms_reset_ptr_ready w c s ws line q vs Hr Hqs Hq Hlv) as [Hreset Hr1].
    cbv zeta in Hreset, Hr1. fold T in Hreset, Hr1.
    eexists. split; [exact Hreset|].
    destruct (lms_reset_ptr_ready _ c s _ _ q vs Hr1 Hqs) as [Hagain _].
    { simpl. rewrite !lookup_insert_ne by congruence. exact Hq. }
    { exact Hlv. }
    cbv zeta in Hagain. simpl this in Hagain. simpl mem in Hagain. fold T in Hagain.
    rewrite Hagain.
    rewrite drop_app_length' by (rewrite length_take; lia).
    rewrite (insert_insert_ne _ c s) by apply Hr.
    rewrite !insert_insert_eq. reflexivity.
Qed.

(** X8.  The default argument and an explicit zero vector are the same
    reset, and a reset with the filter's own coefficient array as the new
    vector keeps every weight and only clears the delay line. *)
Theorem lms_reset_special_vectors w c s ws line :
  LMS.ready w c s ws line ->
  let T := Z.to_nat (LMS._numTaps (this w)) in
  (forall q vs,
     q <> s -> mem w !! q = Some vs -> T <= length vs ->
     take T vs = replicate T f0 ->
     LMS.resetCoefficients (Some q) w = LMS.resetCoefficients nullptr w) /\
  LMS.resetCoefficients (LMS._coeffs (this w)) w
  = Ok (tt, World (this w) (<[s := replicate T f0]> (mem w))).
Proof.
  intros Hr. cbv zeta. split.
  - intros q vs Hqs Hq Hlv Hzero.
    destruct (lms_reset_ptr_ready w c s ws line q vs Hr Hqs Hq Hlv) as [-> _].
    destruct (lms_reset_null_ready w c s ws line Hr) as [-> _].
    cbv zeta. rewrite Hzero. reflexivity.
  - rewrite (LMS.ready_coeffs _ _ _ _ _ Hr).
    destruct (lms_reset_ptr_ready w c s ws line c ws Hr) as [-> _].
    + apply Hr.
    + apply Hr.
    + apply Hr.
    + cbv zeta. rewrite take_drop, (insert_id (mem w) c) by apply Hr. reflexivity.
Qed.

Lemma copy_loop_short n : forall i dst src vs us h,
  dst <> src -> h !! dst = Some vs -> h !! src = Some us ->
  i <= length us -> length us < i + n -> i + n <= length vs ->
  LMS.copy_loop (Some dst) (Some src) i n h = Fault OutOfBounds.
Proof.
  induction n as [|n IH]; intros i dst src vs us h Hne Hd Hs Hi Hshort Hlv; [lia|].
  simpl. destruct (decide (i = length us)) as [->|Hlt].
  - unfold bind, heap_load. rewrite Hs.
    rewrite (lookup_ge_None_2 us (length us)) by lia. reflexivity.
  - destruct (lookup_lt_is_Some_2 us i ltac:(lia)) as [v Hv].
    rewrite (bind_Ok _ _ _ _ _ (heap_load_Ok h src us i v Hs Hv)).
    rewrite (bind_Ok _ _ _ _ _ (heap_store_Ok h dst vs i v Hd ltac:(lia))).
    apply (IH (S i) dst src (<[i := v]> vs) us).
    + exact Hne.
    + apply lookup_insert_eq.
    + rewrite lookup_insert_ne by exact Hne. exact Hs.
    + lia.
    + lia.
    + rewrite length_insert. lia.
Qed.

(** X9.  [resetCoefficients] does not know the length of the vector it
    is given: on a filter in working order a vector of fewer than [T]
    values makes it read past the end of that array.  With no taps it
    touches nothing, whatever the pointers. *)
Theorem lms_reset_bounds :
  (forall w c s ws line q vs,
     LMS.ready w c s ws line ->
     mem w !! q = Some vs -> length vs < Z.to_nat (LMS._numTaps (this w)) ->
     LMS.resetCoefficients (Some q) w = Fault OutOfBounds) /\
  (forall w p, LMS._numTaps (this w) = 0%Z -> LMS.resetCoefficients p w = Ok (tt, w)).
Proof.
  split.
  - intros w c s ws line q vs [Hcons Hc Hs Hcs Hws Hline Hlw Hll] Hq Hshort.
    rewrite resetCoefficients_unfold. cbv zeta. rewrite Hc.
    assert (c <> q) as Hne.
    { intros ->. assert (vs = ws) by congruence. subst. lia. }
    unfold bind.
    rewrite (copy_loop_short (Z.to_nat (LMS._numTaps (this w))) 0 c q ws vs (mem w)
               Hne Hws Hq ltac:(lia) ltac:(lia) ltac:(lia)).
    reflexivity.
  - intros [f hp] p HT. rewrite resetCoefficients_unfold. cbv zeta.
    simpl in *. rewrite HT. destruct p; reflexivity.
Qed.

End ResetEdges.

(** ** Blocks: splitting, prefixes, overruns *)

Section Blocks.
Context {float32_t : Type} `{Arith float32_t}.
Local Abbreviation heap := (gmap loc (list float32_t)).
Implicit Types (h : heap) (xs ds : list float32_t).

Lemma fir_block_split inst xs n : forall i m h,
  FIR.fir_block inst xs i (n + m) h =
  (ys <- FIR.fir_block inst xs i n ;;
   zs <- FIR.fir_block inst xs (i + n) m ;;
   ret (ys ++ zs)) h.
Proof.
  induction n as [|n IH]; intros i m h.
  - simpl. unfold bind, ret. rewrite Nat.add_0_r.
    destruct (FIR.fir_block inst xs i m h) as [[zs h1]|e]; reflexivity.
  - change (FIR.fir_block inst xs i (S n + m))
      with (x <- array_get xs i ;; y <- FIR.fir_sample inst x ;;
            ys <- FIR.fir_block inst xs (S i) (n + m) ;; ret (y :: ys)).
    change (FIR.fir_block inst xs i (S n))
      with (x <- array_get xs i ;; y <- FIR.fir_sample inst x ;;
            ys <- FIR.fir_block inst xs (S i) n ;; ret (y :: ys)).
    unfold bind.
    destruct (array_get xs i h) as [[x h0]|e]; [|reflexivity].
    destruct (FIR.fir_sample inst x h0) as [[y h1]|e]; [|reflexivity].
    rewrite IH. unfold bind, ret. replace (i + S n) with (S i + n) by lia.
    destruct (FIR.fir_block inst xs (S i) n h1) as [[ys h2]|e]; [|reflexivity].
    destruct (FIR.fir_block inst xs (S i + n) m h2) as [[zs h3]|e]; reflexivity.
Qed.

Lemma fir_block_drop inst xs k m : forall i h,
  FIR.fir_block inst xs (k + i) m h = FIR.fir_block inst (drop k xs) i m h.
Proof.
  induction m as [|m IH]; intros i h; [reflexivity|].
  simpl. unfold bind, array_get. rewrite lookup_drop.
  destruct (xs !! (k + i)) as [x|]; [|reflexivity]. simpl.
  destruct (FIR.fir_sample inst x h) as [[y h1]|e]; [|reflexivity].
  replace (S (k + i)) with (k + S i) by lia. rewrite IH. reflexivity.
Qed.

Lemma fir_block_take inst xs n : forall i h,
  FIR.fir_block inst (take (i + n) xs) i n h = FIR.fir_block inst xs i n h.
Proof.
  induction n as [|n IH]; intros i h; [reflexivity|].
  simpl. unfold bind, array_get. rewrite lookup_take_lt by lia.
  destruct (xs !! i) as [x|]; [|reflexivity]. simpl.
  destruct (FIR.fir_sample inst x h) as [[y h1]|e]; [|reflexivity].
  replace (i + S n) with (S i + n) by lia. rewrite IH. reflexivity.
Qed.

Lemma fir_block_overrun inst xs n : forall i h,
  length xs <= i -> FIR.fir_block inst xs i (S n) h = Fault OutOfBounds.
Proof.
  intros i h Hi. simpl. unfold bind, array_get.
  rewrite (lookup_ge_None_2 xs i Hi). reflexivity.
Qed.

Lemma fir_processBuffer_split xs n m (w : world FIR.FIRFilter heap) :
  FIR.processBuffer xs (n + m) w =
  (ys <- FIR.processBuffer xs n ;;
   zs <- FIR.processBuffer (drop n xs) m ;;
   ret (ys ++ zs)) w.
Proof.
  rewrite fir_processBuffer_unfold, (fir_block_split _ xs n 0 m).
  unfold bind at 3. rewrite fir_processBuffer_unfold. unfold bind at 1.
  destruct (FIR.fir_block _ xs 0 n (mem w)) as [[ys h1]|e]; [|reflexivity].
  unfold bind. rewrite fir_processBuffer_unfold. simpl this. simpl mem.
  rewrite <- (fir_block_drop _ xs n m 0), Nat.add_0_r. simpl.
  destruct (FIR.fir_block _ xs n m h1) as [[zs h2]|e]; reflexivity.
Qed.

Lemma fir_processBuffer_prefix xs n (w : world FIR.FIRFilter heap) :
  FIR.processBuffer (take n xs) n w = FIR.processBuffer xs n w.
Proof.
  rewrite !fir_processBuffer_unfold.
  rewrite (fir_block_take _ xs n 0). reflexivity.
Qed.

Lemma iir_block_split inst xs n : forall i m h,
  IIR.iir_block inst xs i (n + m) h =
  (ys <- IIR.iir_block inst xs i n ;;
   zs <- IIR.iir_block inst xs (i + n) m ;;
   ret (ys ++ zs)) h.
Proof.
  induction n as [|n IH]; intros i m h.
  - simpl. unfold bind, ret. rewrite Nat.add_0_r.
    destruct (IIR.iir_block inst xs i m h) as [[zs h1]|e]; reflexivity.
  - change (IIR.iir_block inst xs i (S n + m))
      with (x <- array_get xs i ;; y <- IIR.iir_sample inst x ;;
            ys <- IIR.iir_block inst xs (S i) (n + m) ;; ret (y :: ys)).
    change (IIR.iir_block inst xs i (S n))
      with (x <- array_get xs i ;; y <- IIR.iir_sample inst x ;;
            ys <- IIR.iir_block inst xs (S i) n ;; ret (y :: ys)).
    unfold bind.
    destruct (array_get xs i h) as [[x h0]|e]; [|reflexivity].
    destruct (IIR.iir_sample inst x h0) as [[y h1]|e]; [|reflexivity].
    rewrite IH. unfold bind, ret. replace (i + S n) with (S i + n) by lia.
    destruct (IIR.iir_block inst xs (S i) n h1) as [[ys h2]|e]; [|reflexivity].
    destruct (IIR.iir_block inst xs (S i + n) m h2) as [[zs h3]|e]; reflexivity.
Qed.

Lemma iir_block_drop inst xs k m : forall i h,
  IIR.iir_block inst xs (k + i) m h = IIR.iir_block inst (drop k xs) i m h.
Proof.
  induction m as [|m IH]; intros i h; [reflexivity|].
  simpl. unfold bind, array_get. rewrite lookup_drop.
  destruct (xs !! (k + i)) as [x|]; [|reflexivity]. simpl.
  destruct (IIR.iir_sample inst x h) as [[y h1]|e]; [|reflexivity].
  replace (S (k + i)) with (k + S i) by lia. rewrite IH. reflexivity.
Qed.

Lemma iir_block_take inst xs n : forall i h,
  IIR.iir_block inst (take (i + n) xs) i n h = IIR.iir_block inst xs i n h.
Proof.
  induction n as [|n IH]; intros i h; [reflexivity|].
  simpl. unfold bind, array_get. rewrite lookup_take_lt by lia.
  destruct (xs !! i) as [x|]; [|reflexivity]. simpl.
  destruct (IIR.iir_sample inst x h) as [[y h1]|e]; [|reflexivity].
  replace (i + S n) with (S i + n) by lia. rewrite IH. reflexivity.
Qed.

Lemma iir_block_overrun inst xs n : forall i h,
  length xs <= i -> IIR.iir_block inst xs i (S n) h = Fault OutOfBounds.
Proof.
  intros i h Hi. simpl. unfold bind, array_get.
  rewrite (lookup_ge_None_2 xs i Hi). reflexivity.
Qed.

Lemma iir_processBuffer_split xs n m (w : world IIR.IIRFilter heap) :
  IIR.processBuffer xs (n + m) w =
  (ys <- IIR.processBuffer xs n ;;
   zs <- IIR.processBuffer (drop n xs) m ;;
   ret (ys ++ zs)) w.
Proof.
  rewrite iir_processBuffer_unfold, (iir_block_split _ xs n 0 m).
  unfold bind at 3. rewrite iir_processBuffer_unfold. unfold bind at 1.
  destruct (IIR.iir_block _ xs 0 n (mem w)) as [[ys h1]|e]; [|reflexivity].
  unfold bind. rewrite iir_processBuffer_unfold. simpl this. simpl mem.
  rewrite <- (iir_block_drop _ xs n m 0), Nat.add_0_r. simpl.
  destruct (IIR.iir_block _ xs n m h1) as [[zs h2]|e]; reflexivity.
Qed.

Lemma iir_processBuffer_prefix xs n (w : world IIR.IIRFilter heap) :
  IIR.processBuffer (take n xs) n w = IIR.processBuffer xs n w.
Proof.
  rewrite !iir_processBuffer_unfold.
  rewrite (iir_block_take _ xs n 0). reflexivity.
Qed.

Lemma lms_block_split inst xs ds n : forall i m h,
  LMS.lms_block inst xs ds i (n + m) h =
  (r1 <- LMS.lms_block inst xs ds i n ;;
   r2 <- LMS.lms_block inst xs ds (i + n) m ;;
   ret (fst r1 ++ fst r2, snd r1 ++ snd r2)) h.
Proof.
  induction n as [|n IH]; intros i m h.
  - simpl. unfold bind, ret. rewrite Nat.add_0_r.
    destruct (LMS.lms_block inst xs ds i m h) as [[[ys es] h1]|e]; reflexivity.
  - change (LMS.lms_block inst xs ds i (S n + m))
      with (x <- array_get xs i ;; d <- array_get ds i ;;
            ye <- LMS.lms_sample inst x d ;;
            r <- LMS.lms_block inst xs ds (S i) (n + m) ;;
            ret (fst ye :: fst r, snd ye :: snd r)).
    change (LMS.lms_block inst xs ds i (S n))
      with (x <- array_get xs i ;; d <- array_get ds i ;;
            ye <- LMS.lms_sample inst x d ;;
            r <- LMS.lms_block inst xs ds (S i) n ;;
            ret (fst ye :: fst r, snd ye :: snd r)).
    unfold bind.
    destruct (array_get xs i h) as [[x h0]|e]; [|reflexivity].
    destruct (array_get ds i h0) as [[d h0']|e]; [|reflexivity].
    destruct (LMS.lms_sample inst x d h0') as [[ye h1]|e]; [|reflexivity].
    rewrite IH. unfold bind, ret. replace (i + S n) with (S i + n) by lia.
    destruct (LMS.lms_block inst xs ds (S i) n h1) as [[r1 h2]|e]; [|reflexivity].
    destruct (LMS.lms_block inst xs ds (S i + n) m h2) as [[r2 h3]|e]; reflexivity.
Qed.

Lemma lms_block_drop inst xs ds k m : forall i h,
  LMS.lms_block inst xs ds (k + i) m h
  = LMS.lms_block inst (drop k xs) (drop k ds) i m h.
Proof.
  induction m as [|m IH]; intros i h; [reflexivity|].
  simpl. unfold bind, array_get. rewrite !lookup_drop.
  destruct (xs !! (k + i)) as [x|]; [|reflexivity]. simpl.
  destruct (ds !! (k + i)) as [d|]; [|reflexivity]. simpl.
  destruct (LMS.lms_sample inst x d h) as [[ye h1]|e]; [|reflexivity].
  replace (S (k + i)) with (k + S i) by lia. rewrite IH. reflexivity.
Qed.

Lemma lms_block_overrun inst xs ds n : forall i h,
  length xs <= i \/ length ds <= i ->
  LMS.lms_block inst xs ds i (S n) h = Fault OutOfBounds.
Proof.
  intros i h Hi. simpl. unfold bind, array_get.
  destruct (xs !! i) as [x|] eqn:Ex; [|reflexivity]. simpl.
  destruct Hi as [Hi|Hi].
  - rewrite (lookup_ge_None_2 xs i Hi) in Ex. discriminate.
  - rewrite (lookup_ge_None_2 ds i Hi). reflexivity.
Qed.

Lemma lms_processBuffer_split xs ds n m
  (w : world (LMS.LMSFilter float32_t) heap) :
  LMS.processBuffer xs ds (n + m) w =
  (r1 <- LMS.processBuffer xs ds n ;;
   r2 <- LMS.processBuffer (drop n xs) (drop n ds) m ;;
   ret (fst r1 ++ fst r2, snd r1 ++ snd r2)) w.
Proof.
  rewrite lms_processBuffer_unfold, (lms_block_split _ xs ds n 0 m).
  unfold bind at 3. rewrite lms_processBuffer_unfold. unfold bind at 1.
  destruct (LMS.lms_block _ xs ds 0 n (mem w)) as [[r1 h1]|e]; [|reflexivity].
  unfold bind. rewrite lms_processBuffer_unfold. simpl this. simpl mem.
  rewrite <- (lms_block_drop _ xs ds n m 0), Nat.add_0_r. simpl.
  destruct (LMS.lms_block _ xs ds n m h1) as [[r2 h2]|e]; reflexivity.
Qed.

Lemma lms_block_take inst xs ds n : forall i h,
  LMS.lms_block inst (take (i + n) xs) (take (i + n) ds) i n h
  = LMS.lms_block inst xs ds i n h.
Proof.
  induction n as [|n IH]; intros i h; [reflexivity|].
  simpl. unfold bind, array_get. rewrite !lookup_take_lt by lia.
  destruct (xs !! i) as [x|]; [|reflexivity]. simpl.
  destruct (ds !! i) as [d|]; [|reflexivity]. simpl.
  destruct (LMS.lms_sample inst x d h) as [[ye h1]|e]; [|reflexivity].
  replace (i + S n) with (S i + n) by lia. rewrite IH. reflexivity.
Qed.

Lemma lms_processBuffer_prefix xs ds n
  (w : world (LMS.LMSFilter float32_t) heap) :
  LMS.processBuffer (take n xs) (take n ds) n w = LMS.processBuffer xs ds n w.
Proof.
  rewrite !lms_processBuffer_unfold.
  rewrite (lms_block_take _ xs ds n 0). reflexivity.
Qed.

(** X11.  [processBuffer] reads exactly the first [length] elements of the
    arrays it is given and does not know how long they are: elements beyond
    [length] play no part, and on a filter in working order a [length]
    greater than the number of elements in the input array (or, for LMS, in
    either array) makes the call read past the end. *)
Theorem processBuffer_bounds :
  (forall xs n (w : world FIR.FIRFilter heap),
     FIR.processBuffer (take n xs) n w = FIR.processBuffer xs n w) /\
  (forall xs n (w : world IIR.IIRFilter heap),
     IIR.processBuffer (take n xs) n w = IIR.processBuffer xs n w) /\
  (forall xs ds n (w : world (LMS.LMSFilter float32_t) heap),
     LMS.processBuffer (take n xs) (take n ds) n w = LMS.processBuffer xs ds n w) /\
  (forall xs n (w : world FIR.FIRFilter heap) c s cs line rest,
     FIR.ready w c s cs line rest -> length xs < n ->
     FIR.processBuffer xs n w = Fault OutOfBounds) /\
  (forall xs n (w : world IIR.IIRFilter heap) c s cs st,
     IIR.ready w c s cs st -> length xs < n ->
     IIR.processBuffer xs n w = Fault OutOfBounds) /\
  (forall xs ds n (w : world (LMS.LMSFilter float32_t) heap) c s ws line,
     LMS.ready w c s ws line -> length xs < n \/ length ds < n ->
     LMS.processBuffer xs ds n w = Fault OutOfBounds).
Proof.
  repeat apply conj.
  - apply fir_processBuffer_prefix.
  - apply iir_processBuffer_prefix.
  - apply lms_processBuffer_prefix.
  - intros xs n w c s cs line rest Hr Hn.
    replace n with (length xs + S (n - length xs - 1)) by lia.
    destruct (fir_each_returns xs w c s cs line rest Hr) as (ys & w1 & Hrun & _).
    rewrite fir_processBuffer_split. unfold bind at 1.
    rewrite <- fir_each_block, Hrun. unfold bind.
    rewrite fir_processBuffer_unfold, fir_block_overrun; [reflexivity|].
    rewrite length_drop. lia.
  - intros xs n w c s cs st Hr Hn.
    replace n with (length xs + S (n - length xs - 1)) by lia.
    destruct (iir_each_returns xs w c s cs st Hr) as (ys & w1 & Hrun & _).
    rewrite iir_processBuffer_split. unfold bind at 1.
    rewrite <- iir_each_block, Hrun. unfold bind.
    rewrite iir_processBuffer_unfold, iir_block_overrun; [reflexivity|].
    rewrite length_drop. lia.
  - intros xs ds n w c s ws line Hr Hn.
    set (k := min (length xs) (length ds)).
    replace n with (k + S (n - k - 1)) by lia.
    rewrite lms_processBuffer_split.
    assert (length (take k xs) = k) as Hkx by (rewrite length_take; lia).
    assert (length (take k ds) = k) as Hkd by (rewrite length_take; lia).
    destruct (lms_feed_returns (take k xs) (take k ds) w c s ws line
                ltac:(lia) Hr) as (ys & es & w1 & Hrun & _).
    rewrite lms_feed_block, Hkx, lms_processBuffer_prefix in Hrun by lia.
    unfold bind at 1. rewrite Hrun. unfold bind.
    rewrite lms_processBuffer_unfold, lms_block_overrun; [reflexivity|].
    rewrite !length_drop. lia.
Qed.

End Blocks.

(** ** After destruction *)

Section Destroyed.
Context {float32_t : Type} `{Arith float32_t}.
Local Abbreviation heap := (gmap loc (list float32_t)).

Lemma heap_read_dangling (h : heap) l n :
  h !! l = None -> heap_read (Some l) n h = Fault DanglingPointer.
Proof. unfold heap_read. intros ->. reflexivity. Qed.

(** X12.  The destructor releases the state array and nothing else; the
    classes declare no copy constructor, so a copy of a filter holds the
    same state pointer.  On a filter in working order the destructor
    returns; after it a second destructor call on the same members (the
    destructor of a copy) and any [processSample] call go through a
    dangling pointer.  The LMS weights stay with the caller. *)
Theorem destroyed_filter_faults :
  (forall (w : world FIR.FIRFilter heap) c s cs line rest x,
     FIR.ready w c s cs line rest ->
     let w' := World (this w) (delete s (mem w)) in
     Lifetime.FIRFilter_delete w = Ok (tt, w') /\
     Lifetime.FIRFilter_delete w' = Fault DanglingPointer /\
     FIR.processSample x w' = Fault DanglingPointer) /\
  (forall (w : world IIR.IIRFilter heap) c s cs st x,
     IIR.ready w c s cs st ->
     let w' := World (this w) (delete s (mem w)) in
     Lifetime.IIRFilter_delete w = Ok (tt, w') /\
     Lifetime.IIRFilter_delete w' = Fault DanglingPointer /\
     IIR.processSample x w' = Fault DanglingPointer) /\
  (forall (w : world (LMS.LMSFilter float32_t) heap) c s ws line x d,
     LMS.ready w c s ws line ->
     let w' := World (this w) (delete s (mem w)) in
     Lifetime.LMSFilter_delete w = Ok (tt, w') /\
     mem w' !! c = Some ws /\
     Lifetime.LMSFilter_delete w' = Fault DanglingPointer /\
     LMS.processSample x d w' = Fault DanglingPointer).
Proof.
  split; [|split].
  - intros w c s cs line rest x [(Hpc & Hps & Hnt) Hc Hs Hcs Hhc Hhs Hlc Hll]. cbv zeta.
    unfold Lifetime.FIRFilter_delete, bind, get_this, on_mem, Lifetime.heap_delete.
    simpl. rewrite Hs, Hhs, lookup_delete_eq. split; [reflexivity|].
    split; [reflexivity|].
    rewrite fir_processSample_unfold. simpl. unfold FIR.fir_sample. cbv zeta.
    rewrite Hpc, Hps, Hc, Hs.
    erewrite bind_Ok
      by (apply (heap_read_Ok _ c cs);
          [rewrite lookup_delete_ne by congruence; exact Hhc
          | rewrite Hnt; exact Hlc]).
    unfold bind. rewrite heap_read_dangling by apply lookup_delete_eq. reflexivity.
  - intros w c s cs st x [(Hpc & Hps & Hnt) Hc Hs Hcs Hhc Hhs Hlc Hll]. cbv zeta.
    unfold Lifetime.IIRFilter_delete, bind, get_this, on_mem, Lifetime.heap_delete.
    simpl. rewrite Hs, Hhs, lookup_delete_eq. split; [reflexivity|].
    split; [reflexivity|].
    rewrite iir_processSample_unfold. simpl. unfold IIR.iir_sample. cbv zeta.
    rewrite Hpc, Hps, Hc, Hs.
    erewrite bind_Ok
      by (apply (heap_read_Ok _ c cs);
          [rewrite lookup_delete_ne by congruence; exact Hhc
          | rewrite Hnt; exact Hlc]).
    unfold bind. rewrite heap_read_dangling by apply lookup_delete_eq. reflexivity.
  - intros w c s ws line x d [(Hpc & Hps & Hnt & Hmu) Hc Hs Hcs Hhc Hhs Hlc Hll]. cbv zeta.
    unfold Lifetime.LMSFilter_delete, bind, get_this, on_mem, Lifetime.heap_delete.
    simpl. rewrite Hs, Hhs, lookup_delete_eq. split; [reflexivity|].
    split; [rewrite lookup_delete_ne by congruence; exact Hhc|].
    split; [reflexivity|].
    rewrite lms_processSample_unfold. simpl. unfold LMS.lms_sample. cbv zeta.
    rewrite Hpc, Hps, Hc, Hs.
    erewrite bind_Ok
      by (apply (heap_read_Ok _ c ws);
          [rewrite lookup_delete_ne by congruence; exact Hhc
          | rewrite Hnt; exact Hlc]).
    unfold bind. rewrite heap_read_dangling by apply lookup_delete_eq. reflexivity.
Qed.
End Destroyed.

(** ** The example sketches *)

Section Sketches.
Context {float32_t : Type} `{Arith float32_t}.
Local Abbreviation heap := (gmap loc (list float32_t)).
Implicit Types (h : heap) (xs ds inputSignal : list float32_t).

Lemma fir_processBuffer_nil xs (w : world FIR.FIRFilter heap) :
  FIR.processBuffer xs 0 w = Ok ([], w).
Proof. rewrite fir_processBuffer_unfold. destruct w; reflexivity. Qed.

Lemma fir_block_length inst xs n : forall i h ys h',
  FIR.fir_block inst xs i n h = Ok (ys, h') -> length ys = n.
Proof.
  induction n as [|n IH]; intros i h ys h' Hrun.
  - inversion Hrun; reflexivity.
  - simpl in Hrun.
    apply bind_inv in Hrun as (x & h0 & _ & Hrun).
    apply bind_inv in Hrun as (y & h1 & _ & Hrun).
    apply bind_inv in Hrun as (zs & h2 & Hrest & Hret).
    inversion Hret; subst. simpl. f_equal. eapply IH, Hrest.
Qed.

Lemma fir_processBuffer_length xs n (w : world FIR.FIRFilter heap) ys w' :
  FIR.processBuffer xs n w = Ok (ys, w') -> length ys = n.
Proof.
  rewrite fir_processBuffer_unfold. unfold FIR.arm_fir_f32.
  destruct (FIR.fir_block _ xs 0 n (mem w)) as [[zs h1]|e] eqn:Hrun; [|discriminate].
  intros Heq. inversion Heq; subst. eapply fir_block_length, Hrun.
Qed.

Lemma process_in_blocks_concat B N inputSignal fuel :
  forall k (w : world FIR.FIRFilter heap),
  1 <= B -> N - k <= fuel ->
  (r <- Sketch.process_in_blocks fuel B N inputSignal k ;; ret (@concat float32_t <$> r)) w
  = (ys <- FIR.processBuffer (drop k inputSignal) (N - k) ;; ret (Some ys)) w.
Proof.
  induction fuel as [|fuel IH]; intros k w HB Hfuel.
  - replace (N - k) with 0 by lia. unfold bind. rewrite fir_processBuffer_nil.
    simpl. destruct (decide (k < N)); [lia | reflexivity].
  - simpl. destruct (decide (k < N)) as [Hlt|Hge].
    + set (cur := min B (N - k)).
      replace (N - k) with (cur + (N - (k + cur))) by lia.
      unfold bind. rewrite fir_processBuffer_split. unfold bind.
      destruct (FIR.processBuffer (drop k inputSignal) cur w) as [[out w1]|e];
        [|reflexivity].
      specialize (IH (k + cur) w1 HB ltac:(lia)).
      rewrite drop_drop. unfold bind in IH |- *.
      destruct (Sketch.process_in_blocks fuel B N inputSignal (k + cur) w1)
        as [[r w2]|e];
        destruct (FIR.processBuffer (drop (k + cur) inputSignal) (N - (k + cur)) w1)
        as [[zs w3]|e']; try discriminate IH; try exact IH.
      unfold ret in *. destruct r as [blocks|]; simpl in *; congruence.
    + replace (N - k) with 0 by lia. unfold bind. rewrite fir_processBuffer_nil.
      reflexivity.
Qed.

Lemma process_in_blocks_stuck N inputSignal fuel :
  forall k (w : world FIR.FIRFilter heap),
  k < N -> Sketch.process_in_blocks fuel 0 N inputSignal k w = Ok (None, w).
Proof.
  induction fuel as [|fuel IH]; intros k w Hlt; simpl.
  - destruct (decide (k < N)); [reflexivity | lia].
  - destruct (decide (k < N)); [|lia].
    unfold bind at 1. rewrite fir_processBuffer_nil.
    unfold bind. rewrite Nat.add_0_r, IH by exact Hlt. reflexivity.
Qed.

Lemma process_in_blocks_lengths B N inputSignal fuel :
  forall k (w : world FIR.FIRFilter heap) blocks w',
  Sketch.process_in_blocks fuel B N inputSignal k w = Ok (Some blocks, w') ->
  Forall (fun b => 1 <= length b <= B) blocks.
Proof.
  induction fuel as [|fuel IH]; intros k w blocks w' Hrun.
  - simpl in Hrun. destruct (decide (k < N)); inversion Hrun; constructor.
  - destruct (decide (k < N)) as [Hlt|Hge].
    + destruct B as [|B'].
      { rewrite process_in_blocks_stuck in Hrun by exact Hlt. discriminate. }
      cbn [Sketch.process_in_blocks] in Hrun. destruct (decide (k < N)); [|lia].
      apply bind_inv in Hrun as (out & w1 & Hout & Hrun).
      apply bind_inv in Hrun as (r & w2 & Hrest & Hret).
      destruct r as [bs|]; [|discriminate].
      inversion Hret; subst. constructor.
      * rewrite (fir_processBuffer_length _ _ _ _ _ Hout). lia.
      * eapply IH, Hrest.
    + simpl in Hrun. destruct (decide (k < N)); [lia|].
      inversion Hrun; constructor.
Qed.

Lemma process_in_blocks_returns B N inputSignal fuel
    (w : world FIR.FIRFilter heap) c s cs line rest :
  FIR.ready w c s cs line rest ->
  1 <= B -> N <= length inputSignal -> N <= fuel ->
  exists blocks w',
    Sketch.process_in_blocks fuel B N inputSignal 0 w = Ok (Some blocks, w') /\
    concat blocks
    = fir_outputs (take (Z.to_nat (FIR._numTaps (this w))) cs) line
        (take N inputSignal).
Proof.
  intros Hr HB HN Hfuel.
  pose proof (process_in_blocks_concat B N inputSignal fuel 0 w HB ltac:(lia)) as Heq.
  rewrite Nat.sub_0_r in Heq. change (drop 0 inputSignal) with inputSignal in Heq.
  destruct (fir_each_ready (take N inputSignal) w c s cs line rest Hr) as [Hrun _].
  cbv zeta in Hrun. rewrite fir_each_block, length_take_le in Hrun by exact HN.
  rewrite fir_processBuffer_prefix in Hrun.
  unfold bind in Heq. rewrite Hrun in Heq.
  destruct (Sketch.process_in_blocks fuel B N inputSignal 0 w) as [[r w2]|e];
    [|discriminate Heq].
  destruct r as [blocks|]; [|discriminate Heq].
  inversion Heq; subst. eexists _, _. split; reflexivity.
Qed.
(** X13.  FIR_Example.cpp filters its signal block by block.  With a
    block size of at least one the loop ends within [maxSamplesNum]
    iterations, and what it writes to [filteredSignal], block after block,
    is what a single [processBuffer] call over the whole signal writes; it
    leaves the same object and heap, and fails where that call fails.  On a
    filter in working order and a signal of [maxSamplesNum] samples or more
    it returns, with the FIR outputs of the first [maxSamplesNum] samples.
    No block it hands to the filter is empty or longer than [BLOCK_SIZE].
    With a block size of zero and a signal that is not empty the loop never
    ends. *)
Theorem fir_example_blockwise B N inputSignal (w : world FIR.FIRFilter heap) :
  (1 <= B -> forall fuel, N <= fuel ->
     (r <- Sketch.process_in_blocks fuel B N inputSignal 0 ;;
      ret (@concat float32_t <$> r)) w
     = (ys <- FIR.processBuffer inputSignal N ;; ret (Some ys)) w) /\
  (forall c s cs line rest fuel,
     FIR.ready w c s cs line rest ->
     1 <= B -> N <= length inputSignal -> N <= fuel ->
     exists blocks w',
       Sketch.process_in_blocks fuel B N inputSignal 0 w = Ok (Some blocks, w') /\
       concat blocks
       = fir_outputs (take (Z.to_nat (FIR._numTaps (this w))) cs) line
           (take N inputSignal)) /\
  (forall fuel blocks w',
     Sketch.process_in_blocks fuel B N inputSignal 0 w = Ok (Some blocks, w') ->
     Forall (fun b => 1 <= length b <= B) blocks) /\
  (B = 0 -> 0 < N ->
   forall fuel, Sketch.process_in_blocks fuel B N inputSignal 0 w = Ok (None, w)).
Proof.
  split; [|split; [|split]].
  - intros HB fuel Hfuel.
    rewrite (process_in_blocks_concat B N inputSignal fuel 0 w HB) by lia.
    rewrite Nat.sub_0_r. reflexivity.
  - intros c s cs line rest fuel. apply process_in_blocks_returns.
  - intros fuel blocks w'. apply process_in_blocks_lengths.
  - intros -> HN fuel. apply process_in_blocks_stuck, HN.
Qed.

End Sketches.

Section LMSSketch.
Context {float32_t : Type} `{Arith float32_t}.
Local Abbreviation heap := (gmap loc (list float32_t)).
Variable maxSamplesNum : Z.
Variable ecgCleanSignal : list float32_t.
Variables powerlineInterference interferenceReference : Z -> float32_t.
Variable above_threshold : float32_t -> bool.
Variables mu_slow mu_fast : float32_t.

Local Abbreviation loop :=
  (Sketch.loop maxSamplesNum ecgCleanSignal powerlineInterference
     interferenceReference above_threshold mu_slow mu_fast).
Local Abbreviation loops :=
  (Sketch.loops maxSamplesNum ecgCleanSignal powerlineInterference
     interferenceReference above_threshold mu_slow mu_fast).
Local Abbreviation switch :=
  (fun m : float32_t => if above_threshold m then mu_slow else mu_fast).

Lemma lms_loop_step (w : world (LMS.LMSFilter float32_t) heap) c s ws line sc idx :
  (0 < maxSamplesNum < 2 ^ 32)%Z ->
  length ecgCleanSignal = Z.to_nat maxSamplesNum ->
  LMS.ready w c s ws line ->
  (0 <= sc)%Z -> (sc + 1 < 2 ^ 32)%Z -> (0 <= idx < maxSamplesNum)%Z ->
  exists w' ws' line',
    loop {| Sketch.sampleCounter := sc; Sketch.ecgSampleIndex := idx |} w
    = Ok ({| Sketch.sampleCounter := sc + 1;
             Sketch.ecgSampleIndex := (idx + 1) mod maxSamplesNum |}, w') /\
    LMS.ready w' c s ws' line' /\
    LMS.getMu (this w')
    = if ((sc + 1) mod 5000 =? 0)%Z then switch (LMS.getMu (this w))
      else LMS.getMu (this w).
Proof.
  intros HN Hlen Hr Hsc Hsc1 Hidx. unfold Sketch.loop. cbn [Sketch.sampleCounter Sketch.ecgSampleIndex].
  destruct (lookup_lt_is_Some_2 ecgCleanSignal (Z.to_nat idx) ltac:(lia)) as [v Hv].
  unfold array_get at 1. rewrite Hv.
  change (bind (ret v) ?k w) with (k v w). cbv beta zeta.
  match goal with |- context [LMS.processSample ?x ?d] =>
    destruct (lms_processSample_ready w c s ws line x d Hr) as [Hstep Hr1] end.
  cbv zeta in Hstep, Hr1.
  rewrite (bind_Ok _ _ _ _ _ Hstep).
  rewrite (Z.mod_small (sc + 1) (2 ^ 32)) by lia.
  rewrite (Z.mod_small (idx + 1) (2 ^ 32)) by lia.
  replace (0 <? sc + 1)%Z with true by (symmetry; apply Z.ltb_lt; lia).
  rewrite andb_true_r.
  destruct ((sc + 1) mod 5000 =? 0)%Z.
  - eexists _, _, _. unfold bind at 1. unfold bind at 1. unfold get_this at 1.
    rewrite setMu_unfold. split; [reflexivity|].
    split; [apply setMu_ready; exact Hr1 | reflexivity].
  - eexists _, _, _. split; [reflexivity|]. split; [exact Hr1 | reflexivity].
Qed.

Lemma lms_loops_from (n : nat) :
  forall (w : world (LMS.LMSFilter float32_t) heap) c s ws line sc idx,
  (0 < maxSamplesNum < 2 ^ 32)%Z ->
  length ecgCleanSignal = Z.to_nat maxSamplesNum ->
  LMS.ready w c s ws line ->
  (0 <= sc)%Z -> (sc + Z.of_nat n < 2 ^ 32)%Z -> (0 <= idx < maxSamplesNum)%Z ->
  exists w' ws' line',
    loops n {| Sketch.sampleCounter := sc; Sketch.ecgSampleIndex := idx |} w
    = Ok ({| Sketch.sampleCounter := sc + Z.of_nat n;
             Sketch.ecgSampleIndex := (idx + Z.of_nat n) mod maxSamplesNum |}, w') /\
    LMS.ready w' c s ws' line' /\
    LMS.getMu (this w')
    = Nat.iter (Z.to_nat ((sc + Z.of_nat n) / 5000 - sc / 5000)) switch
        (LMS.getMu (this w)).
Proof.
  induction n as [|n IH]; intros w c s ws line sc idx HN Hlen Hr Hsc Hbound Hidx.
  - exists w, ws, line. simpl. unfold ret.
    rewrite !Z.add_0_r, Z.sub_diag, Z.mod_small by lia.
    split; [reflexivity|]. split; [exact Hr | reflexivity].
  - destruct (lms_loop_step w c s ws line sc idx HN Hlen Hr Hsc ltac:(lia) Hidx)
      as (w1 & ws1 & line1 & Hstep & Hr1 & Hmu1).
    destruct (IH w1 c s ws1 line1 (sc + 1)%Z ((idx + 1) mod maxSamplesNum)%Z
                HN Hlen Hr1 ltac:(lia) ltac:(lia)
                ltac:(apply Z.mod_pos_bound; lia))
      as (w2 & ws2 & line2 & Hrun & Hr2 & Hmu2).
    exists w2, ws2, line2.
    cbn [Sketch.loops]. rewrite (bind_Ok _ _ _ _ _ Hstep), Hrun.
    replace (sc + 1 + Z.of_nat n)%Z with (sc + Z.of_nat (S n))%Z by lia.
    split.
    + do 2 f_equal. f_equal.
      rewrite Zplus_mod_idemp_l. f_equal. lia.
    + split; [exact Hr2|]. rewrite Hmu2, Hmu1.
      replace (sc + 1 + Z.of_nat n)%Z with (sc + Z.of_nat (S n))%Z by lia.
      set (q := ((sc + Z.of_nat (S n)) / 5000)%Z).
      assert (sc / 5000 <= (sc + 1) / 5000 <= q)%Z as Hq.
      { subst q. split; apply Z.div_le_mono; lia. }
      destruct ((sc + 1) mod 5000 =? 0)%Z eqn:Emod.
      * apply Z.eqb_eq in Emod.
        assert ((sc + 1) / 5000 = sc / 5000 + 1)%Z as Hdiv.
        { clear -Emod Hsc. Z.div_mod_to_equations. lia. }
        rewrite Hdiv in *.
        replace (Z.to_nat (q - sc / 5000)) with (S (Z.to_nat (q - (sc / 5000 + 1))))
          by lia.
        rewrite Nat.iter_succ_r. reflexivity.
      * apply Z.eqb_neq in Emod.
        assert ((sc + 1) / 5000 = sc / 5000)%Z as Hdiv.
        { clear -Emod Hsc. Z.div_mod_to_equations. lia. }
        rewrite Hdiv. reflexivity.
Qed.

(** X14.  LMS_Example.cpp, [loop()], on a filter in working order and a
    table of [maxSamplesNum] samples: [n] iterations from the initial
    counters return, none reads outside the table, the sample counter is
    [n], the table index is [n mod maxSamplesNum], the filter is still in
    working order, and the step size has been switched once for every full
    5000 samples. *)
Theorem lms_example_loop (n : nat) (w : world (LMS.LMSFilter float32_t) heap)
    c s ws line :
  (0 < maxSamplesNum < 2 ^ 32)%Z ->
  length ecgCleanSignal = Z.to_nat maxSamplesNum ->
  LMS.ready w c s ws line ->
  (Z.of_nat n < 2 ^ 32)%Z ->
  exists w' ws' line',
    loops n {| Sketch.sampleCounter := 0; Sketch.ecgSampleIndex := 0 |} w
    = Ok ({| Sketch.sampleCounter := Z.of_nat n;
             Sketch.ecgSampleIndex := Z.of_nat n mod maxSamplesNum |}, w') /\
    LMS.ready w' c s ws' line' /\
    LMS.getMu (this w')
    = Nat.iter (Z.to_nat (Z.of_nat n / 5000)) switch (LMS.getMu (this w)).
Proof.
  intros HN Hlen Hr Hn.
  destruct (lms_loops_from n w c s ws line 0 0 HN Hlen Hr ltac:(lia) ltac:(lia)
              ltac:(lia)) as (w' & ws' & line' & Hrun & Hr' & Hmu).
  exists w', ws', line'. rewrite !Z.add_0_l in *.
  change (0 / 5000)%Z with 0%Z in Hmu. rewrite Z.sub_0_r in Hmu.
  split; [exact Hrun|]. split; [exact Hr' | exact Hmu].
Qed.

End LMSSketch.

Section MoreSketches.
Context {float32_t : Type} `{Arith float32_t}.
Local Abbreviation heap := (gmap loc (list float32_t)).
Implicit Types (h : heap) (xs ds inputSignal inputBuffer : list float32_t).

Lemma process_in_blocks_u16_concat B L inputBuffer fuel :
  forall i (w : world FIR.FIRFilter heap),
  (1 <= B)%Z -> (L + B <= 2 ^ 16)%Z -> (0 <= i)%Z -> Z.to_nat (L - i) <= fuel ->
  (r <- Sketch.process_in_blocks_u16 fuel B L inputBuffer i ;;
   ret (@concat float32_t <$> r)) w
  = (ys <- FIR.processBuffer (drop (Z.to_nat i) inputBuffer) (Z.to_nat (L - i)) ;;
     ret (Some ys)) w.
Proof.
  induction fuel as [|fuel IH]; intros i w HB HL Hi Hfuel.
  - replace (Z.to_nat (L - i)) with 0 by lia. unfold bind.
    rewrite fir_processBuffer_nil.
    simpl. destruct (decide (i < L)%Z); [lia | reflexivity].
  - cbn [Sketch.process_in_blocks_u16]. destruct (decide (i < L)%Z) as [Hlt|Hge].
    + rewrite (Z.mod_small (Z.min B (L - i))) by lia.
      rewrite (Z.mod_small (i + B)) by lia.
      set (cur := Z.min B (L - i)).
      replace (Z.to_nat (L - i)) with (Z.to_nat cur + Z.to_nat (L - (i + B))) by lia.
      unfold bind. rewrite fir_processBuffer_split. unfold bind.
      destruct (FIR.processBuffer (drop (Z.to_nat i) inputBuffer) (Z.to_nat cur) w)
        as [[out w1]|e]; [|reflexivity].
      specialize (IH (i + B)%Z w1 HB HL ltac:(lia) ltac:(lia)).
      rewrite drop_drop. unfold bind in IH.
      assert (FIR.processBuffer (drop (Z.to_nat i + Z.to_nat cur) inputBuffer)
                (Z.to_nat (L - (i + B))) w1
              = FIR.processBuffer (drop (Z.to_nat (i + B)) inputBuffer)
                  (Z.to_nat (L - (i + B))) w1) as Hsame.
      { destruct (decide (B <= L - i)%Z) as [Hfull|Hlast].
        - replace (Z.to_nat i + Z.to_nat cur) with (Z.to_nat (i + B)) by lia.
          reflexivity.
        - replace (Z.to_nat (L - (i + B))) with 0 by lia.
          rewrite !fir_processBuffer_nil. reflexivity. }
      rewrite Hsame.
      destruct (Sketch.process_in_blocks_u16 fuel B L inputBuffer (i + B) w1)
        as [[r w2]|e];
        destruct (FIR.processBuffer (drop (Z.to_nat (i + B)) inputBuffer)
                    (Z.to_nat (L - (i + B))) w1)
        as [[zs w3]|e']; try discriminate IH; try exact IH.
      unfold ret in *. destruct r as [blocks|]; simpl in *; congruence.
    + replace (Z.to_nat (L - i)) with 0 by lia. unfold bind.
      rewrite fir_processBuffer_nil. reflexivity.
Qed.

Lemma multiple_below (B W i : Z) :
  (0 < B)%Z -> (B | W)%Z -> (B | i)%Z -> (i < W)%Z -> (i <= W - B)%Z.
Proof.
  intros HB [q ->] [k ->] Hlt. assert (k < q)%Z by nia. nia.
Qed.

Lemma process_in_blocks_u16_wraps B L inputBuffer fuel :
  forall i (w : world FIR.FIRFilter heap) blocks w',
  (0 < B)%Z -> (B | 2 ^ 16)%Z -> (2 ^ 16 - B < L)%Z ->
  (B | i)%Z -> (0 <= i < 2 ^ 16)%Z ->
  Sketch.process_in_blocks_u16 fuel B L inputBuffer i w <> Ok (Some blocks, w').
Proof.
  induction fuel as [|fuel IH]; intros i w blocks w' HB Hdiv HL Hi Hrange Hrun;
    pose proof (multiple_below B (2 ^ 16) i HB Hdiv Hi ltac:(lia)) as Hle;
    cbn [Sketch.process_in_blocks_u16] in Hrun;
    (destruct (decide (i < L)%Z); [|lia]).
  - discriminate.
  - apply bind_inv in Hrun as (out & w1 & _ & Hrun).
    apply bind_inv in Hrun as (r & w2 & Hrest & Hret).
    destruct r as [bs|]; [|discriminate].
    apply (IH _ _ _ _ HB Hdiv HL) in Hrest; [exact Hrest| |].
    + rewrite Z.mod_eq by lia. apply Z.divide_sub_r.
      * apply Z.divide_add_r; [exact Hi | apply Z.divide_refl].
      * apply Z.divide_mul_l. exact Hdiv.
    + apply Z.mod_pos_bound. lia.
Qed.

Lemma array_at_Ok {St} inputSignal (i : Z) (st : St) :
  (0 <= i < Z.of_nat (length inputSignal))%Z ->
  Sketch.array_at inputSignal i st
  = Ok (default f0 (inputSignal !! Z.to_nat i), st).
Proof.
  intros Hi. unfold Sketch.array_at, array_get.
  destruct (decide (i < 0)%Z); [lia|].
  destruct (lookup_lt_is_Some_2 inputSignal (Z.to_nat i) ltac:(lia)) as [v ->].
  reflexivity.
Qed.

(** The samples [loop()] feeds the filter from index [i] on: the signal,
    repeated. *)
Local Abbreviation replay_from N inputSignal i k :=
  ((fun j : nat => default f0 (inputSignal !! Z.to_nat ((i + Z.of_nat j) mod N)))
     <$> seq 0 k).

Lemma fir_loops_replay N inputSignal elapsed :
  forall i (w : world FIR.FIRFilter heap),
  (0 < N)%Z -> length inputSignal = Z.to_nat N -> (0 <= i < N)%Z ->
  let k := length (filter (fun e => e = true) elapsed) in
  Sketch.fir_loops N inputSignal elapsed i w
  = (ys <- each FIR.processSample (replay_from N inputSignal i k) ;;
     ret ((i + Z.of_nat k) mod N, ys)%Z) w.
Proof.
  induction elapsed as [|e es IH]; intros i w HN Hlen Hi; cbv zeta.
  - simpl. unfold bind, ret. simpl. rewrite Z.add_0_r, Z.mod_small by lia.
    reflexivity.
  - cbn [Sketch.fir_loops]. destruct e.
    + rewrite filter_cons_True by reflexivity. cbn [length].
      unfold Sketch.fir_loop. destruct (decide (i < N)%Z); [|lia].
      change (seq 0 (S ?k)) with (0 :: seq 1 k). rewrite <- fmap_S_seq.
      rewrite fmap_cons, <- list_fmap_compose. cbn [each].
      unfold bind. rewrite array_at_Ok by lia.
      rewrite Z.add_0_r, (Z.mod_small i N) by lia.
      destruct (FIR.processSample _ w) as [[y w1]|err]; [|reflexivity].
      unfold ret at 1. cbn [fst snd].
      set (i' := if decide (i + 1 >= N)%Z then 0%Z else (i + 1)%Z).
      assert (i' = (i + 1) mod N)%Z as Hi'.
      { subst i'. destruct (decide (i + 1 >= N)%Z).
        - replace (i + 1)%Z with N by lia. rewrite Z_mod_same_full. reflexivity.
        - rewrite Z.mod_small by lia. reflexivity. }
      rewrite (IH i' w1 HN Hlen) by (rewrite Hi'; apply Z.mod_pos_bound; lia).
      cbv zeta.
      assert (forall k, replay_from N inputSignal i' k
              = ((fun j : nat => default f0 (inputSignal !! Z.to_nat ((i + Z.of_nat j) mod N)))
                   ∘ S) <$> seq 0 k) as Hreplay.
      { intros k. apply list_fmap_ext. intros _ j _. simpl. do 3 f_equal.
        rewrite Hi', Zplus_mod_idemp_l. f_equal. lia. }
      rewrite Hreplay. unfold bind.
      match goal with |- context [each FIR.processSample ?l w1] =>
        destruct (each FIR.processSample l w1) as [[ys w2]|err] end; [|reflexivity].
      unfold ret. simpl. do 3 f_equal.
      rewrite Hi', Zplus_mod_idemp_l. f_equal. lia.
    + rewrite filter_cons_False by discriminate.
      unfold Sketch.fir_loop. unfold bind at 1. unfold ret at 1. cbn [fst snd].
      unfold bind at 1. rewrite (IH i w HN Hlen Hi). cbv zeta. unfold bind.
      match goal with |- context [each FIR.processSample ?l w] =>
        destruct (each FIR.processSample l w) as [[ys w2]|err] end; reflexivity.
Qed.

(** X15.  FIR_Example.ino filters its signal with a [uint16_t] block
    counter.  As long as [testSignalLength + BLOCK_SIZE] does not exceed
    [2^16] the counter never wraps, and the loop writes, block after block,
    what a single [processBuffer] call over the whole signal writes.  With a
    block size that divides [2^16], as the sketch's 32 does, and a signal
    longer than [2^16 - BLOCK_SIZE] the counter wraps to a multiple of the
    block size below the signal length again and again: the loop never
    ends. *)
Theorem fir_example_blockwise_u16 B L inputBuffer (w : world FIR.FIRFilter heap) :
  ((1 <= B)%Z -> (L + B <= 2 ^ 16)%Z -> forall fuel, Z.to_nat L <= fuel ->
     (r <- Sketch.process_in_blocks_u16 fuel B L inputBuffer 0 ;;
      ret (@concat float32_t <$> r)) w
     = (ys <- FIR.processBuffer inputBuffer (Z.to_nat L) ;; ret (Some ys)) w) /\
  ((0 < B)%Z -> (B | 2 ^ 16)%Z -> (2 ^ 16 - B < L)%Z ->
   forall fuel blocks w',
     Sketch.process_in_blocks_u16 fuel B L inputBuffer 0 w <> Ok (Some blocks, w')).
Proof.
  split.
  - intros HB HL fuel Hfuel.
    rewrite (process_in_blocks_u16_concat B L inputBuffer fuel 0 w HB HL)
      by (rewrite ?Z.sub_0_r; lia).
    rewrite Z.sub_0_r. reflexivity.
  - intros HB Hdiv HL fuel blocks w'.
    apply process_in_blocks_u16_wraps; try assumption.
    + apply Z.divide_0_r.
    + lia.
Qed.

Lemma replay_from_0 N inputSignal k :
  (0 < N)%Z -> length inputSignal = Z.to_nat N ->
  replay_from N inputSignal 0 k = replay inputSignal k.
Proof.
  intros HN Hlen. unfold replay. apply list_fmap_ext. intros _ j _. simpl.
  do 2 f_equal. rewrite Hlen, Z.add_0_l. apply Nat2Z.inj.
  rewrite Z2Nat.id by (apply Z.mod_pos_bound; lia).
  rewrite Nat2Z.inj_mod, Z2Nat.id by lia. reflexivity.
Qed.

(** X16.  FIR_Example.cpp, [loop()], called any number of times: with
    [k] the number of calls in which the millisecond had elapsed, the filter
    has been fed exactly the first [k] samples of the signal played over and
    over, every read of [inputSignal] was inside the array, and
    [sampleIndex] is [k mod maxSamplesNum]; the calls fail only where the
    filter fails.  On a filter in working order they return, with the FIR
    outputs of those samples. *)
Theorem fir_example_loop N inputSignal elapsed (w : world FIR.FIRFilter heap) :
  (0 < N)%Z -> length inputSignal = Z.to_nat N ->
  let k := length (filter (fun e => e = true) elapsed) in
  Sketch.fir_loops N inputSignal elapsed 0 w
  = (ys <- each FIR.processSample (replay inputSignal k) ;;
     ret ((Z.of_nat k mod N)%Z, ys)) w /\
  (forall c s cs line rest,
     FIR.ready w c s cs line rest ->
     exists w',
       Sketch.fir_loops N inputSignal elapsed 0 w
       = Ok (((Z.of_nat k mod N)%Z,
              fir_outputs (take (Z.to_nat (FIR._numTaps (this w))) cs) line
                (replay inputSignal k)), w')).
Proof.
  intros HN Hlen k.
  assert (Sketch.fir_loops N inputSignal elapsed 0 w
          = (ys <- each FIR.processSample (replay inputSignal k) ;;
             ret ((Z.of_nat k mod N)%Z, ys)) w) as Hloop.
  { rewrite (fir_loops_replay N inputSignal elapsed 0 w HN Hlen) by lia.
    cbv zeta. fold k. rewrite (replay_from_0 N inputSignal k HN Hlen), Z.add_0_l.
    reflexivity. }
  split; [exact Hloop|].
  intros c s cs line rest Hr. rewrite Hloop.
  destruct (fir_each_ready (replay inputSignal k) w c s cs line rest Hr) as [Hrun _].
  cbv zeta in Hrun. rewrite (bind_Ok _ _ _ _ _ Hrun). eexists. reflexivity.
Qed.

End MoreSketches.

(** ** Concrete instances *)

Section FurtherWitnesses.
Local Open Scope Z_scope.

(** Discharge a side condition on a concrete filter by evaluation. *)
Ltac evaluate :=
  first [ reflexivity | discriminate | (cbn; lia)
        | (unfold is_uint8, is_uint16; lia) | (vm_compute; reflexivity) ].

Ltac ready_by_evaluation :=
  constructor; [repeat split; reflexivity | evaluate ..].

(** The impulse through a three-tap filter that lives for this one
    sequence. *)
Lemma scoped_filter_restores_heap_witness :
  Lifetime.with_FIRFilter (Some 1%positive) 3 2 (each FIR.processSample [1; 0; 0])
    Example.caller_heap
  = Ok ([3; 5; 7], Example.caller_heap).
Proof.
  apply (proj1 (@scoped_filter_restores_heap Z Z_arith)
           Example.caller_heap 1%positive [3; 5; 7] 3 2 [1; 0; 0]); evaluate.
Defined.

(** Two samples through an LMS filter that lives for this one sequence. *)
Lemma scoped_lms_keeps_weights_witness :
  exists ys es ws',
    Lifetime.with_LMSFilter (Some 1%positive) 3 2 1 (LMS.feed [1; 1] [5; 5])
      Example.caller_heap
    = Ok ((ys, es), <[1%positive := ws']> Example.caller_heap).
Proof.
  destruct (scoped_lms_keeps_weights Example.caller_heap 1%positive [3; 5; 7]
              3 2 1 [1; 1] [5; 5])
    as (ys & es & ws' & Hrun & _); try evaluate.
  exists ys, es, ws'. exact Hrun.
Defined.

(** A step size set to 7, then a sample and a reset. *)
Lemma session_step_size_witness :
  exists us w',
    each Session.do_call
      [Session.SetMu 7; Session.ProcessSample 1 5; Session.ResetCoefficients nullptr]
      (World Example.lms (Example.heap_with [0; 0; 0]))
    = Ok (us, w') /\
    LMS.getMu (this w') = 7.
Proof.
  eexists _, _. split; [reflexivity|].
  apply (proj1 (@session_step_size Z Z_arith (Some 1%positive) 3 2 1
                  Example.caller_heap
                  Example.lms (Example.heap_with [0; 0; 0])
                  [Session.SetMu 7; Session.ProcessSample 1 5;
                   Session.ResetCoefficients nullptr]
                  _ _ ltac:(vm_compute; reflexivity) eq_refl)).
Defined.

(** Two resets to zero of the example LMS filter. *)
Lemma lms_reset_idempotent_witness :
  exists w1,
    LMS.resetCoefficients nullptr (World Example.lms (Example.heap_with [1; 0; 2]))
    = Ok (tt, w1) /\
    LMS.resetCoefficients nullptr w1 = Ok (tt, w1).
Proof.
  apply (proj1 (lms_reset_idempotent
                  (World Example.lms (Example.heap_with [1; 0; 2]))
                  1%positive 4%positive [3; 5; 7] [1; 0; 2]
                  ltac:(ready_by_evaluation))).
Defined.

(** A reset of the example LMS filter to its own weights. *)
Lemma lms_reset_special_vectors_witness :
  LMS.resetCoefficients (Some 1%positive)
    (World Example.lms (Example.heap_with [1; 0; 2]))
  = Ok (tt, World Example.lms (<[4%positive := [0; 0; 0]]> (Example.heap_with [1; 0; 2]))).
Proof.
  exact (proj2 (lms_reset_special_vectors
                  (World Example.lms (Example.heap_with [1; 0; 2]))
                  1%positive 4%positive [3; 5; 7] [1; 0; 2]
                  ltac:(ready_by_evaluation))).
Defined.

(** A reset of the three-tap example filter from a one-element array. *)
Lemma lms_reset_bounds_witness :
  LMS.resetCoefficients (Some 2%positive)
    (World Example.lms (<[2%positive := [9]]> (Example.heap_with [1; 0; 2])))
  = Fault OutOfBounds.
Proof.
  apply (proj1 (@lms_reset_bounds Z Z_arith)
           (World Example.lms (<[2%positive := [9]]> (Example.heap_with [1; 0; 2])))
           1%positive 4%positive [3; 5; 7] [1; 0; 2] 2%positive [9]).
  - ready_by_evaluation.
  - reflexivity.
  - cbn. lia.
Defined.

(** Three samples asked of a two-element array. *)
Lemma processBuffer_bounds_witness :
  FIR.processBuffer [1; 1] 3 (World Example.fir (Example.heap_with [0; 0; 0; 0]))
  = Fault OutOfBounds.
Proof.
  apply (proj1 (proj2 (proj2 (proj2 (@processBuffer_bounds Z Z_arith))))
           [1; 1] 3%nat (World Example.fir (Example.heap_with [0; 0; 0; 0]))
           1%positive 4%positive [3; 5; 7] [0; 0; 0] [0]
           ltac:(ready_by_evaluation)).
  cbn. lia.
Defined.

(** Three samples in blocks of two: a block of two and a block of one. *)
Lemma fir_example_blockwise_witness :
  exists blocks w',
    Sketch.process_in_blocks 3 2 3 [1; 0; 0] 0
      (World Example.fir (Example.heap_with [0; 0; 0; 0]))
    = Ok (Some blocks, w') /\
    concat blocks = [3; 5; 7].
Proof.
  destruct (proj1 (proj2 (fir_example_blockwise 2 3 [1; 0; 0]
                            (World Example.fir (Example.heap_with [0; 0; 0; 0]))))
              1%positive 4%positive [3; 5; 7] [0; 0; 0] [0] 3%nat)
    as (blocks & w' & Hrun & Hout); try evaluate.
  - ready_by_evaluation.
  - exists blocks, w'. split; [exact Hrun | exact Hout].
Defined.

(** Two iterations over a table of two samples. *)
Lemma lms_example_loop_witness :
  exists w',
    Sketch.loops 2 [10; 20] (fun _ => 0) (fun _ => 5) (fun m => 1 <? m) 1 3 2
      {| Sketch.sampleCounter := 0; Sketch.ecgSampleIndex := 0 |}
      (World Example.lms (Example.heap_with [0; 0; 0]))
    = Ok ({| Sketch.sampleCounter := 2; Sketch.ecgSampleIndex := 0 |}, w').
Proof.
  destruct (lms_example_loop 2 [10; 20] (fun _ => 0) (fun _ => 5) (fun m => 1 <? m)
              1 3 2%nat (World Example.lms (Example.heap_with [0; 0; 0]))
              1%positive 4%positive [3; 5; 7] [0; 0; 0])
    as (w' & _ & _ & Hrun & _); try evaluate.
  - ready_by_evaluation.
  - exists w'. exact Hrun.
Defined.

(** The example FIR filter, used after its destructor ran. *)
Lemma destroyed_filter_faults_witness :
  FIR.processSample 1
    (World Example.fir (delete 4%positive (Example.heap_with [0; 0; 0; 0])))
  = Fault DanglingPointer.
Proof.
  apply (proj1 (@destroyed_filter_faults Z Z_arith)
           (World Example.fir (Example.heap_with [0; 0; 0; 0]))
           1%positive 4%positive [3; 5; 7] [0; 0; 0] [0] 1 ltac:(ready_by_evaluation)).
Defined.

(** Three samples in blocks of two, counted in sixteen bits. *)
Lemma fir_example_blockwise_u16_witness :
  (r <- Sketch.process_in_blocks_u16 3 2 3 [1; 0; 0] 0 ;; ret (@concat Z <$> r))
    (World Example.fir (Example.heap_with [0; 0; 0; 0]))
  = (ys <- FIR.processBuffer [1; 0; 0] 3 ;; ret (Some ys))
      (World Example.fir (Example.heap_with [0; 0; 0; 0])).
Proof.
  apply (proj1 (fir_example_blockwise_u16 2 3 [1; 0; 0]
                  (World Example.fir (Example.heap_with [0; 0; 0; 0])))); lia.
Defined.

(** Four calls, three of them with the millisecond elapsed, over a signal
    of two samples. *)
Lemma fir_example_loop_witness :
  exists w',
    Sketch.fir_loops 2 [1; 0] [true; false; true; true] 0
      (World Example.fir (Example.heap_with [0; 0; 0; 0]))
    = Ok ((1, [3; 5; 10]), w').
Proof.
  destruct (proj2 (fir_example_loop 2 [1; 0] [true; false; true; true]
                     (World Example.fir (Example.heap_with [0; 0; 0; 0]))
                     ltac:(lia) eq_refl)
              1%positive 4%positive [3; 5; 7] [0; 0; 0] [0]
              ltac:(ready_by_evaluation)) as [w' Hrun].
  exists w'. exact Hrun.
Defined.

End FurtherWitnesses.
